(** * Receipt store: persistence and state reconciliation

    A shallow embedding of the persistence core of the receipt application:
    - [services/database.ts]: the dual-backend storage adapter
      (SQLite on mobile, one AsyncStorage blob on web) and the insights
      aggregator;
    - [store/receiptStore.ts]: the zustand store that writes through the
      adapter and reloads;
    - [services/geminiVision.ts] and the scan screen: the ingestion path;
    - [app/receipt/edit/[id].tsx]: the validation done by [handleSave].

    Conventions of the embedding.
    - The amounts of the data are exact rationals ([Q]): every
      [Number(..)] of the source is guarded by [|| 0], so [NaN] is never
      stored, and rounding is not modelled.  A computed amount is compared
      ([Qeq]) with the value of the expression the code evaluates for it,
      not with a regrouping of its terms.  The one division of the code
      has a result type of its own, with [NaN] and the infinities, and the
      sum kept in an object used as a map is a number or a string.
    - An object used as a map is one created as [{}]: it inherits the
      names of [Object.prototype], and [Object.entries] lists its
      properties with the array indices first.
    - An absent property ([undefined]) is [None].
    - A string is the sequence of the bytes of its UTF-8 encoding.  The
      white space of [trim], [parseInt] and [\s] is that of the language:
      the six ASCII characters and the Unicode spaces, each a sequence of
      two or three bytes.  The letters that the code compares are ASCII.
    - Instants ([new Date().toISOString()], [CURRENT_TIMESTAMP],
      [Date.now()]) are integers read from the world's clock; the calendar
      date [new Date().toISOString().split('T')[0]] is a second reading of
      that clock, a string.
    - [async] functions run to completion in sequence: a call is a function
      from the state before to a result and the state after.  A thrown
      exception is [Throw] with the message of the error.
    - A call of a backend fails for what the world holds: a blob that
      [JSON.parse] rejects, a database that does not open.  Calls that
      overlap and storage that fails at one call and not at the next are
      outside the model. *)

From Stdlib Require Import String Ascii List ZArith QArith Bool Lia.
From Stdlib Require Import DecimalString DecimalPos Sorted Permutation.
Import ListNotations.

Open Scope string_scope.
Open Scope Z_scope.

(** ** JavaScript values *)

Module Js.

(** Truthiness of a string: every string but the empty one. *)
Definition truthy_str (s : string) : bool :=
  match s with EmptyString => false | String _ _ => true end.

(** Truthiness of a number: every number but zero. *)
Definition truthy_num (q : Q) : bool := negb (Qnum q =? 0).

(** [a || b] where [a] may be absent. *)
Definition or {A : Type} (truthy : A -> bool) (a b : option A) : option A :=
  match a with
  | Some x => if truthy x then a else b
  | None => b
  end.

(** [a || d] where [d] is a literal. *)
Definition or_lit {A : Type} (truthy : A -> bool) (a : option A) (d : A) : A :=
  match a with
  | Some x => if truthy x then x else d
  | None => d
  end.

(** Truthiness of a possibly absent value. *)
Definition truthy {A : Type} (t : A -> bool) (a : option A) : bool :=
  match a with Some x => t x | None => false end.

(** White space of [String.prototype.trim], of [parseInt] and of the [\s]
    class: the code points 9 to 13 and 32, and U+00A0, U+1680, U+2000 to
    U+200A, U+2028, U+2029, U+202F, U+205F, U+3000 and U+FEFF.  Here the
    one-byte ones, by the value of the byte. *)
Definition ascii_space (a : nat) : bool :=
  (((9 <=? a) && (a <=? 13)) || (a =? 32))%nat.

(** The three-byte ones, by the values of the bytes. *)
Definition space3 (a b c : nat) : bool :=
  (((a =? 225) && (b =? 154) && (c =? 128))
   || ((a =? 226) && (b =? 128)
       && (((128 <=? c) && (c <=? 138)) || (c =? 168) || (c =? 169) || (c =? 175)))
   || ((a =? 226) && (b =? 129) && (c =? 159))
   || ((a =? 227) && (b =? 128) && (c =? 128))
   || ((a =? 239) && (b =? 187) && (c =? 191)))%nat.

(** The number of bytes of the white space character that [s] begins
    with, 0 when it begins with none.  U+00A0 is the two bytes 194, 160. *)
Definition space_width (s : string) : nat :=
  match s with
  | EmptyString => O
  | String c r =>
      let a := nat_of_ascii c in
      if ascii_space a then 1%nat
      else if (a <? 128)%nat then O
      else
        match r with
        | EmptyString => O
        | String c1 r1 =>
            let b := nat_of_ascii c1 in
            if ((a =? 194) && (b =? 160))%nat then 2%nat
            else
              match r1 with
              | EmptyString => O
              | String c2 _ => if space3 a b (nat_of_ascii c2) then 3%nat else O
              end
        end
  end.

Definition is_digit (c : ascii) : bool :=
  let n := nat_of_ascii c in ((48 <=? n) && (n <=? 57))%nat.

Definition is_upper (c : ascii) : bool :=
  let n := nat_of_ascii c in ((65 <=? n) && (n <=? 90))%nat.

Definition is_lower (c : ascii) : bool :=
  let n := nat_of_ascii c in ((97 <=? n) && (n <=? 122))%nat.

(** [s] without the white space it begins with; [skip] bytes of a
    character of white space are still to be passed. *)
Fixpoint drop_spaces (skip : nat) (s : string) : string :=
  match skip with
  | S k =>
      match s with
      | String _ r => drop_spaces k r
      | EmptyString => EmptyString
      end
  | O =>
      match space_width s with
      | O => s
      | S k =>
          match s with
          | String _ r => drop_spaces k r
          | EmptyString => EmptyString
          end
      end
  end.

Definition trimStart (s : string) : string := drop_spaces O s.

(** [s] is white space from end to end. *)
Fixpoint only_spaces (skip : nat) (s : string) : bool :=
  match s with
  | EmptyString => true
  | String _ r =>
      match skip with
      | S k => only_spaces k r
      | O =>
          match space_width s with
          | O => false
          | S k => only_spaces k r
          end
      end
  end.

(** Drops the trailing white space: a byte is kept when something that is
    no white space comes at it or after it. *)
Fixpoint trimEnd (s : string) : string :=
  match s with
  | EmptyString => EmptyString
  | String c r => if only_spaces O s then EmptyString else String c (trimEnd r)
  end.

Definition trim (s : string) : string := trimEnd (trimStart s).

(** [s.replace(/[^a-zA-Z0-9\s]/g, '')]: the ASCII letters and digits and
    the white space stay; [skip] bytes of a character of white space are
    still to be kept. *)
Fixpoint keep_alnum_space (skip : nat) (s : string) : string :=
  match s with
  | EmptyString => EmptyString
  | String c r =>
      match skip with
      | S k => String c (keep_alnum_space k r)
      | O =>
          match space_width s with
          | S k => String c (keep_alnum_space k r)
          | O =>
              if is_lower c || is_upper c || is_digit c
              then String c (keep_alnum_space O r)
              else keep_alnum_space O r
          end
      end
  end.

Definition lower_char (c : ascii) : ascii :=
  if is_upper c then ascii_of_nat (nat_of_ascii c + 32) else c.

(** [s.toLowerCase()], as far as the ASCII letters go.  The code looks at
    the result with [includes('merchant')] and [includes('total')] only,
    and no character outside ASCII has one of the letters of these two
    words in its lower case (the Kelvin sign gives [k], the dotted capital
    I gives [i]): the bytes of the other characters are left as they are. *)
Fixpoint toLowerCase (s : string) : string :=
  match s with
  | EmptyString => EmptyString
  | String c r => String (lower_char c) (toLowerCase r)
  end.

(** [s.includes(p)] *)
Fixpoint includes (p s : string) : bool :=
  prefix p s ||
  match s with
  | EmptyString => false
  | String _ r => includes p r
  end.

(** [s.split('\n')] *)
Fixpoint split_lines_aux (cur : string -> string) (s : string) : list string :=
  match s with
  | EmptyString => [cur EmptyString]
  | String c r =>
      if (nat_of_ascii c =? 10)%nat
      then cur EmptyString :: split_lines_aux (fun x => x) r
      else split_lines_aux (fun x => cur (String c x)) r
  end.

Definition split_lines (s : string) : list string :=
  split_lines_aux (fun x => x) s.

Definition digit_val (c : ascii) : Z := Z.of_nat (nat_of_ascii c) - 48.

(** Value of a hexadecimal digit, when [c] is one. *)
Definition hex_val (c : ascii) : option Z :=
  let n := nat_of_ascii c in
  if is_digit c then Some (Z.of_nat n - 48)
  else if ((97 <=? n) && (n <=? 102))%nat then Some (Z.of_nat n - 87)
  else if ((65 <=? n) && (n <=? 70))%nat then Some (Z.of_nat n - 55)
  else None.

(** Longest prefix of digits in the given radix, read as a number; [None]
    when the prefix is empty. *)
Fixpoint read_digits (val : ascii -> option Z) (radix : Z) (acc : option Z)
    (s : string) : option Z :=
  match s with
  | EmptyString => acc
  | String c r =>
      match val c with
      | Some d =>
          read_digits val radix
            (Some (match acc with Some a => a * radix + d | None => d end)) r
      | None => acc
      end
  end.

Definition dec_val (c : ascii) : option Z :=
  if is_digit c then Some (digit_val c) else None.

(** [parseInt(s)] with no radix argument: leading white space, a sign, a
    [0x] prefix for radix 16; [None] is [NaN]. *)
Definition parseInt (s : string) : option Z :=
  let s0 := trimStart s in
  let '(sign, s1) :=
    match s0 with
    | String "-"%char r => (-1, r)
    | String "+"%char r => (1, r)
    | _ => (1, s0)
    end in
  let n :=
    match s1 with
    | String "0"%char (String "x"%char r)
    | String "0"%char (String "X"%char r) => read_digits hex_val 16 None r
    | _ => read_digits dec_val 10 None s1
    end in
  option_map (Z.mul sign) n.

(** [n.toString()] for an integer. *)
Definition int_toString (n : Z) : string := NilZero.string_of_int (Z.to_int n).

(** What a division gives: a finite number, [NaN], or an infinity. *)
Inductive number : Type :=
| Finite (q : Q)
| NaN
| Infinity (negative : bool).

(** [a / n] where [n] is the length of an array: [0 / 0] is [NaN], and
    another amount over 0 is the infinity of its sign. *)
Definition div_by_length (a : Q) (n : nat) : number :=
  match n with
  | O => if Qnum a =? 0 then NaN else Infinity (Qnum a <? 0)
  | S _ => Finite (a / inject_Z (Z.of_nat n))%Q
  end.

(** The value of a property of an object that the code uses as a map from
    names to sums: a number, or a string.  The string is what [+] gives
    when the name is first read as a method of [Object.prototype]: the
    text of the method followed by the numeral.  It is no numeral; its
    characters are not modelled. *)
Inductive amount : Type :=
| Num (q : Q)
| Text.

(** The own properties of an object created as [{}], in the order of
    their creation. *)
Definition Obj : Type := list (string * amount).

(** The names an object created as [{}] inherits from
    [Object.prototype]: eleven methods and the accessor [__proto__]. *)
Definition inherited_names : list string :=
  ["constructor"; "hasOwnProperty"; "isPrototypeOf"; "propertyIsEnumerable";
   "toLocaleString"; "toString"; "valueOf";
   "__defineGetter__"; "__defineSetter__"; "__lookupGetter__"; "__lookupSetter__";
   "__proto__"].

Definition inherited (k : string) : bool := existsb (String.eqb k) inherited_names.

(** The own property [k] of [o]. *)
Fixpoint own (k : string) (o : Obj) : option amount :=
  match o with
  | [] => None
  | (k', v) :: t => if String.eqb k' k then Some v else own k t
  end.

(** [o[k] = v] for a name that is an own property or a writable one of the
    prototype: the own property is given the value where it is, or is
    created after the others. *)
Fixpoint set (k : string) (v : amount) (o : Obj) : Obj :=
  match o with
  | [] => [(k, v)]
  | (k', v') :: t => if String.eqb k' k then (k', v) :: t else (k', v') :: set k v t
  end.

(** [o[k] = (o[k] || 0) + p] for a number [p].
    - An own number, or no property at all: the sum is a number.
    - An own string is not empty, so truthy, and the sum is a string.
    - A method of the prototype is truthy and the sum is a string, which
      becomes an own property.
    - [o.__proto__] reads the prototype, the sum is a string, and the
      setter of [__proto__] leaves the object as it is for a value that is
      no object: the name never becomes a property. *)
Definition accumulate (k : string) (p : Q) (o : Obj) : Obj :=
  match own k o with
  | Some (Num v) => set k (Num (or_lit truthy_num (Some v) 0 + p)%Q) o
  | Some Text => set k Text o
  | None =>
      if inherited k then
        if String.eqb k "__proto__" then o else set k Text o
      else set k (Num (0 + p)%Q) o
  end.

(** An array index: the numeral, as [toString] writes it, of an integer
    from 0 to 2^32 - 2. *)
Definition array_index (k : string) : option Z :=
  match read_digits dec_val 10 None k with
  | Some n => if String.eqb (int_toString n) k && (n <? 4294967295) then Some n else None
  | None => None
  end.

Fixpoint insert_index (e : Z * (string * amount)) (l : list (Z * (string * amount)))
    : list (Z * (string * amount)) :=
  match l with
  | [] => [e]
  | x :: t => if fst e <=? fst x then e :: l else x :: insert_index e t
  end.

(** The properties whose name is an array index, each with its index. *)
Fixpoint indexed (o : Obj) : list (Z * (string * amount)) :=
  match o with
  | [] => []
  | e :: t =>
      match array_index (fst e) with
      | Some n => (n, e) :: indexed t
      | None => indexed t
      end
  end.

(** [Object.entries(o)]: the properties whose name is an array index come
    first, by ascending index; the others follow in the order of their
    creation. *)
Definition entries (o : Obj) : list (string * amount) :=
  map snd (fold_right insert_index [] (indexed o))
  ++ filter (fun e => match array_index (fst e) with Some _ => false | None => true end) o.

(** [b - a] for two such values: a string that is no numeral counts as
    [NaN]. *)
Definition minus (b a : amount) : number :=
  match b, a with
  | Num x, Num y => Finite (x - y)%Q
  | _, _ => NaN
  end.

(** [v > 0], as [sort] asks of what its comparator returns; [NaN] is taken
    as 0. *)
Definition positive (v : number) : bool :=
  match v with
  | Finite q => 0 <? Qnum q
  | NaN => false
  | Infinity negative => negb negative
  end.

End Js.

(** ** Effects: state and exceptions *)

(** Outcome of a call: a value, or an exception with its message. *)
Inductive Result (A : Type) : Type :=
| Ok (a : A)
| Throw (msg : string).
Arguments Ok {A} a.
Arguments Throw {A} msg.

(** A computation over a state [S]: what the state was changed to before an
    exception stays changed. *)
Definition Eff (S A : Type) : Type := S -> Result A * S.

Definition ret {S A : Type} (a : A) : Eff S A := fun s => (Ok a, s).

Definition throw {S A : Type} (msg : string) : Eff S A := fun s => (Throw msg, s).

Definition bind {S A B : Type} (m : Eff S A) (k : A -> Eff S B) : Eff S B :=
  fun s =>
    match m s with
    | (Ok a, s') => k a s'
    | (Throw e, s') => (Throw e, s')
    end.

(** [try { m } catch (error) { h error }] *)
Definition try_catch {S A : Type} (m : Eff S A) (h : string -> Eff S A) : Eff S A :=
  fun s =>
    match m s with
    | (Ok a, s') => (Ok a, s')
    | (Throw e, s') => h e s'
    end.

(** [try { m } finally { f }] where [f] does not throw. *)
Definition finally {S A : Type} (m : Eff S A) (f : S -> S) : Eff S A :=
  fun s => let '(r, s') := m s in (r, f s').

Definition get {S : Type} : Eff S S := fun s => (Ok s, s).

Definition modify {S : Type} (f : S -> S) : Eff S unit := fun s => (Ok tt, f s).

Declare Scope eff_scope.
Delimit Scope eff_scope with eff.
Notation "x <- m ;; k" := (bind m (fun x => k))
  (at level 100, m at next level, right associativity) : eff_scope.
Notation "m ;;; k" := (bind m (fun _ => k))
  (at level 100, right associativity) : eff_scope.
Open Scope eff_scope.

(** ** Data model ([types/receipt.ts]) *)

(** [interface ReceiptItem] *)
Record ReceiptItem : Type := mkItem {
  i_id : string;
  i_name : string;
  i_quantity : Q;
  i_price : Q;
  i_category : option string
}.

(** An image reference as the adapter tells the cases apart:
    [undefined], [null], a string. *)
Inductive ImageRef : Type :=
| ImgUndefined
| ImgNull
| ImgUri (uri : string).

(** [interface Receipt], read from a JavaScript object: every property but
    [id] may be absent. *)
Record Receipt : Type := mkReceipt {
  id : string;
  merchantName : option string;
  date : option string;
  items : option (list ReceiptItem);
  totalAmount : option Q;
  taxAmount : option Q;
  imageUri : ImageRef;
  createdAt : option Z;
  updatedAt : option Z;
  store : option string;
  subtotal : option Q;
  tax : option Q;
  total : option Q;
  category : option string
}.

(** The [receiptData: any] payload of the adapter's writes: the properties
    the adapter reads. *)
Record ReceiptData : Type := mkData {
  d_merchantName : option string;
  d_date : option string;
  d_items : option (list ReceiptItem);
  d_totalAmount : option Q;
  d_total : option Q;
  d_taxAmount : option Q;
  d_tax : option Q;
  d_imageUri : ImageRef;
  d_category : option string
}.

(** A [Receipt] (or [Partial<Receipt>]) passed where the payload is expected. *)
Definition as_data (r : Receipt) : ReceiptData :=
  {| d_merchantName := merchantName r;
     d_date := date r;
     d_items := items r;
     d_totalAmount := totalAmount r;
     d_total := total r;
     d_taxAmount := taxAmount r;
     d_tax := tax r;
     d_imageUri := imageUri r;
     d_category := category r |}.

(** ** The two backends *)

Inductive Platform : Type := Web | Mobile.

(** The value under the AsyncStorage key ['receipts']: nothing, a string
    [JSON.parse] rejects, or the serialised array. *)
Inductive Blob : Type :=
| Absent
| Unparseable
| Stored (receipts : list Receipt).

(** A row of table [receipts]. *)
Record ReceiptRow : Type := mkRow {
  row_id : Z;
  merchant_name : string;
  row_date : string;
  total_amount : Q;
  tax_amount : Q;
  image_uri : option string;
  row_category : option string;
  created_at : Z;
  updated_at : Z
}.

(** A row of table [receipt_items]. *)
Record ItemRow : Type := mkItemRow {
  it_id : Z;
  receipt_id : Z;
  it_name : string;
  it_quantity : Q;
  it_price : Q;
  it_category : option string
}.

(** The SQLite file: both tables in rowid order and the AUTOINCREMENT
    counters. *)
Record SqlDb : Type := mkDb {
  receipts_tbl : list ReceiptRow;
  items_tbl : list ItemRow;
  next_receipt_id : Z;
  next_item_id : Z
}.

(** Everything outside the process memory of the store.
    [mobileDb] is the module's connection handle ([true]: open);
    [open_failures] counts how many of the next attempts to open the
    database fail; [now], [today] and [fresh_id] are what the clock and
    [(Date.now() + Math.random()).toString()] give at the next call. *)
Record World : Type := mkWorld {
  platform : Platform;
  asyncStorage : Blob;
  mobileDb : bool;
  open_failures : nat;
  sqlite : SqlDb;
  now : Z;
  today : string;
  fresh_id : string
}.

Definition set_asyncStorage (b : Blob) (w : World) : World :=
  mkWorld (platform w) b (mobileDb w) (open_failures w) (sqlite w)
          (now w) (today w) (fresh_id w).

Definition set_connection (h : bool) (n : nat) (w : World) : World :=
  mkWorld (platform w) (asyncStorage w) h n (sqlite w)
          (now w) (today w) (fresh_id w).

Definition set_sqlite (d : SqlDb) (w : World) : World :=
  mkWorld (platform w) (asyncStorage w) (mobileDb w) (open_failures w) d
          (now w) (today w) (fresh_id w).

(** The environment moves the clock and the random source between calls. *)
Definition advance (t : Z) (d i : string) (w : World) : World :=
  mkWorld (platform w) (asyncStorage w) (mobileDb w) (open_failures w)
          (sqlite w) t d i.

Definition is_web (w : World) : bool :=
  match platform w with Web => true | Mobile => false end.

(** ** Storage adapter ([services/database.ts]) *)

Module Database.

(** *** SQLite statements *)

(** Insertion of a row before the first row that is not newer: with
    [fold_right] a stable sort, newest first. *)
Fixpoint insert_desc (r : ReceiptRow) (l : list ReceiptRow) : list ReceiptRow :=
  match l with
  | [] => [r]
  | x :: t =>
      if created_at x <=? created_at r then r :: l else x :: insert_desc r t
  end.

(** [SELECT * FROM receipts ORDER BY created_at DESC] *)
Definition select_receipts_desc (d : SqlDb) : list ReceiptRow :=
  fold_right insert_desc [] (receipts_tbl d).

(** [SELECT * FROM receipts WHERE id = ?], first row.  A [NaN] parameter
    ([None]) equals no id. *)
Definition select_receipt (d : SqlDb) (p : option Z) : option ReceiptRow :=
  match p with
  | Some n => find (fun r => row_id r =? n) (receipts_tbl d)
  | None => None
  end.

(** [SELECT * FROM receipt_items WHERE receipt_id = ?] *)
Definition select_items (d : SqlDb) (rid : Z) : list ItemRow :=
  filter (fun i => receipt_id i =? rid) (items_tbl d).

(** [INSERT INTO receipts (merchant_name, date, total_amount, tax_amount,
    image_uri, category)]: the timestamps take [CURRENT_TIMESTAMP]; the
    result is [lastInsertRowId]. *)
Definition insert_receipt (t : Z) (m dt : string) (tot tx : Q)
    (img cat : option string) (d : SqlDb) : Z * SqlDb :=
  let n := next_receipt_id d in
  (n, mkDb (receipts_tbl d ++ [mkRow n m dt tot tx img cat t t])
           (items_tbl d) (n + 1) (next_item_id d)).

(** [INSERT INTO receipt_items (receipt_id, name, quantity, price, category)] *)
Definition insert_item (rid : Z) (nm : string) (qty pr : Q)
    (cat : option string) (d : SqlDb) : SqlDb :=
  let n := next_item_id d in
  mkDb (receipts_tbl d) (items_tbl d ++ [mkItemRow n rid nm qty pr cat])
       (next_receipt_id d) (n + 1).

(** [UPDATE receipts SET merchant_name = ?, date = ?, total_amount = ?,
    tax_amount = ?, image_uri = ?, category = ?,
    updated_at = CURRENT_TIMESTAMP WHERE id = ?] *)
Definition update_receipt (t : Z) (m dt : string) (tot tx : Q)
    (img cat : option string) (n : Z) (d : SqlDb) : SqlDb :=
  mkDb (map (fun r =>
               if row_id r =? n
               then mkRow (row_id r) m dt tot tx img cat (created_at r) t
               else r)
            (receipts_tbl d))
       (items_tbl d) (next_receipt_id d) (next_item_id d).

(** [DELETE FROM receipt_items WHERE receipt_id = ?] *)
Definition delete_items (rid : Z) (d : SqlDb) : SqlDb :=
  mkDb (receipts_tbl d)
       (filter (fun i => negb (receipt_id i =? rid)) (items_tbl d))
       (next_receipt_id d) (next_item_id d).

(** [DELETE FROM receipts WHERE id = ?]; with [PRAGMA foreign_keys = ON]
    the items of the receipt go with it ([ON DELETE CASCADE]). *)
Definition delete_receipt (n : Z) (d : SqlDb) : SqlDb :=
  mkDb (filter (fun r => negb (row_id r =? n)) (receipts_tbl d))
       (filter (fun i => negb (receipt_id i =? n)) (items_tbl d))
       (next_receipt_id d) (next_item_id d).

(** *** Connection *)

(** [initMobileDatabase]: opens the database when there is no handle; a
    failure leaves the handle [null].  Returns the handle. *)
Definition initMobileDatabase : Eff World bool :=
  fun w =>
    if negb (is_web w) && negb (mobileDb w) then
      match open_failures w with
      | O => (Ok true, set_connection true O w)
      | S n => (Ok false, set_connection false n w)
      end
    else (Ok (mobileDb w), w).

(** Runs [m] when the module holds no handle ([if (!mobileDb) ...]). *)
Definition when_closed (m : Eff World unit) : Eff World unit :=
  fun w => if mobileDb w then (Ok tt, w) else m w.

(** [ensureDatabaseConnection]: one attempt, one more after a delay, then
    an exception. *)
Definition ensureDatabaseConnection : Eff World unit :=
  fun w =>
    if is_web w then (Ok tt, w)
    else
      (when_closed (initMobileDatabase ;;; ret tt) ;;;
       when_closed (initMobileDatabase ;;; ret tt) ;;;
       when_closed (throw "Failed to establish database connection after retries")) w.

(** *** AsyncStorage *)

(** [const receiptsJson = await AsyncStorage.getItem('receipts');
     receiptsJson ? JSON.parse(receiptsJson) : []] *)
Definition read_receipts : Eff World (list Receipt) :=
  fun w =>
    match asyncStorage w with
    | Absent => (Ok [], w)
    | Unparseable => (Throw "SyntaxError: JSON Parse error", w)
    | Stored l => (Ok l, w)
    end.

(** [await AsyncStorage.setItem('receipts', JSON.stringify(receipts))] *)
Definition write_receipts (l : list Receipt) : Eff World unit :=
  modify (set_asyncStorage (Stored l)).

(** *** Rows to receipts *)

Definition item_of_row (i : ItemRow) : ReceiptItem :=
  {| i_id := Js.int_toString (it_id i);
     i_name := it_name i;
     i_quantity := it_quantity i;
     i_price := it_price i;
     i_category := it_category i |}.

Definition image_of_column (c : option string) : ImageRef :=
  match c with Some u => ImgUri u | None => ImgNull end.

Definition receipt_of_row (d : SqlDb) (r : ReceiptRow) : Receipt :=
  {| id := Js.int_toString (row_id r);
     merchantName := Some (merchant_name r);
     date := Some (row_date r);
     items := Some (map item_of_row (select_items d (row_id r)));
     totalAmount := Some (total_amount r);
     taxAmount := Some (tax_amount r);
     imageUri := image_of_column (image_uri r);
     createdAt := Some (created_at r);
     updatedAt := Some (updated_at r);
     store := None;
     subtotal := None;
     tax := None;
     total := None;
     category := row_category r |}.

(** *** Reads *)

(** The body of the [try] of [getAllReceiptsFromDatabase]. *)
Definition getAllReceipts_try : Eff World (list Receipt) :=
  fun w =>
    if is_web w then read_receipts w
    else
      (ensureDatabaseConnection ;;;
       db <- (fun w => (Ok (sqlite w), w)) ;;
       ret (map (receipt_of_row db) (select_receipts_desc db))) w.

(** [getAllReceiptsFromDatabase]: any exception becomes the empty list. *)
Definition getAllReceiptsFromDatabase : Eff World (list Receipt) :=
  try_catch getAllReceipts_try (fun _ => ret []).

(** The body of the [try] of [getReceiptById]. *)
Definition getReceiptById_try (rid : string) : Eff World (option Receipt) :=
  fun w =>
    if is_web w then
      (receipts <- read_receipts ;;
       ret (find (fun r => String.eqb (id r) rid) receipts)) w
    else
      (ensureDatabaseConnection ;;;
       db <- (fun w => (Ok (sqlite w), w)) ;;
       ret (option_map (receipt_of_row db) (select_receipt db (Js.parseInt rid)))) w.

(** [getReceiptById]: any exception becomes [null]. *)
Definition getReceiptById (rid : string) : Eff World (option Receipt) :=
  try_catch (getReceiptById_try rid) (fun _ => ret None).

(** *** Writes *)

(** [receiptData.imageUri || null] *)
Definition image_or_null (i : ImageRef) : ImageRef :=
  match i with
  | ImgUri u => if Js.truthy_str u then ImgUri u else ImgNull
  | _ => ImgNull
  end.

(** An image reference bound to a statement parameter. *)
Definition column_of_image (i : ImageRef) : option string :=
  match i with ImgUri u => Some u | _ => None end.

(** [items.forEach(item => db.runSync(INSERT INTO receipt_items ...,
    [receiptId, item.name || 'Unknown Item', item.quantity || 1,
     Number(item.price || 0), item.category || 'Other']))] *)
Definition insert_items (rid : Z) (l : list ReceiptItem) (d : SqlDb) : SqlDb :=
  fold_left
    (fun d item =>
       insert_item rid
         (Js.or_lit Js.truthy_str (Some (i_name item)) "Unknown Item")
         (Js.or_lit Js.truthy_num (Some (i_quantity item)) 1%Q)
         (Js.or_lit Js.truthy_num (Some (i_price item)) 0%Q)
         (Some (Js.or_lit Js.truthy_str (i_category item) "Other"))
         d)
    l d.

(** The body of the [try] of [saveReceiptToDatabase]. *)
Definition saveReceipt_try (receiptData : ReceiptData) : Eff World unit :=
  fun w =>
    let merchantName := Js.or_lit Js.truthy_str (d_merchantName receiptData) "Unknown Store" in
    let date := Js.or_lit Js.truthy_str (d_date receiptData) (today w) in
    let totalAmount :=
      Js.or_lit Js.truthy_num
        (Js.or Js.truthy_num (d_totalAmount receiptData) (d_total receiptData)) 0%Q in
    let taxAmount := Js.or_lit Js.truthy_num (d_taxAmount receiptData) 0%Q in
    let imageUri := image_or_null (d_imageUri receiptData) in
    let category := Js.or_lit Js.truthy_str (d_category receiptData) "Other" in
    let items := match d_items receiptData with Some l => l | None => [] end in
    if is_web w then
      (receipts <- read_receipts ;;
       let newReceipt :=
         {| id := fresh_id w;
            merchantName := Some merchantName;
            date := Some date;
            items := Some items;
            totalAmount := Some totalAmount;
            taxAmount := Some taxAmount;
            imageUri := imageUri;
            createdAt := Some (now w);
            updatedAt := Some (now w);
            store := None;
            subtotal := None;
            tax := None;
            total := None;
            category := Some category |} in
       write_receipts (receipts ++ [newReceipt])) w
    else
      (ensureDatabaseConnection ;;;
       modify (fun w =>
         let '(receiptId, db) :=
           insert_receipt (now w) merchantName date totalAmount taxAmount
             (column_of_image imageUri) (Some category) (sqlite w) in
         set_sqlite (insert_items receiptId items db) w)) w.

(** [saveReceiptToDatabase]: the [catch] logs and throws the error again. *)
Definition saveReceiptToDatabase (receiptData : ReceiptData) : Eff World unit :=
  try_catch (saveReceipt_try receiptData) (fun e => throw e).

(** Replacement of the element at the index [findIndex] gives. *)
Fixpoint replace_first (p : Receipt -> bool) (f : Receipt -> Receipt)
    (l : list Receipt) : option (list Receipt) :=
  match l with
  | [] => None
  | r :: t =>
      if p r then Some (f r :: t)
      else option_map (cons r) (replace_first p f t)
  end.

(** The body of the [try] of [updateReceiptInDatabase]. *)
Definition updateReceipt_try (rid : string) (receiptData : ReceiptData) : Eff World unit :=
  existing <- getReceiptById rid ;;
  match existing with
  | None => throw "Receipt not found"
  | Some existingReceipt =>
    fun w =>
    let merchantName :=
      Js.or_lit Js.truthy_str
        (Js.or Js.truthy_str (d_merchantName receiptData) (merchantName existingReceipt))
        "Unknown Store" in
    let date :=
      Js.or_lit Js.truthy_str
        (Js.or Js.truthy_str (d_date receiptData) (date existingReceipt)) (today w) in
    let totalAmount :=
      Js.or_lit Js.truthy_num
        (Js.or Js.truthy_num
           (Js.or Js.truthy_num (d_totalAmount receiptData) (d_total receiptData))
           (totalAmount existingReceipt)) 0%Q in
    let taxAmount :=
      Js.or_lit Js.truthy_num
        (Js.or Js.truthy_num
           (Js.or Js.truthy_num (d_taxAmount receiptData) (d_tax receiptData))
           (taxAmount existingReceipt)) 0%Q in
    let imageUri :=
      match d_imageUri receiptData with
      | ImgUndefined => imageUri existingReceipt
      | i => i
      end in
    let category :=
      Js.or_lit Js.truthy_str
        (Js.or Js.truthy_str (d_category receiptData) (category existingReceipt))
        "Other" in
    let items :=
      match d_items receiptData with
      | Some l => l
      | None => match items existingReceipt with Some l => l | None => [] end
      end in
    if is_web w then
      (receipts <- read_receipts ;;
       match
         replace_first (fun r => String.eqb (id r) rid)
           (fun old =>
              {| id := id old;
                 merchantName := Some merchantName;
                 date := Some date;
                 items := Some items;
                 totalAmount := Some totalAmount;
                 taxAmount := Some taxAmount;
                 imageUri := imageUri;
                 createdAt := createdAt old;
                 updatedAt := Some (now w);
                 store := store old;
                 subtotal := subtotal old;
                 tax := tax old;
                 total := total old;
                 category := Some category |})
           receipts
       with
       | Some receipts' => write_receipts receipts'
       | None => ret tt
       end) w
    else
      (ensureDatabaseConnection ;;;
       match Js.parseInt rid with
       | Some n =>
           modify (fun w =>
             set_sqlite
               (insert_items n items
                  (delete_items n
                     (update_receipt (now w) merchantName date totalAmount taxAmount
                        (column_of_image imageUri) (Some category) n (sqlite w))))
               w)
       | None =>
           (* no row has id NaN: the statements match nothing, and an item
              cannot be inserted for it *)
           match items with
           | [] => ret tt
           | _ :: _ => throw "NOT NULL constraint failed: receipt_items.receipt_id"
           end
       end) w
  end.

(** [updateReceiptInDatabase] *)
Definition updateReceiptInDatabase (rid : string) (receiptData : ReceiptData) : Eff World unit :=
  try_catch (updateReceipt_try rid receiptData) (fun e => throw e).

(** The body of the [try] of [deleteReceiptFromDatabase]. *)
Definition deleteReceipt_try (rid : string) : Eff World unit :=
  fun w =>
    if is_web w then
      (receipts <- read_receipts ;;
       write_receipts (filter (fun r => negb (String.eqb (id r) rid)) receipts)) w
    else
      (ensureDatabaseConnection ;;;
       modify (fun w =>
         match Js.parseInt rid with
         | Some n => set_sqlite (delete_receipt n (sqlite w)) w
         | None => w
         end)) w.

(** [deleteReceiptFromDatabase] *)
Definition deleteReceiptFromDatabase (rid : string) : Eff World unit :=
  try_catch (deleteReceipt_try rid) (fun e => throw e).

(** *** Insights aggregator *)

(** An entry of [topCategories]. *)
Record CategoryTotal : Type := mkCategoryTotal {
  ct_category : string;
  ct_total : Js.amount;
  ct_count : nat
}.

(** The object [getReceiptInsights] returns.  [categoryBreakdown] is the
    object the code uses as a map from categories to sums. *)
Record Insights : Type := mkInsights {
  totalSpending : Q;
  categoryBreakdown : Js.Obj;
  recentTransactions : list Receipt;
  totalReceipts : nat;
  averageSpending : Js.number;
  topCategories : list CategoryTotal;
  monthlySpending : list (string * Q)
}.

(** [item.category || 'Other'] *)
Definition item_category (item : ReceiptItem) : string :=
  Js.or_lit Js.truthy_str (i_category item) "Other".

(** [receipt.items], which the aggregator dereferences: an absent array is
    a [TypeError]. *)
Definition items_of (r : Receipt) : Result (list ReceiptItem) :=
  match items r with
  | Some l => Ok l
  | None => Throw "TypeError: undefined is not an object (evaluating 'receipt.items')"
  end.

(** The two nested [forEach] that fill [categoryBreakdown], each item by
    [categoryBreakdown[category] = (categoryBreakdown[category] || 0) + item.price]. *)
Fixpoint breakdown (receipts : list Receipt) (m : Js.Obj) : Result Js.Obj :=
  match receipts with
  | [] => Ok m
  | r :: t =>
      match items_of r with
      | Ok l =>
          breakdown t
            (fold_left (fun m item => Js.accumulate (item_category item) (i_price item) m) l m)
      | Throw e => Throw e
      end
  end.

(** [receipts.reduce((count, receipt) => count +
      receipt.items.filter(item => (item.category || 'Other') === category).length, 0)] *)
Fixpoint count_category (c : string) (receipts : list Receipt) (count : nat) : Result nat :=
  match receipts with
  | [] => Ok count
  | r :: t =>
      match items_of r with
      | Ok l =>
          count_category c t
            (count + length (filter (fun item => String.eqb (item_category item) c) l))%nat
      | Throw e => Throw e
      end
  end.

(** The [map] over [Object.entries(categoryBreakdown)]. *)
Fixpoint category_entries (receipts : list Receipt) (m : list (string * Js.amount))
    : Result (list CategoryTotal) :=
  match m with
  | [] => Ok []
  | (c, v) :: t =>
      match count_category c receipts O with
      | Ok n =>
          match category_entries receipts t with
          | Ok rest => Ok (mkCategoryTotal c v n :: rest)
          | Throw e => Throw e
          end
      | Throw e => Throw e
      end
  end.

(** The comparator [(a, b) => b.total - a.total]. *)
Definition by_total (a b : CategoryTotal) : Js.number :=
  Js.minus (ct_total b) (ct_total a).

(** [x], which came before the entries of [l], is put before the first of
    them that the comparator does not put before [x]. *)
Fixpoint insert_by_total (x : CategoryTotal) (l : list CategoryTotal) : list CategoryTotal :=
  match l with
  | [] => [x]
  | y :: t =>
      if Js.positive (by_total x y) then y :: insert_by_total x t else x :: l
  end.

(** [.sort((a, b) => b.total - a.total)]: the sort is stable, so with
    totals that are numbers the largest comes first and equal totals keep
    their order.  With a total that is a string the comparator gives [NaN]
    and the order is left to the engine; it is then the order of this
    insertion, of which no statement makes use. *)
Definition sort_by_total (l : list CategoryTotal) : list CategoryTotal :=
  fold_right insert_by_total [] l.

(** [receipts.slice(0, 5)] *)
Definition slice5 (l : list Receipt) : list Receipt := firstn 5 l.

(** [receipts.reduce((sum, receipt) => sum + (receipt.totalAmount || 0), 0)] *)
Definition sum_totalAmount (receipts : list Receipt) : Q :=
  fold_left (fun sum r => (sum + Js.or_lit Js.truthy_num (totalAmount r) 0)%Q) receipts 0%Q.

(** The computation of [getReceiptInsights] on the list it has read. *)
Definition compute_insights (receipts : list Receipt) : Result Insights :=
  let totalSpending := sum_totalAmount receipts in
  match breakdown receipts [] with
  | Ok categoryBreakdown =>
      match category_entries receipts (Js.entries categoryBreakdown) with
      | Ok entries =>
          Ok {| totalSpending := totalSpending;
                categoryBreakdown := categoryBreakdown;
                recentTransactions := slice5 receipts;
                totalReceipts := length receipts;
                averageSpending :=
                  if (0 <? length receipts)%nat
                  then Js.div_by_length totalSpending (length receipts)
                  else Js.Finite 0;
                topCategories := sort_by_total entries;
                monthlySpending := [] |}
      | Throw e => Throw e
      end
  | Throw e => Throw e
  end.

(** The object of the [catch] of [getReceiptInsights]. *)
Definition zero_insights : Insights :=
  {| totalSpending := 0%Q;
     categoryBreakdown := [];
     recentTransactions := [];
     totalReceipts := O;
     averageSpending := Js.Finite 0;
     topCategories := [];
     monthlySpending := [] |}.

(** [getReceiptInsights] *)
Definition getReceiptInsights : Eff World Insights :=
  try_catch
    (receipts <- getAllReceiptsFromDatabase ;;
     (fun w => (compute_insights receipts, w)))
    (fun _ => ret zero_insights).

(** *** The remaining calls of the adapter *)

(** [initDatabase]: on the web a read of the key, whose value is not
    looked at; on the phone one attempt to open the database, and an
    exception when there is no handle after it. *)
Definition initDatabase : Eff World unit :=
  try_catch
    (fun w =>
       if is_web w then (Ok tt, w)
       else
         (db <- initMobileDatabase ;;
          if db then ret tt else throw "Failed to initialize SQLite database") w)
    (fun e => throw e).

(** [getReceiptItems]: [receipt?.items || []] of
    [getReceiptById(receiptId.toString())], for an integer [receiptId]. *)
Definition getReceiptItems (receiptId : Z) : Eff World (list ReceiptItem) :=
  try_catch
    (receipt <- getReceiptById (Js.int_toString receiptId) ;;
     ret match receipt with
         | Some r => match items r with Some l => l | None => [] end
         | None => []
         end)
    (fun _ => ret []).

End Database.

(** ** Reconciling store ([store/receiptStore.ts]) *)

Module Store.

(** [interface ChatMessage] *)
Record ChatMessage : Type := mkChatMessage {
  m_id : string;
  m_text : string;
  m_isUser : bool;
  m_timestamp : string
}.

(** The state fields of [ReceiptState]. *)
Record State : Type := mkState {
  receipts : list Receipt;
  chatMessages : list ChatMessage;
  isLoading : bool;
  error : option string
}.

(** The initial state of the store. *)
Definition initial : State := mkState [] [] false None.

(** The store and what is outside of it. *)
Definition Sys : Type := (State * World)%type.

(** [set({ isLoading: true, error: null })] *)
Definition set_loading_no_error : Eff Sys unit :=
  modify (fun '(s, w) => (mkState (receipts s) (chatMessages s) true None, w)).

(** [set({ receipts })] *)
Definition set_receipts (l : list Receipt) : Eff Sys unit :=
  modify (fun '(s, w) => (mkState l (chatMessages s) (isLoading s) (error s), w)).

(** [set({ error: msg })] *)
Definition set_error (msg : string) : Eff Sys unit :=
  modify (fun '(s, w) => (mkState (receipts s) (chatMessages s) (isLoading s) (Some msg), w)).

(** [set({ isLoading: false })] *)
Definition clear_loading : Sys -> Sys :=
  fun '(s, w) => (mkState (receipts s) (chatMessages s) false (error s), w).

(** A call of the adapter from the store. *)
Definition call {A : Type} (m : Eff World A) : Eff Sys A :=
  fun '(s, w) => let '(r, w') := m w in (r, (s, w')).

(** [loadReceipts] *)
Definition loadReceipts : Eff Sys unit :=
  finally
    (try_catch
       (set_loading_no_error ;;;
        receipts <- call Database.getAllReceiptsFromDatabase ;;
        set_receipts receipts)
       (fun _ => set_error "Failed to load receipts"))
    clear_loading.

(** [receipt.items.reduce((sum, item) => sum + (item.price * item.quantity), 0)] *)
Definition items_total (l : list ReceiptItem) : Q :=
  fold_left (fun sum item => (sum + i_price item * i_quantity item)%Q) l 0%Q.

(** The [totalAmount] that [addReceipt] computes before the write. *)
Definition derived_total (receipt : Receipt) : option Q :=
  let totalAmount := Js.or Js.truthy_num (totalAmount receipt) (total receipt) in
  if negb (Js.truthy Js.truthy_num totalAmount) then
    match items receipt with
    | Some ((_ :: _) as l) => Some (items_total l)
    | _ => totalAmount
    end
  else totalAmount.

(** The object literal [addReceipt] passes to [saveReceiptToDatabase];
    [receipt.items.map] of an absent array is a [TypeError]. *)
Definition save_payload (receipt : Receipt) : Result ReceiptData :=
  match items receipt with
  | None => Throw "TypeError: undefined is not an object (evaluating 'receipt.items.map')"
  | Some l =>
      Ok {| d_merchantName :=
              Some (Js.or_lit Js.truthy_str
                      (Js.or Js.truthy_str (merchantName receipt) (store receipt))
                      "Unknown Store");
            d_date := date receipt;
            d_items :=
              Some (map (fun item =>
                           mkItem (i_id item) (i_name item) (i_quantity item) (i_price item)
                                  (Some (Js.or_lit Js.truthy_str (i_category item) "Other")))
                        l);
            d_totalAmount := Some (Js.or_lit Js.truthy_num (derived_total receipt) 0%Q);
            d_total := None;
            d_taxAmount :=
              Some (Js.or_lit Js.truthy_num
                      (Js.or Js.truthy_num (taxAmount receipt) (tax receipt)) 0%Q);
            d_tax := None;
            d_imageUri := imageUri receipt;
            d_category := None |}
  end.

(** [addReceipt] *)
Definition addReceipt (receipt : Receipt) : Eff Sys unit :=
  finally
    (try_catch
       (set_loading_no_error ;;;
        payload <- (fun s => (save_payload receipt, s)) ;;
        call (Database.saveReceiptToDatabase payload) ;;;
        loadReceipts)
       (fun e => set_error "Failed to save receipt" ;;; throw e))
    clear_loading.

(** [updateReceipt] *)
Definition updateReceipt (rid : string) (updatedReceipt : ReceiptData) : Eff Sys unit :=
  finally
    (try_catch
       (set_loading_no_error ;;;
        call (Database.updateReceiptInDatabase rid updatedReceipt) ;;;
        loadReceipts)
       (fun e => set_error "Failed to update receipt" ;;; throw e))
    clear_loading.

(** [deleteReceipt] *)
Definition deleteReceipt (rid : string) : Eff Sys unit :=
  finally
    (try_catch
       (set_loading_no_error ;;;
        call (Database.deleteReceiptFromDatabase rid) ;;;
        loadReceipts)
       (fun e => set_error "Failed to delete receipt" ;;; throw e))
    clear_loading.

(** [getReceiptById] of the store: [state.receipts.find(...)] *)
Definition getReceiptById (rid : string) (s : State) : option Receipt :=
  find (fun r => String.eqb (id r) rid) (receipts s).

(** [receipt.totalAmount || receipt.total || 0] *)
Definition effective_total (r : Receipt) : Q :=
  Js.or_lit Js.truthy_num (Js.or Js.truthy_num (totalAmount r) (total r)) 0%Q.

(** [getTotalSpending] *)
Definition getTotalSpending (s : State) : Q :=
  fold_left (fun total r => (total + effective_total r)%Q) (receipts s) 0%Q.

(** [getCategorySpending]: the object that the [reduce] fills, receipt by
    receipt, with [acc[category] = (acc[category] || 0) + amount]. *)
Definition getCategorySpending (s : State) : Js.Obj :=
  fold_left
    (fun acc r =>
       Js.accumulate (Js.or_lit Js.truthy_str (category r) "Other")
         (effective_total r) acc)
    (receipts s) [].

(** [initializeDatabase]: the [catch] records the error and does not throw
    it again. *)
Definition initializeDatabase : Eff Sys unit :=
  finally
    (try_catch
       (set_loading_no_error ;;;
        call Database.initDatabase ;;;
        loadReceipts)
       (fun _ => set_error "Failed to initialize database"))
    clear_loading.

End Store.

(** ** Extraction ([services/geminiVision.ts]) *)

Module Vision.

(** An item of [ExtractedReceiptData]. *)
Record ExtractedItem : Type := mkExtractedItem {
  e_name : string;
  e_price : Q;
  e_quantity : Q;
  e_category : string
}.

(** [interface ExtractedReceiptData] *)
Record ExtractedReceiptData : Type := mkExtracted {
  e_merchantName : string;
  e_date : string;
  e_totalAmount : Q;
  e_taxAmount : Q;
  e_items : list ExtractedItem
}.

(** An element of the [items] array of the parsed response, at the types
    the prompt asks for; each property may be missing or [null] ([None]). *)
Record RawItem : Type := mkRawItem {
  raw_name : option string;
  raw_price : option Q;
  raw_quantity : option Q;
  raw_category : option string
}.

(** The object [JSON.parse(cleanedResponse)] gives, at the types the prompt
    asks for; a property may be missing or [null], [items] may be no array
    ([None]) and may hold [null] elements. *)
Record RawExtraction : Type := mkRaw {
  raw_merchantName : option string;
  raw_date : option string;
  raw_totalAmount : option Q;
  raw_taxAmount : option Q;
  raw_items : option (list (option RawItem))
}.

(** What the request to the model came to: no answer (no API key, the
    image could not be read, the call failed), a text that [JSON.parse]
    turns into an object, or a text on which it throws. *)
Inductive Response : Type :=
| NoResponse
| Parsed (extractedData : RawExtraction)
| Unparsed (responseText : string).

(** [createFallbackReceiptData] *)
Definition createFallbackReceiptData (today : string) : ExtractedReceiptData :=
  {| e_merchantName := "Unknown Store";
     e_date := today;
     e_totalAmount := 0%Q;
     e_taxAmount := 0%Q;
     e_items := [mkExtractedItem "Item (please edit)" 0%Q 1%Q "other"] |}.

(** [item && item.name && item.name !== null && item.name.trim() !== ''] *)
Definition valid_item (item : option RawItem) : bool :=
  match item with
  | Some i =>
      match raw_name i with
      | Some n => Js.truthy_str n && negb (String.eqb (Js.trim n) "")
      | None => false
      end
  | None => false
  end.

(** The [map] after the [filter]. *)
Definition clean_item (item : option RawItem) : list ExtractedItem :=
  match item with
  | Some i =>
      match raw_name i with
      | Some n =>
          [ {| e_name := Js.trim n;
               e_price := Js.or_lit Js.truthy_num (raw_price i) 0%Q;
               e_quantity := Js.or_lit Js.truthy_num (raw_quantity i) 1%Q;
               e_category := Js.or_lit Js.truthy_str (raw_category i) "other" |} ]
      | None => []
      end
  | None => []
  end.

(** [extractedData.items.filter(...).map(...)] *)
Definition clean_items (l : list (option RawItem)) : list ExtractedItem :=
  flat_map clean_item (filter valid_item l).

(** The [try] around [JSON.parse], once the text is parsed. *)
Definition process_parsed (today : string) (extractedData : RawExtraction) : ExtractedReceiptData :=
  let merchantName := Js.or_lit Js.truthy_str (raw_merchantName extractedData) "Unknown Store" in
  let date := Js.or_lit Js.truthy_str (raw_date extractedData) today in
  let totalAmount := Js.or_lit Js.truthy_num (raw_totalAmount extractedData) 0%Q in
  let taxAmount := Js.or_lit Js.truthy_num (raw_taxAmount extractedData) 0%Q in
  let items := match raw_items extractedData with Some l => l | None => [] end in
  let items := clean_items items in
  let items :=
    match items with
    | [] => [mkExtractedItem "Purchase" totalAmount 1%Q "other"]
    | _ :: _ => items
    end in
  {| e_merchantName := merchantName;
     e_date := date;
     e_totalAmount := Js.or_lit Js.truthy_num (Some totalAmount) 0%Q;
     e_taxAmount := Js.or_lit Js.truthy_num (Some taxAmount) 0%Q;
     e_items := items |}.

(** State of the scan for [/\d+\.?\d*/g]: outside a match, or inside one
    with the digits read so far as a fraction [num / den]; [frac] tells
    that the point has been passed. *)
Inductive Scan : Type :=
| Outside
| Inside (num : Z) (den : positive) (frac : bool).

(** The matches of [/\d+\.?\d*/g] in [s], each read by [parseFloat]. *)
Fixpoint amounts (st : Scan) (s : string) : list Q :=
  match s with
  | EmptyString =>
      match st with
      | Outside => []
      | Inside n d _ => [n # d]
      end
  | String c r =>
      match st with
      | Outside =>
          if Js.is_digit c then amounts (Inside (Js.digit_val c) 1 false) r
          else amounts Outside r
      | Inside n d false =>
          if Js.is_digit c then amounts (Inside (n * 10 + Js.digit_val c) d false) r
          else if Ascii.eqb c "."%char then amounts (Inside n d true) r
          else (n # d) :: amounts Outside r
      | Inside n d true =>
          if Js.is_digit c then amounts (Inside (n * 10 + Js.digit_val c) (d * 10) true) r
          else (n # d) :: amounts Outside r
      end
  end.

(** [line.replace(/[^a-zA-Z0-9\s]/g, '').trim()] *)
Definition scrape_merchant (line : string) : string :=
  Js.trim (Js.keep_alnum_space O line).

(** [lines.find(line => line.toLowerCase().includes(word))] *)
Definition find_line (word : string) (lines : list string) : option string :=
  find (fun line => Js.includes word (Js.toLowerCase line)) lines.

(** The [catch] of a failed [JSON.parse]: the fallback record, with what
    can be read off the text. *)
Definition process_unparsed (today : string) (responseText : string) : ExtractedReceiptData :=
  let fallbackData := createFallbackReceiptData today in
  let lines := Js.split_lines responseText in
  let merchantName :=
    match find_line "merchant" lines with
    | Some merchantMatch =>
        let merchant := scrape_merchant merchantMatch in
        if Js.truthy_str merchant then merchant else e_merchantName fallbackData
    | None => e_merchantName fallbackData
    end in
  let totalAmount :=
    match find_line "total" lines with
    | Some totalMatch =>
        match rev (amounts Outside totalMatch) with
        | last :: _ => last
        | [] => e_totalAmount fallbackData
        end
    | None => e_totalAmount fallbackData
    end in
  {| e_merchantName := merchantName;
     e_date := e_date fallbackData;
     e_totalAmount := totalAmount;
     e_taxAmount := e_taxAmount fallbackData;
     e_items := e_items fallbackData |}.

(** [extractReceiptData]: it never throws. *)
Definition extractReceiptData (today : string) (resp : Response) : ExtractedReceiptData :=
  match resp with
  | NoResponse => createFallbackReceiptData today
  | Parsed extractedData => process_parsed today extractedData
  | Unparsed responseText => process_unparsed today responseText
  end.

End Vision.

(** ** The screens that write *)

(** What a handler shows when it is done. *)
Inductive Alert : Type :=
| AlertError (message : string)
| AlertInfo (title : string).

Module ScanScreen.

(** [extractedData.items.map((item, index) => ({ id: `${Date.now()}-${index}`, ... }))] *)
Fixpoint number_items (t : Z) (index : nat) (l : list Vision.ExtractedItem) : list ReceiptItem :=
  match l with
  | [] => []
  | item :: rest =>
      mkItem (Js.int_toString t ++ "-" ++ Js.int_toString (Z.of_nat index))
             (Vision.e_name item) (Vision.e_quantity item) (Vision.e_price item)
             (Some (Vision.e_category item))
      :: number_items t (S index) rest
  end.

(** [Math.max(0, x)] *)
Definition max0 (x : Q) : Q := if Qle_bool x 0 then 0%Q else x.

(** [processReceiptImage]: [extractReceiptData] does not throw, so this is
    the [try] of the source. *)
Definition processReceiptImage (w : World) (imageUri : string) (resp : Vision.Response) : Receipt :=
  let extractedData := Vision.extractReceiptData (today w) resp in
  {| id := Js.int_toString (now w);
     merchantName := Some (Vision.e_merchantName extractedData);
     date := Some (Vision.e_date extractedData);
     items := Some (number_items (now w) O (Vision.e_items extractedData));
     totalAmount := Some (Vision.e_totalAmount extractedData);
     taxAmount := Some (Vision.e_taxAmount extractedData);
     imageUri := ImgUri imageUri;
     createdAt := None;
     updatedAt := None;
     store := Some (Vision.e_merchantName extractedData);
     subtotal :=
       Some (max0 (Vision.e_totalAmount extractedData
                   - Js.or_lit Js.truthy_num (Some (Vision.e_taxAmount extractedData)) 0)%Q);
     tax := Some (Js.or_lit Js.truthy_num (Some (Vision.e_taxAmount extractedData)) 0%Q);
     total := Some (Vision.e_totalAmount extractedData);
     category := Some "Other" |}.

(** [handleImageProcessing]: the receipt of the image is added to the
    store; a failure is shown, not thrown. *)
Definition handleImageProcessing (imageUri : string) (resp : Vision.Response) : Eff Store.Sys Alert :=
  fun s =>
    let receiptData := processReceiptImage (snd s) imageUri resp in
    try_catch
      (Store.addReceipt receiptData ;;;
       ret (AlertInfo
              (match merchantName receiptData with
               | Some "Unknown Store" => "Receipt Captured!"
               | _ => "Receipt Processed!"
               end)))
      (fun _ => ret (AlertError "Failed to process the receipt. The image has been saved and you can add details manually."))
      s.

End ScanScreen.

Module EditScreen.

(** [item.name && item.name.trim() && item.price > 0] *)
Definition valid_item (item : ReceiptItem) : bool :=
  Js.truthy_str (i_name item) && Js.truthy_str (Js.trim (i_name item))
  && negb (Qle_bool (i_price item) 0).

(** [(receipt.merchantName || receipt.store || '').trim()] *)
Definition store_name (receipt : Receipt) : string :=
  Js.trim (Js.or_lit Js.truthy_str
             (Js.or Js.truthy_str (merchantName receipt) (store receipt)) "").

(** [{ ...receipt, items: validItems }] as the payload of the update. *)
Definition with_items (receipt : Receipt) (validItems : list ReceiptItem) : ReceiptData :=
  {| d_merchantName := merchantName receipt;
     d_date := date receipt;
     d_items := Some validItems;
     d_totalAmount := totalAmount receipt;
     d_total := total receipt;
     d_taxAmount := taxAmount receipt;
     d_tax := tax receipt;
     d_imageUri := imageUri receipt;
     d_category := category receipt |}.

(** [handleSave] on the receipt being edited.  The two checks come first
    and return before the store is called. *)
Definition handleSave (receipt : Receipt) : Eff Store.Sys Alert :=
  if negb (Js.truthy_str (store_name receipt)) then
    ret (AlertError "Please enter a store name")
  else
    match items receipt with
    | None => throw "TypeError: undefined is not an object (evaluating 'receipt.items.filter')"
    | Some l =>
        let validItems := filter valid_item l in
        match validItems with
        | [] => ret (AlertError "Please add at least one valid item")
        | _ :: _ =>
            try_catch
              (Store.updateReceipt (id receipt) (with_items receipt validItems) ;;;
               ret (AlertInfo "Success"))
              (fun _ => ret (AlertError "Failed to update receipt"))
        end
    end.

End EditScreen.

(** * Properties *)

(** ** What the statements are about *)

Module Model.

(** The adapter can reach its backend: the blob parses, or a handle is
    open or opens within the two attempts. *)
Definition available (w : World) : Prop :=
  match platform w with
  | Web => asyncStorage w <> Unparseable
  | Mobile => mobileDb w = true \/ (open_failures w <= 1)%nat
  end.

(** No call to [ensureDatabaseConnection] changes the world any more. *)
Definition settled (w : World) : Prop :=
  match platform w with
  | Web => True
  | Mobile => mobileDb w = true
  end.

(** Two worlds hold the same stored data. *)
Definition same_storage (w w' : World) : Prop :=
  asyncStorage w' = asyncStorage w /\ sqlite w' = sqlite w.

(** Nothing but the connection differs. *)
Definition same_but_connection (w w' : World) : Prop :=
  platform w' = platform w /\ asyncStorage w' = asyncStorage w /\
  sqlite w' = sqlite w /\ now w' = now w /\ today w' = today w /\
  fresh_id w' = fresh_id w.

(** AUTOINCREMENT and the foreign key: every id in use is below the
    counter of its table, and every item belongs to an id below the
    counter of [receipts]. *)
Definition wf_db (d : SqlDb) : Prop :=
  Forall (fun r => row_id r < next_receipt_id d) (receipts_tbl d) /\
  Forall (fun i => it_id i < next_item_id d /\ receipt_id i < next_receipt_id d)
         (items_tbl d).

(** The receipts in storage, in the order they were written. *)
Definition stored (w : World) : list Receipt :=
  match platform w with
  | Web =>
      match asyncStorage w with
      | Stored l => l
      | _ => []
      end
  | Mobile => map (Database.receipt_of_row (sqlite w)) (receipts_tbl (sqlite w))
  end.

(** [rid] names a record in storage. *)
Definition resolves (w : World) (rid : string) : Prop :=
  match platform w with
  | Web => exists l r, asyncStorage w = Stored l /\ In r l /\ id r = rid
  | Mobile =>
      exists n row, Js.parseInt rid = Some n /\
                    In row (receipts_tbl (sqlite w)) /\ row_id row = n
  end.

(** The list is ordered by creation time, most recent first: of two
    receipts the one placed earlier was not created before the other. *)
Definition newest_first (l : list Receipt) : Prop :=
  forall i j a b ta tb,
    (i < j)%nat -> nth_error l i = Some a -> nth_error l j = Some b ->
    createdAt a = Some ta -> createdAt b = Some tb -> tb <= ta.

(** Row [a] was not created before row [b]. *)
Definition newer_or_same (a b : ReceiptRow) : Prop := created_at b <= created_at a.

(** The rule for a pair of a current and a legacy name, in the words of the
    specification: the current value when there is a truthy one, else the
    legacy value when there is a truthy one, else the default. *)
Definition alias_rule {A : Type} (t : A -> bool) (current old : option A)
    (default result : A) : Prop :=
  (forall x, current = Some x -> t x = true -> result = x) /\
  (Js.truthy t current = false ->
   forall x, old = Some x -> t x = true -> result = x) /\
  (Js.truthy t current = false -> Js.truthy t old = false -> result = default).

(** The rows the [INSERT]s of a list of items add for receipt [rid], the
    first with id [first]. *)
Fixpoint item_rows (rid first : Z) (l : list ReceiptItem) : list ItemRow :=
  match l with
  | [] => []
  | item :: rest =>
      mkItemRow first rid
        (Js.or_lit Js.truthy_str (Some (i_name item)) "Unknown Item")
        (Js.or_lit Js.truthy_num (Some (i_quantity item)) 1%Q)
        (Js.or_lit Js.truthy_num (Some (i_price item)) 0%Q)
        (Some (Js.or_lit Js.truthy_str (i_category item) "Other"))
      :: item_rows rid (first + 1) rest
  end.

(** The responses for which the extraction has no item of its own and
    reads no total off a text: no answer at all; a parsed answer none of
    whose items passes the filter; an answer that does not parse and in
    whose text no total other than zero is found. *)
Definition no_item_no_scraped_total (today : string) (resp : Vision.Response) : Prop :=
  match resp with
  | Vision.NoResponse => True
  | Vision.Parsed raw =>
      Vision.clean_items
        (match Vision.raw_items raw with Some l => l | None => [] end) = []
  | Vision.Unparsed text =>
      Js.truthy_num (Vision.e_totalAmount (Vision.process_unparsed today text)) = false
  end.

(** What the foreign key, the cascade and the counters give: besides
    [wf_db], no two rows of a table share an id and every item belongs to
    a receipt that is there. *)
Definition integrity (d : SqlDb) : Prop :=
  wf_db d /\
  NoDup (map row_id (receipts_tbl d)) /\
  NoDup (map it_id (items_tbl d)) /\
  Forall (fun i => exists r, In r (receipts_tbl d) /\ row_id r = receipt_id i)
         (items_tbl d).

(** [rid] and [rid'] name the same record for the backend of [w]: the same
    string on the document backend, the same number after [parseInt] on
    the relational one. *)
Definition same_target (w : World) (rid rid' : string) : Prop :=
  match platform w with
  | Web => rid = rid'
  | Mobile => Js.parseInt rid = Js.parseInt rid'
  end.

(** The stored receipt [r] is the one [rid] names. *)
Definition addressed (w : World) (rid : string) (r : Receipt) : bool :=
  match platform w with
  | Web => String.eqb (id r) rid
  | Mobile =>
      match Js.parseInt rid, Js.parseInt (id r) with
      | Some n, Some m => n =? m
      | _, _ => false
      end
  end.

(** The items of all the receipts of a list. *)
Definition all_items (receipts : list Receipt) : list ReceiptItem :=
  flat_map (fun r => match items r with Some l => l | None => [] end) receipts.

(** No item of the receipts has for category a name that objects inherit
    from [Object.prototype]. *)
Definition ordinary_categories (receipts : list Receipt) : Prop :=
  Forall (fun item => Js.inherited (Database.item_category item) = false)
         (all_items receipts).

(** The total of an entry of [topCategories] is a number. *)
Definition numeric (e : Database.CategoryTotal) : Prop :=
  exists q, Database.ct_total e = Js.Num q.

(** An entry of [topCategories] does not come before one with a larger
    total; the totals of both are numbers. *)
Definition larger_or_same (a b : Database.CategoryTotal) : Prop :=
  exists x y,
    Database.ct_total a = Js.Num x /\ Database.ct_total b = Js.Num y /\ (y <= x)%Q.

(** What holds of an object filled by [Js.accumulate]: no name twice,
    never the name [__proto__], and a string exactly under the names of
    the methods of [Object.prototype]. *)
Definition accumulated (o : Js.Obj) : Prop :=
  NoDup (map fst o) /\
  forall k v, In (k, v) o ->
    k <> "__proto__" /\ (v = Js.Text <-> Js.inherited k = true).

(** The three mutating calls of the store. *)
Inductive Mutation : Type :=
| Add (receipt : Receipt)
| Update (rid : string) (updatedReceipt : ReceiptData)
| Delete (rid : string).

(** The call of the store for a mutation. *)
Definition run (m : Mutation) : Eff Store.Sys unit :=
  match m with
  | Add r => Store.addReceipt r
  | Update rid d => Store.updateReceipt rid d
  | Delete rid => Store.deleteReceipt rid
  end.

(** The call of the adapter that the mutation makes. *)
Definition backend_write (m : Mutation) : Eff World unit :=
  match m with
  | Add r =>
      match Store.save_payload r with
      | Ok payload => Database.saveReceiptToDatabase payload
      | Throw e => throw e
      end
  | Update rid d => Database.updateReceiptInDatabase rid d
  | Delete rid => Database.deleteReceiptFromDatabase rid
  end.

(** What the relational backend gives back for the items written with
    ids from [first] on: the defaults of the [INSERT] applied. *)
Fixpoint written_items (first : Z) (l : list ReceiptItem) : list ReceiptItem :=
  match l with
  | [] => []
  | item :: rest =>
      mkItem (Js.int_toString first)
             (Js.or_lit Js.truthy_str (Some (i_name item)) "Unknown Item")
             (Js.or_lit Js.truthy_num (Some (i_quantity item)) 1%Q)
             (Js.or_lit Js.truthy_num (Some (i_price item)) 0%Q)
             (Some (Js.or_lit Js.truthy_str (i_category item) "Other"))
      :: written_items (first + 1) rest
  end.

(** The record [saveReceiptToDatabase] writes on the document backend. *)
Definition web_record (w : World) (d : ReceiptData) : Receipt :=
  {| id := fresh_id w;
     merchantName := Some (Js.or_lit Js.truthy_str (d_merchantName d) "Unknown Store");
     date := Some (Js.or_lit Js.truthy_str (d_date d) (today w));
     items := Some (match d_items d with Some l => l | None => [] end);
     totalAmount :=
       Some (Js.or_lit Js.truthy_num (Js.or Js.truthy_num (d_totalAmount d) (d_total d)) 0%Q);
     taxAmount := Some (Js.or_lit Js.truthy_num (d_taxAmount d) 0%Q);
     imageUri := Database.image_or_null (d_imageUri d);
     createdAt := Some (now w);
     updatedAt := Some (now w);
     store := None;
     subtotal := None;
     tax := None;
     total := None;
     category := Some (Js.or_lit Js.truthy_str (d_category d) "Other") |}.

(** The tables after the two [INSERT] of [saveReceiptToDatabase]. *)
Definition mobile_saved (w : World) (d : ReceiptData) : SqlDb :=
  let '(receiptId, db) :=
    Database.insert_receipt (now w)
      (Js.or_lit Js.truthy_str (d_merchantName d) "Unknown Store")
      (Js.or_lit Js.truthy_str (d_date d) (today w))
      (Js.or_lit Js.truthy_num (Js.or Js.truthy_num (d_totalAmount d) (d_total d)) 0%Q)
      (Js.or_lit Js.truthy_num (d_taxAmount d) 0%Q)
      (Database.column_of_image (Database.image_or_null (d_imageUri d)))
      (Some (Js.or_lit Js.truthy_str (d_category d) "Other"))
      (sqlite w) in
  Database.insert_items receiptId (match d_items d with Some l => l | None => [] end) db.

(** The record a listing shows for a payload saved in world [w]. *)
Definition saved_record (w : World) (d : ReceiptData) : Receipt :=
  match platform w with
  | Web => web_record w d
  | Mobile =>
      {| id := Js.int_toString (next_receipt_id (sqlite w));
         merchantName := Some (Js.or_lit Js.truthy_str (d_merchantName d) "Unknown Store");
         date := Some (Js.or_lit Js.truthy_str (d_date d) (today w));
         items :=
           Some (written_items (next_item_id (sqlite w))
                   (match d_items d with Some l => l | None => [] end));
         totalAmount :=
           Some (Js.or_lit Js.truthy_num
                   (Js.or Js.truthy_num (d_totalAmount d) (d_total d)) 0%Q);
         taxAmount := Some (Js.or_lit Js.truthy_num (d_taxAmount d) 0%Q);
         imageUri :=
           Database.image_of_column
             (Database.column_of_image (Database.image_or_null (d_imageUri d)));
         createdAt := Some (now w);
         updatedAt := Some (now w);
         store := None;
         subtotal := None;
         tax := None;
         total := None;
         category := Some (Js.or_lit Js.truthy_str (d_category d) "Other") |}
  end.

(** The values [updateReceiptInDatabase] settles on, [e] being what
    [getReceiptById] gave and [d] the payload. *)
Definition upd_merchantName (e : Receipt) (d : ReceiptData) : string :=
  Js.or_lit Js.truthy_str
    (Js.or Js.truthy_str (d_merchantName d) (merchantName e)) "Unknown Store".

Definition upd_date (w : World) (e : Receipt) (d : ReceiptData) : string :=
  Js.or_lit Js.truthy_str (Js.or Js.truthy_str (d_date d) (date e)) (today w).

Definition upd_totalAmount (e : Receipt) (d : ReceiptData) : Q :=
  Js.or_lit Js.truthy_num
    (Js.or Js.truthy_num (Js.or Js.truthy_num (d_totalAmount d) (d_total d))
       (totalAmount e)) 0%Q.

Definition upd_taxAmount (e : Receipt) (d : ReceiptData) : Q :=
  Js.or_lit Js.truthy_num
    (Js.or Js.truthy_num (Js.or Js.truthy_num (d_taxAmount d) (d_tax d))
       (taxAmount e)) 0%Q.

Definition upd_imageUri (e : Receipt) (d : ReceiptData) : ImageRef :=
  match d_imageUri d with
  | ImgUndefined => imageUri e
  | i => i
  end.

Definition upd_category (e : Receipt) (d : ReceiptData) : string :=
  Js.or_lit Js.truthy_str (Js.or Js.truthy_str (d_category d) (category e)) "Other".

Definition upd_items (e : Receipt) (d : ReceiptData) : list ReceiptItem :=
  match d_items d with
  | Some l => l
  | None => match items e with Some l => l | None => [] end
  end.

(** The record [updateReceiptInDatabase] puts in the place of [old] on the
    document backend. *)
Definition web_updated (w : World) (e : Receipt) (d : ReceiptData) (old : Receipt) : Receipt :=
  {| id := id old;
     merchantName := Some (upd_merchantName e d);
     date := Some (upd_date w e d);
     items := Some (upd_items e d);
     totalAmount := Some (upd_totalAmount e d);
     taxAmount := Some (upd_taxAmount e d);
     imageUri := upd_imageUri e d;
     createdAt := createdAt old;
     updatedAt := Some (now w);
     store := store old;
     subtotal := subtotal old;
     tax := tax old;
     total := total old;
     category := Some (upd_category e d) |}.

(** The record [getReceiptById] gives after an update of the record it
    gave as [e] before: on the relational backend the items come back as
    written and the image as the column holds it. *)
Definition updated_record (w : World) (e : Receipt) (d : ReceiptData) : Receipt :=
  match platform w with
  | Web => web_updated w e d e
  | Mobile =>
      {| id := id e;
         merchantName := Some (upd_merchantName e d);
         date := Some (upd_date w e d);
         items := Some (written_items (next_item_id (sqlite w)) (upd_items e d));
         totalAmount := Some (upd_totalAmount e d);
         taxAmount := Some (upd_taxAmount e d);
         imageUri :=
           Database.image_of_column (Database.column_of_image (upd_imageUri e d));
         createdAt := createdAt e;
         updatedAt := Some (now w);
         store := None;
         subtotal := None;
         tax := None;
         total := None;
         category := Some (upd_category e d) |}
  end.

(** The tables after the three statements of [updateReceiptInDatabase]. *)
Definition mobile_updated (w : World) (e : Receipt) (d : ReceiptData) (n : Z) : SqlDb :=
  Database.insert_items n (upd_items e d)
    (Database.delete_items n
       (Database.update_receipt (now w) (upd_merchantName e d) (upd_date w e d)
          (upd_totalAmount e d) (upd_taxAmount e d)
          (Database.column_of_image (upd_imageUri e d))
          (Some (upd_category e d)) n (sqlite w))).

(** The message each call leaves in [error] when its write fails. *)
Definition failure_message (m : Mutation) : string :=
  match m with
  | Add _ => "Failed to save receipt"
  | Update _ _ => "Failed to update receipt"
  | Delete _ => "Failed to delete receipt"
  end.

End Model.

(** ** Concrete worlds and receipts *)

Module Examples.

Definition empty_db : SqlDb := mkDb [] [] 1 1.

(** A browser with nothing stored yet. *)
Definition web0 : World :=
  mkWorld Web Absent false O empty_db 1000 "2024-01-01" "1000.25".

(** A phone with an empty database whose first opening fails. *)
Definition mobile0 : World :=
  mkWorld Mobile Absent false 1 empty_db 1000 "2024-01-01" "1000.25".

Definition latte : ReceiptItem := mkItem "i1" "Latte" 1 4.5 None.

(** The draft of the end-to-end scenario: no total is given. *)
Definition cafe : Receipt :=
  {| id := "draft";
     merchantName := Some "Cafe X";
     date := Some "2024-01-01";
     items := Some [latte];
     totalAmount := None;
     taxAmount := None;
     imageUri := ImgUndefined;
     createdAt := None;
     updatedAt := None;
     store := None;
     subtotal := None;
     tax := None;
     total := None;
     category := None |}.

(** Two drafts saved one after the other, the clock moving in between. *)
Definition first_draft : ReceiptData :=
  mkData (Some "Bakery") (Some "2024-01-01") (Some [mkItem "a" "Bread" 1 3 None])
         (Some 3%Q) None None None ImgUndefined None.

Definition second_draft : ReceiptData :=
  mkData (Some "Kiosk") (Some "2024-01-02") (Some [mkItem "b" "Paper" 1 2 None])
         (Some 2%Q) None None None ImgUndefined None.

Definition after_two_saves (w : World) : World :=
  snd (Database.saveReceiptToDatabase second_draft
         (advance 2000 "2024-01-02" "2000.75"
            (snd (Database.saveReceiptToDatabase first_draft w)))).

(** A record of the old schema: only [store], [total] and [tax]. *)
Definition legacy : Receipt :=
  {| id := "7";
     merchantName := None;
     date := Some "2023-05-01";
     items := Some [mkItem "j" "Milk" 1 11 None];
     totalAmount := None;
     taxAmount := None;
     imageUri := ImgUndefined;
     createdAt := None;
     updatedAt := None;
     store := Some "Corner Shop";
     subtotal := Some 11%Q;
     tax := Some 1%Q;
     total := Some 12%Q;
     category := None |}.

(** A browser whose blob holds that record. *)
Definition legacy_web : World :=
  mkWorld Web (Stored [legacy]) false O empty_db 1000 "2024-01-01" "1000.25".

(** A draft with an empty merchant name and no item. *)
Definition blank : Receipt :=
  {| id := "draft";
     merchantName := Some "";
     date := Some "2024-01-01";
     items := Some [];
     totalAmount := None;
     taxAmount := None;
     imageUri := ImgUndefined;
     createdAt := None;
     updatedAt := None;
     store := None;
     subtotal := None;
     tax := None;
     total := None;
     category := None |}.

(** A receipt under edit whose only item has lost its name. *)
Definition unnamed_item : Receipt :=
  {| id := "7";
     merchantName := Some "Corner Shop";
     date := Some "2023-05-01";
     items := Some [mkItem "j" "  " 1 11 None];
     totalAmount := Some 12%Q;
     taxAmount := Some 1%Q;
     imageUri := ImgUndefined;
     createdAt := None;
     updatedAt := None;
     store := None;
     subtotal := None;
     tax := None;
     total := None;
     category := None |}.

(** An answer that is no JSON but names a total. *)
Definition scraped : Vision.Response := Vision.Unparsed "total 12".

(** A parsed answer with a total and an item without a name. *)
Definition nameless : Vision.Response :=
  Vision.Parsed
    (Vision.mkRaw (Some "Cafe X") (Some "2024-01-01") (Some 7.5%Q) None
       (Some [Some (Vision.mkRawItem (Some " ") (Some 7.5%Q) None None); None])).

(** The phone after the draft of the scenario has been saved: receipt "1"
    with item "1". *)
Definition mobile1 : World :=
  snd (snd (Store.addReceipt cafe (Store.initial, mobile0))).

(** A new item list for it: one item, without a category. *)
Definition tea : list ReceiptItem := [mkItem "x" "Tea" 2 3 None].

Definition only_items (l : list ReceiptItem) : ReceiptData :=
  mkData None None (Some l) None None None None ImgUndefined None.

(** The draft of the derived total: two items, no total under either name. *)
Definition two_items : list ReceiptItem :=
  [mkItem "a" "Beans" 2 10 None; mkItem "b" "Rice" 1 5 None].

Definition untotalled : Receipt :=
  {| id := "draft";
     merchantName := Some "Market";
     date := Some "2024-02-02";
     items := Some two_items;
     totalAmount := None;
     taxAmount := None;
     imageUri := ImgUndefined;
     createdAt := None;
     updatedAt := None;
     store := None;
     subtotal := None;
     tax := None;
     total := None;
     category := None |}.

(** A browser whose blob does not parse, and a store that has a receipt
    in memory. *)
Definition corrupt_web : World :=
  mkWorld Web Unparseable false O empty_db 1000 "2024-01-01" "1000.25".

Definition loaded : Store.State := Store.mkState [legacy] [] false None.

(** A phone whose database holds a receipt but opens at the third
    attempt only. *)
Definition unreachable : World :=
  set_connection false 2 mobile1.

(** The no-break space U+00A0, in UTF-8. *)
Definition nbsp : string :=
  String (ascii_of_nat 194) (String (ascii_of_nat 160) EmptyString).

(** The items of a receipt under edit: two valid ones, one whose name is
    a space and a no-break space, and one with price 0. *)
Definition edited_items : list ReceiptItem :=
  [mkItem "j" "Milk" 1 11 None; mkItem "x" (" " ++ nbsp) 1 4 None;
   mkItem "k" "Eggs" 2 3 None; mkItem "y" "Bag" 1 0 None].

(** The stored record of the old schema under edit, with these items. *)
Definition two_valid_one_not : Receipt :=
  {| id := "7";
     merchantName := None;
     date := Some "2023-05-01";
     items := Some edited_items;
     totalAmount := None;
     taxAmount := None;
     imageUri := ImgUndefined;
     createdAt := None;
     updatedAt := None;
     store := Some "Corner Shop";
     subtotal := Some 11%Q;
     tax := Some 1%Q;
     total := Some 12%Q;
     category := None |}.

(** A receipt whose items are filed under the name of a method of every
    object, under an ordinary category and under [__proto__]. *)
Definition builtin_names : Receipt :=
  {| id := "9";
     merchantName := Some "Stationer";
     date := Some "2024-03-03";
     items := Some [mkItem "a" "Pen" 1 2 (Some "toString");
                    mkItem "b" "Soup" 1 3 (Some "Food");
                    mkItem "c" "Cup" 1 4 (Some "__proto__")];
     totalAmount := Some 9%Q;
     taxAmount := None;
     imageUri := ImgUndefined;
     createdAt := None;
     updatedAt := None;
     store := None;
     subtotal := None;
     tax := None;
     total := None;
     category := None |}.

End Examples.

(** ** The connection *)

Section Connection.

Import Database Model.

Lemma ensure_settled (w : World) :
  settled w -> ensureDatabaseConnection w = (Ok tt, w).
Proof.
  destruct w as [p b h n d t td i]; unfold settled; simpl.
  destruct p; intros H; [reflexivity|]. subst h. reflexivity.
Qed.

Lemma ensure_frame (w : World) :
  same_but_connection w (snd (ensureDatabaseConnection w)).
Proof.
  destruct w as [p b h n d t td i].
  destruct p; [|destruct h; [|destruct n as [|[|n]]]];
    repeat split; reflexivity.
Qed.

Lemma ensure_ok (w w' : World) :
  ensureDatabaseConnection w = (Ok tt, w') ->
  settled w' /\ same_but_connection w w'.
Proof.
  intros H. split.
  - destruct w as [p b h n d t td i].
    destruct p; [|destruct h; [|destruct n as [|[|n]]]];
      inversion H; subst; reflexivity.
  - pose proof (ensure_frame w) as F. rewrite H in F. exact F.
Qed.

Lemma ensure_available (w : World) :
  platform w = Mobile -> available w ->
  exists w', ensureDatabaseConnection w = (Ok tt, w').
Proof.
  destruct w as [p b h n d t td i]; unfold available; simpl.
  intros -> [H | H].
  - subst h. eexists; reflexivity.
  - destruct h; [eexists; reflexivity|].
    destruct n as [|[|n]]; [eexists; reflexivity ..|lia].
Qed.

Lemma settled_frame (w w' : World) :
  platform w' = platform w -> mobileDb w' = mobileDb w ->
  settled w -> settled w'.
Proof. unfold settled. intros -> ->. trivial. Qed.

End Connection.

(** ** Equations of the adapter, backend by backend *)

Section AdapterEquations.

Import Database Model.

Lemma is_web_Web (w : World) : platform w = Web -> is_web w = true.
Proof. unfold is_web. intros ->. reflexivity. Qed.

Lemma is_web_Mobile (w : World) : platform w = Mobile -> is_web w = false.
Proof. unfold is_web. intros ->. reflexivity. Qed.

Lemma getAll_web (w : World) :
  platform w = Web ->
  getAllReceiptsFromDatabase w =
  (Ok match asyncStorage w with Stored l => l | _ => [] end, w).
Proof.
  intros P. unfold getAllReceiptsFromDatabase, try_catch, getAllReceipts_try.
  rewrite (is_web_Web _ P). unfold read_receipts.
  destruct (asyncStorage w); reflexivity.
Qed.

Lemma getAll_mobile (w : World) :
  platform w = Mobile ->
  getAllReceiptsFromDatabase w =
  match ensureDatabaseConnection w with
  | (Ok _, w1) =>
      (Ok (map (receipt_of_row (sqlite w1)) (select_receipts_desc (sqlite w1))), w1)
  | (Throw _, w1) => (Ok [], w1)
  end.
Proof.
  intros P. unfold getAllReceiptsFromDatabase, try_catch, getAllReceipts_try.
  rewrite (is_web_Mobile _ P). unfold bind.
  destruct (ensureDatabaseConnection w) as [[[]|e] w1]; reflexivity.
Qed.

Lemma getById_web (rid : string) (w : World) :
  platform w = Web ->
  getReceiptById rid w =
  (Ok match asyncStorage w with
      | Stored l => find (fun r => String.eqb (id r) rid) l
      | _ => None
      end, w).
Proof.
  intros P. unfold getReceiptById, try_catch, getReceiptById_try.
  rewrite (is_web_Web _ P). unfold bind, read_receipts.
  destruct (asyncStorage w); reflexivity.
Qed.

Lemma getById_mobile (rid : string) (w : World) :
  platform w = Mobile ->
  getReceiptById rid w =
  match ensureDatabaseConnection w with
  | (Ok _, w1) =>
      (Ok (option_map (receipt_of_row (sqlite w1))
             (select_receipt (sqlite w1) (Js.parseInt rid))), w1)
  | (Throw _, w1) => (Ok None, w1)
  end.
Proof.
  intros P. unfold getReceiptById, try_catch, getReceiptById_try.
  rewrite (is_web_Mobile _ P). unfold bind.
  destruct (ensureDatabaseConnection w) as [[[]|e] w1]; reflexivity.
Qed.

(** The [catch] that throws the error again changes nothing. *)
Lemma rethrow_id {S A : Type} (m : Eff S A) (s : S) :
  try_catch m (fun e => throw e) s = m s.
Proof. unfold try_catch, throw. destruct (m s) as [[a|e] s']; reflexivity. Qed.

Lemma save_web (d : ReceiptData) (w : World) :
  platform w = Web ->
  saveReceiptToDatabase d w =
  match asyncStorage w with
  | Unparseable => (Throw "SyntaxError: JSON Parse error", w)
  | Absent => (Ok tt, set_asyncStorage (Stored [web_record w d]) w)
  | Stored l => (Ok tt, set_asyncStorage (Stored (l ++ [web_record w d])) w)
  end.
Proof.
  intros P. unfold saveReceiptToDatabase. rewrite rethrow_id.
  unfold saveReceipt_try. rewrite (is_web_Web _ P).
  unfold bind, read_receipts, write_receipts, modify.
  destruct (asyncStorage w); reflexivity.
Qed.

Lemma save_mobile (d : ReceiptData) (w : World) :
  platform w = Mobile ->
  saveReceiptToDatabase d w =
  match ensureDatabaseConnection w with
  | (Ok _, w1) => (Ok tt, set_sqlite (mobile_saved w1 d) w1)
  | (Throw e, w1) => (Throw e, w1)
  end.
Proof.
  intros P. unfold saveReceiptToDatabase. rewrite rethrow_id.
  unfold saveReceipt_try. rewrite (is_web_Mobile _ P). unfold bind.
  pose proof (ensure_frame w) as F.
  destruct (ensureDatabaseConnection w) as [[[]|e] w1]; [|reflexivity].
  destruct F as (_ & _ & _ & _ & Ht & _). simpl in Ht.
  unfold modify, mobile_saved. rewrite Ht.
  destruct (insert_receipt _ _ _ _ _ _ _ _). reflexivity.
Qed.

Lemma delete_web (rid : string) (w : World) :
  platform w = Web ->
  deleteReceiptFromDatabase rid w =
  match asyncStorage w with
  | Unparseable => (Throw "SyntaxError: JSON Parse error", w)
  | Absent => (Ok tt, set_asyncStorage (Stored []) w)
  | Stored l =>
      (Ok tt, set_asyncStorage
                (Stored (filter (fun r => negb (String.eqb (id r) rid)) l)) w)
  end.
Proof.
  intros P. unfold deleteReceiptFromDatabase. rewrite rethrow_id.
  unfold deleteReceipt_try. rewrite (is_web_Web _ P).
  unfold bind, read_receipts, write_receipts, modify.
  destruct (asyncStorage w); reflexivity.
Qed.

Lemma delete_mobile (rid : string) (w : World) :
  platform w = Mobile ->
  deleteReceiptFromDatabase rid w =
  match ensureDatabaseConnection w with
  | (Ok _, w1) =>
      (Ok tt, match Js.parseInt rid with
              | Some n => set_sqlite (delete_receipt n (sqlite w1)) w1
              | None => w1
              end)
  | (Throw e, w1) => (Throw e, w1)
  end.
Proof.
  intros P. unfold deleteReceiptFromDatabase. rewrite rethrow_id.
  unfold deleteReceipt_try. rewrite (is_web_Mobile _ P). unfold bind.
  destruct (ensureDatabaseConnection w) as [[[]|e] w1]; reflexivity.
Qed.

End AdapterEquations.

Section UpdateEquations.

Import Database Model.

Lemma replace_first_find (p : Receipt -> bool) (f : Receipt -> Receipt) (l : list Receipt) :
  find p l <> None -> exists l', replace_first p f l = Some l'.
Proof.
  induction l as [|r t IH]; simpl; [congruence|].
  destruct (p r); [eexists; reflexivity|].
  intros H. destruct (IH H) as [l' ->]. eexists; reflexivity.
Qed.

Lemma update_web (rid : string) (d : ReceiptData) (w : World) :
  platform w = Web ->
  updateReceiptInDatabase rid d w =
  match asyncStorage w with
  | Stored l =>
      match find (fun r => String.eqb (id r) rid) l with
      | Some e =>
          match replace_first (fun r => String.eqb (id r) rid) (web_updated w e d) l with
          | Some l' => (Ok tt, set_asyncStorage (Stored l') w)
          | None => (Ok tt, w)
          end
      | None => (Throw "Receipt not found", w)
      end
  | _ => (Throw "Receipt not found", w)
  end.
Proof.
  intros P. unfold updateReceiptInDatabase. rewrite rethrow_id.
  unfold updateReceipt_try, bind. rewrite (getById_web _ _ P).
  destruct (asyncStorage w) as [| |l] eqn:B; try reflexivity.
  destruct (find _ l) as [e|]; [|reflexivity].
  rewrite (is_web_Web _ P). unfold bind, read_receipts. rewrite B.
  unfold web_updated, upd_merchantName, upd_date, upd_totalAmount,
    upd_taxAmount, upd_imageUri, upd_category, upd_items.
  destruct (replace_first _ _ l); reflexivity.
Qed.

Lemma update_mobile (rid : string) (d : ReceiptData) (w : World) :
  platform w = Mobile ->
  updateReceiptInDatabase rid d w =
  match ensureDatabaseConnection w with
  | (Ok _, w1) =>
      match Js.parseInt rid with
      | Some n =>
          match find (fun r => row_id r =? n) (receipts_tbl (sqlite w1)) with
          | Some row =>
              (Ok tt, set_sqlite
                        (mobile_updated w1 (receipt_of_row (sqlite w1) row) d n) w1)
          | None => (Throw "Receipt not found", w1)
          end
      | None => (Throw "Receipt not found", w1)
      end
  | (Throw _, w1) => (Throw "Receipt not found", w1)
  end.
Proof.
  intros P. unfold updateReceiptInDatabase. rewrite rethrow_id.
  unfold updateReceipt_try, bind at 1. rewrite (getById_mobile _ _ P).
  destruct (ensureDatabaseConnection w) as [[[]|e] w1] eqn:E; [|reflexivity].
  destruct (ensure_ok _ _ E) as [S1 F1].
  assert (P1 : platform w1 = Mobile) by (destruct F1 as [-> _]; exact P).
  unfold select_receipt.
  destruct (Js.parseInt rid) as [n|] eqn:PI; [|reflexivity].
  destruct (find _ (receipts_tbl (sqlite w1))) as [row|]; [|reflexivity].
  cbn [option_map]. cbv beta iota.
  rewrite (is_web_Mobile _ P1). unfold bind.
  rewrite (ensure_settled _ S1). reflexivity.
Qed.

End UpdateEquations.

(** ** The store: every call is the adapter's write, then a reload *)

Section StoreEquations.

Import Database Store Model.

(** The reads give a value whatever the backend does. *)
Lemma getAll_total (w : World) :
  exists l w', getAllReceiptsFromDatabase w = (Ok l, w').
Proof.
  unfold getAllReceiptsFromDatabase, try_catch, ret.
  destruct (getAllReceipts_try w) as [[l|e] w']; eauto.
Qed.

Lemma getById_total (rid : string) (w : World) :
  exists r w', Database.getReceiptById rid w = (Ok r, w').
Proof.
  unfold Database.getReceiptById, try_catch, ret.
  destruct (getReceiptById_try rid w) as [[l|e] w']; eauto.
Qed.

(** On a settled world a listing changes nothing. *)
Lemma getAll_settled (w : World) :
  settled w -> snd (getAllReceiptsFromDatabase w) = w.
Proof.
  intros S. destruct (platform w) eqn:P.
  - rewrite (getAll_web _ P). reflexivity.
  - rewrite (getAll_mobile _ P), (ensure_settled _ S). reflexivity.
Qed.

Lemma loadReceipts_eq (s : State) (w : World) (l : list Receipt) (w' : World) :
  getAllReceiptsFromDatabase w = (Ok l, w') ->
  loadReceipts (s, w) = (Ok tt, (mkState l (chatMessages s) false None, w')).
Proof.
  intros H. unfold loadReceipts, finally, try_catch, bind, set_loading_no_error,
    modify, call, set_receipts. rewrite H. reflexivity.
Qed.

Lemma run_eq (m : Mutation) (s : State) (w : World) :
  run m (s, w) =
  match backend_write m w with
  | (Ok _, w1) =>
      match getAllReceiptsFromDatabase w1 with
      | (Ok l, w2) => (Ok tt, (mkState l (chatMessages s) false None, w2))
      | (Throw e, w2) => (Throw e, (s, w2))
      end
  | (Throw e, w1) =>
      (Throw e, (mkState (receipts s) (chatMessages s) false
                   (Some (failure_message m)), w1))
  end.
Proof.
  destruct m as [r|rid d|rid]; simpl run; simpl backend_write; simpl failure_message.
  - unfold addReceipt, finally, try_catch, bind at 1 2, set_loading_no_error, modify.
    destruct (save_payload r) as [p|e]; [|reflexivity].
    unfold bind, call.
    destruct (saveReceiptToDatabase p w) as [[[]|e] w1]; [|reflexivity].
    destruct (getAll_total w1) as (l & w2 & G). rewrite G.
    rewrite (loadReceipts_eq _ _ _ _ G). reflexivity.
  - unfold updateReceipt, finally, try_catch, bind, set_loading_no_error, modify, call.
    destruct (updateReceiptInDatabase rid d w) as [[[]|e] w1]; [|reflexivity].
    destruct (getAll_total w1) as (l & w2 & G). rewrite G.
    rewrite (loadReceipts_eq _ _ _ _ G). reflexivity.
  - unfold deleteReceipt, finally, try_catch, bind, set_loading_no_error, modify, call.
    destruct (deleteReceiptFromDatabase rid w) as [[[]|e] w1]; [|reflexivity].
    destruct (getAll_total w1) as (l & w2 & G). rewrite G.
    rewrite (loadReceipts_eq _ _ _ _ G). reflexivity.
Qed.

(** A write that succeeds leaves the connection open. *)
Lemma write_settles (m : Mutation) (w w' : World) :
  backend_write m w = (Ok tt, w') -> settled w'.
Proof.
  assert (K : forall w1 x, settled w1 -> settled (set_sqlite x w1)).
  { intros w1 x. apply settled_frame; reflexivity. }
  assert (KW : forall w1 b, platform w1 = Web -> settled (set_asyncStorage b w1)).
  { intros w1 b E. unfold settled. simpl. rewrite E. exact I. }
  assert (W0 : platform w = Web -> settled w).
  { intros E. unfold settled. rewrite E. exact I. }
  destruct (platform w) eqn:P.
  - destruct m as [r|rid d|rid]; simpl.
    + destruct (save_payload r) as [p|e]; [|discriminate].
      rewrite (save_web _ _ P).
      destruct (asyncStorage w); inversion 1; subst; auto.
    + rewrite (update_web _ _ _ P).
      destruct (asyncStorage w) as [| |l]; try discriminate.
      destruct (find _ l) as [e|]; [|discriminate].
      destruct (replace_first _ _ l); inversion 1; subst; auto.
    + rewrite (delete_web _ _ P).
      destruct (asyncStorage w); inversion 1; subst; auto.
  - destruct m as [r|rid d|rid]; simpl.
    + destruct (save_payload r) as [p|e]; [|discriminate].
      rewrite (save_mobile _ _ P).
      destruct (ensureDatabaseConnection w) as [[[]|e] w1] eqn:E; [|discriminate].
      inversion 1; subst. apply K, (ensure_ok _ _ E).
    + rewrite (update_mobile _ _ _ P).
      destruct (ensureDatabaseConnection w) as [[[]|e] w1] eqn:E; [|discriminate].
      destruct (Js.parseInt rid); [|discriminate].
      destruct (find _ _); [|discriminate].
      inversion 1; subst. apply K, (ensure_ok _ _ E).
    + rewrite (delete_mobile _ _ P).
      destruct (ensureDatabaseConnection w) as [[[]|e] w1] eqn:E; [|discriminate].
      inversion 1; subst.
      destruct (Js.parseInt rid); [apply K|]; apply (ensure_ok _ _ E).
Qed.

End StoreEquations.

(** ** C1: write, then full reload *)

Section Reload.

Import Database Store Model.

(** C1.  When [addReceipt], [updateReceipt] or [deleteReceipt] resolves,
    the adapter's write has been made and the list of the store is the
    list a reload gave after it, which is also what a fresh
    [getAllReceiptsFromDatabase] gives in the world the call leaves: the
    list held before the call plays no part. *)
Theorem mutation_reloads (m : Mutation) (s s' : State) (w w' : World) :
  run m (s, w) = (Ok tt, (s', w')) ->
  backend_write m w = (Ok tt, w') /\
  getAllReceiptsFromDatabase w' = (Ok (receipts s'), w') /\
  chatMessages s' = chatMessages s /\ isLoading s' = false /\ error s' = None.
Proof.
  rewrite run_eq.
  destruct (backend_write m w) as [[[]|e] w1] eqn:B; [|discriminate].
  pose proof (getAll_settled _ (write_settles _ _ _ B)) as G.
  destruct (getAllReceiptsFromDatabase w1) as [[l|e] w2] eqn:R; [|discriminate].
  simpl in G. subst w2. inversion 1; subst. simpl. auto.
Qed.

Lemma mutation_reloads_witness :
  getAllReceiptsFromDatabase
    (snd (snd (run (Add Examples.cafe) (initial, Examples.mobile0)))) =
  (Ok (receipts (fst (snd (run (Add Examples.cafe) (initial, Examples.mobile0))))),
   snd (snd (run (Add Examples.cafe) (initial, Examples.mobile0)))).
Proof.
  exact (proj1 (proj2 (mutation_reloads (Add Examples.cafe) initial _
                         Examples.mobile0 _ eq_refl))).
Defined.

End Reload.

(** ** C2: the order of the listing *)

Section ListingOrder.

Import Database Model.

Lemma insert_desc_Forall (P : ReceiptRow -> Prop) (r : ReceiptRow) (l : list ReceiptRow) :
  P r -> Forall P l -> Forall P (insert_desc r l).
Proof.
  intros Hr. induction 1 as [|x t Hx Ht IH]; simpl.
  - constructor; [assumption|constructor].
  - destruct (created_at x <=? created_at r); repeat constructor; assumption.
Qed.

Lemma insert_desc_sorted (r : ReceiptRow) (l : list ReceiptRow) :
  StronglySorted newer_or_same l -> StronglySorted newer_or_same (insert_desc r l).
Proof.
  induction 1 as [|x t St IH Hx]; simpl.
  - constructor; constructor.
  - destruct (created_at x <=? created_at r) eqn:C.
    + apply Z.leb_le in C. constructor.
      * constructor; assumption.
      * constructor; [exact C|].
        eapply Forall_impl; [|exact Hx]. unfold newer_or_same. intros; lia.
    + apply Z.leb_gt in C. constructor; [exact IH|].
      apply insert_desc_Forall; [unfold newer_or_same; lia|exact Hx].
Qed.

Lemma select_receipts_desc_sorted (d : SqlDb) :
  StronglySorted newer_or_same (select_receipts_desc d).
Proof.
  unfold select_receipts_desc.
  induction (receipts_tbl d) as [|r t IH]; simpl.
  - constructor.
  - apply insert_desc_sorted, IH.
Qed.

Lemma sorted_pairs {A : Type} (R : A -> A -> Prop) (l : list A) :
  StronglySorted R l ->
  forall i j a b, (i < j)%nat -> nth_error l i = Some a -> nth_error l j = Some b -> R a b.
Proof.
  induction 1 as [|x t St IH Hx]; intros i j a b Hij Ha Hb.
  - destruct i; discriminate.
  - destruct j as [|j]; [lia|]. simpl in Hb.
    destruct i as [|i]; simpl in Ha.
    + inversion Ha; subst. rewrite Forall_forall in Hx.
      apply Hx. eapply nth_error_In; exact Hb.
    + apply (IH i j); [lia|assumption..].
Qed.

(** The relational backend lists the newest first, whatever it holds. *)
Lemma mobile_listing_newest_first (w w' : World) (l : list Receipt) :
  platform w = Mobile ->
  getAllReceiptsFromDatabase w = (Ok l, w') -> newest_first l.
Proof.
  intros P. rewrite (getAll_mobile _ P).
  destruct (ensureDatabaseConnection w) as [[[]|e] w1]; inversion 1; subst.
  - intros i j a b ta tb Hij Ha Hb Ca Cb.
    rewrite nth_error_map in Ha, Hb.
    destruct (nth_error _ i) as [ra|] eqn:Ea; [|discriminate].
    destruct (nth_error _ j) as [rb|] eqn:Eb; [|discriminate].
    inversion Ha; inversion Hb; subst. simpl in Ca, Cb.
    inversion Ca; inversion Cb; subst.
    exact (sorted_pairs _ _ (select_receipts_desc_sorted (sqlite w')) i j ra rb Hij Ea Eb).
  - intros [|i] j a b ta tb Hij Ha; discriminate.
Qed.

(** The document backend lists what is stored in the order it is stored,
    and a save puts the new record last. *)
Lemma web_listing_appends (d : ReceiptData) (w w' : World) :
  platform w = Web ->
  saveReceiptToDatabase d w = (Ok tt, w') ->
  fst (getAllReceiptsFromDatabase w') =
  match fst (getAllReceiptsFromDatabase w) with
  | Ok l => Ok (l ++ [web_record w d])%list
  | Throw e => Throw e
  end.
Proof.
  intros P. rewrite (save_web _ _ P), (getAll_web _ P).
  destruct (asyncStorage w); inversion 1; subst;
    rewrite getAll_web by exact P; reflexivity.
Qed.

(** C2.  On the document backend two receipts saved one after the other
    are listed in the order they were saved: the one created at 1000
    comes before the one created at 2000, so the listing is not ordered
    by creation time descending. *)
Theorem web_listing_oldest_first :
  exists a b,
    getAllReceiptsFromDatabase (Examples.after_two_saves Examples.web0) =
      (Ok [a; b], Examples.after_two_saves Examples.web0) /\
    createdAt a = Some 1000 /\ createdAt b = Some 2000 /\
    ~ newest_first [a; b].
Proof.
  eexists; eexists. split; [vm_compute; reflexivity|].
  split; [reflexivity|]. split; [reflexivity|].
  intros H.
  specialize (H 0%nat 1%nat _ _ 1000 2000 (Nat.lt_0_succ 0)
                eq_refl eq_refl eq_refl eq_refl).
  lia.
Qed.

(** The same two saves on the relational backend are listed newest
    first. *)
Lemma mobile_listing_of_two_saves :
  map createdAt
    match fst (getAllReceiptsFromDatabase (Examples.after_two_saves Examples.mobile0)) with
    | Ok l => l
    | Throw _ => []
    end = [Some 2000; Some 1000].
Proof. vm_compute. reflexivity. Qed.

End ListingOrder.

(** ** C3: where the legacy names are resolved *)

Section Aliases.

Import Database Model.

Lemma or_alias_rule {A : Type} (t : A -> bool) (current old : option A) (default : A) :
  alias_rule t current old default (Js.or_lit t (Js.or t current old) default).
Proof.
  unfold alias_rule, Js.or_lit, Js.or, Js.truthy.
  destruct current as [c|]; [destruct (t c) eqn:Tc|].
  - rewrite Tc. repeat split; try discriminate. intros x [= ->] _. reflexivity.
  - repeat split.
    + intros x [= ->]. congruence.
    + intros _ x -> Tx. rewrite Tx. reflexivity.
    + intros _ H. destruct old as [o|]; [rewrite H|]; reflexivity.
  - repeat split.
    + discriminate.
    + intros _ x -> Tx. rewrite Tx. reflexivity.
    + intros _ H. destruct old as [o|]; [rewrite H|]; reflexivity.
Qed.

Lemma or_lit_again (T : Q) :
  Js.truthy_num T = true \/ T = 0%Q ->
  Js.or_lit Js.truthy_num (Some T) 0%Q = T.
Proof. unfold Js.or_lit. intros [-> | ->]; reflexivity. Qed.

Lemma or_lit_truthy_or_zero (x : option Q) :
  Js.truthy_num (Js.or_lit Js.truthy_num x 0%Q) = true \/
  Js.or_lit Js.truthy_num x 0%Q = 0%Q.
Proof.
  unfold Js.or_lit. destruct x as [q|]; [|right; reflexivity].
  destruct (Js.truthy_num q) eqn:T; [left; exact T|right; reflexivity].
Qed.

(** A value already defaulted is not changed by the default of the
    adapter. *)
Lemma or_lit_default (x : option string) :
  Js.or_lit Js.truthy_str (Some (Js.or_lit Js.truthy_str x "Unknown Store"))
    "Unknown Store" = Js.or_lit Js.truthy_str x "Unknown Store".
Proof.
  unfold Js.or_lit. destruct x as [v|]; [|reflexivity].
  destruct (Js.truthy_str v) eqn:T; [rewrite T|]; reflexivity.
Qed.

Lemma or_lit_repeat (x : option Q) :
  Js.or_lit Js.truthy_num
    (Js.or Js.truthy_num (Some (Js.or_lit Js.truthy_num x 0%Q)) None) 0%Q =
  Js.or_lit Js.truthy_num x 0%Q.
Proof.
  unfold Js.or_lit, Js.or. destruct x as [v|]; [|reflexivity].
  destruct (Js.truthy_num v) eqn:T; [rewrite !T|]; reflexivity.
Qed.

Lemma derived_total_given (r : Receipt) :
  Js.truthy Js.truthy_num (Js.or Js.truthy_num (totalAmount r) (total r)) = true ->
  Store.derived_total r = Js.or Js.truthy_num (totalAmount r) (total r).
Proof. unfold Store.derived_total. intros ->. reflexivity. Qed.

(** C3 as stated fails on the document backend: a stored record with only
    [store], [total] and [tax] is read back by [getAllReceiptsFromDatabase]
    and by [getReceiptById] with [merchantName], [totalAmount] and
    [taxAmount] still absent. *)
Lemma legacy_read_as_stored :
  exists r,
    getAllReceiptsFromDatabase Examples.legacy_web = (Ok [r], Examples.legacy_web) /\
    getReceiptById "7" Examples.legacy_web = (Ok (Some r), Examples.legacy_web) /\
    store r = Some "Corner Shop" /\ merchantName r <> store r /\
    total r = Some 12%Q /\ totalAmount r <> total r /\
    tax r = Some 1%Q /\ taxAmount r <> tax r.
Proof.
  exists Examples.legacy. repeat split; try reflexivity; discriminate.
Qed.

End Aliases.

(** ** The tables: what the statements do to them *)

Section Tables.

Import Database Model.

Lemma insert_items_eq (rid : Z) (l : list ReceiptItem) (d : SqlDb) :
  insert_items rid l d =
  mkDb (receipts_tbl d) (items_tbl d ++ item_rows rid (next_item_id d) l)
       (next_receipt_id d) (next_item_id d + Z.of_nat (length l)).
Proof.
  unfold insert_items. revert d.
  induction l as [|item rest IH]; intros d.
  - simpl. rewrite app_nil_r, Z.add_0_r. destruct d; reflexivity.
  - cbn [fold_left]. rewrite IH. unfold insert_item. cbn [receipts_tbl items_tbl
      next_receipt_id next_item_id item_rows length].
    rewrite <- app_assoc. f_equal. lia.
Qed.

Lemma item_rows_written (rid first : Z) (l : list ReceiptItem) :
  map item_of_row (item_rows rid first l) = written_items first l.
Proof.
  revert first. induction l as [|item rest IH]; intros first; simpl;
    [reflexivity|]. rewrite IH. reflexivity.
Qed.

Lemma item_rows_of (rid first : Z) (l : list ReceiptItem) :
  Forall (fun i => receipt_id i = rid /\ first <= it_id i < first + Z.of_nat (length l))
         (item_rows rid first l).
Proof.
  revert first. induction l as [|item rest IH]; intros first; simpl; constructor.
  - simpl. lia.
  - eapply Forall_impl; [|apply IH]. simpl. intros i. lia.
Qed.

Lemma filter_all {A : Type} (p : A -> bool) (l : list A) :
  Forall (fun x => p x = true) l -> filter p l = l.
Proof. induction 1 as [|x t H _ IH]; simpl; [|rewrite H, IH]; reflexivity. Qed.

Lemma filter_none {A : Type} (p : A -> bool) (l : list A) :
  Forall (fun x => p x = false) l -> filter p l = [].
Proof. induction 1 as [|x t H _ IH]; simpl; [|rewrite H, IH]; reflexivity. Qed.

Lemma select_new_items (rid other first : Z) (l : list ReceiptItem) :
  filter (fun i => receipt_id i =? other) (item_rows rid first l) =
  if rid =? other then item_rows rid first l else [].
Proof.
  destruct (rid =? other) eqn:E.
  - apply filter_all. eapply Forall_impl; [|apply item_rows_of].
    simpl. intros i [-> _]. exact E.
  - apply filter_none. eapply Forall_impl; [|apply item_rows_of].
    simpl. intros i [-> _]. exact E.
Qed.

(** The invariant holds of an empty database and every write keeps it. *)
Lemma wf_empty : wf_db Examples.empty_db.
Proof. split; constructor. Qed.

Lemma wf_insert_items (rid : Z) (l : list ReceiptItem) (d : SqlDb) :
  rid < next_receipt_id d -> wf_db d -> wf_db (insert_items rid l d).
Proof.
  intros Hr [R I]. rewrite insert_items_eq. split; simpl; [exact R|].
  apply Forall_app. split.
  - eapply Forall_impl; [|exact I]. simpl. intros i. lia.
  - eapply Forall_impl; [|apply item_rows_of]. simpl. intros i. lia.
Qed.

Lemma wf_insert_receipt (t : Z) (m dt : string) (tot tx : Q) (img cat : option string)
    (d : SqlDb) :
  wf_db d ->
  wf_db (snd (insert_receipt t m dt tot tx img cat d)) /\
  fst (insert_receipt t m dt tot tx img cat d) <
    next_receipt_id (snd (insert_receipt t m dt tot tx img cat d)).
Proof.
  intros [R I]. unfold insert_receipt, wf_db. simpl. split; [split|lia].
  - apply Forall_app. split.
    + eapply Forall_impl; [|exact R]. simpl. intros r. lia.
    + repeat constructor. simpl. lia.
  - eapply Forall_impl; [|exact I]. simpl. intros i. lia.
Qed.

Lemma wf_mobile_saved (w : World) (d : ReceiptData) :
  wf_db (sqlite w) -> wf_db (mobile_saved w d).
Proof.
  intros W. unfold mobile_saved.
  match goal with
  | |- context [insert_receipt ?t ?m ?dt ?tot ?tx ?img ?cat ?db] =>
      pose proof (wf_insert_receipt t m dt tot tx img cat db W) as [W1 L];
      destruct (insert_receipt t m dt tot tx img cat db) as [n db1]
  end.
  apply wf_insert_items; assumption.
Qed.

Lemma wf_delete_items (n : Z) (d : SqlDb) : wf_db d -> wf_db (delete_items n d).
Proof.
  intros [R I]. split; simpl; [exact R|].
  rewrite Forall_forall in *. intros i Hi. apply filter_In in Hi. apply I, Hi.
Qed.

Lemma wf_update_receipt (t : Z) (m dt : string) (tot tx : Q) (img cat : option string)
    (n : Z) (d : SqlDb) :
  wf_db d -> wf_db (update_receipt t m dt tot tx img cat n d).
Proof.
  intros [R I]. split; simpl; [|exact I].
  rewrite Forall_forall in *. intros r Hr. apply in_map_iff in Hr.
  destruct Hr as (r0 & <- & H0). specialize (R _ H0).
  destruct (row_id r0 =? n); exact R.
Qed.

Lemma wf_delete_receipt (n : Z) (d : SqlDb) : wf_db d -> wf_db (delete_receipt n d).
Proof.
  intros [R I]. split; simpl; rewrite Forall_forall in *.
  - intros r Hr. apply filter_In in Hr. apply R, Hr.
  - intros i Hi. apply filter_In in Hi. apply I, Hi.
Qed.

Lemma wf_mobile_updated (w : World) (e : Receipt) (d : ReceiptData) (n : Z) (row : ReceiptRow) :
  find (fun r => row_id r =? n) (receipts_tbl (sqlite w)) = Some row ->
  wf_db (sqlite w) -> wf_db (mobile_updated w e d n).
Proof.
  intros F W. unfold mobile_updated.
  apply wf_insert_items; [|apply wf_delete_items, wf_update_receipt, W].
  simpl. apply find_some in F. destruct F as [Hin E].
  apply Z.eqb_eq in E. subst n. destruct W as [R _].
  rewrite Forall_forall in R. apply R, Hin.
Qed.

(** Every call of the adapter keeps the invariant of the tables. *)
Lemma write_keeps_wf (m : Mutation) (w w' : World) (r : Result unit) :
  wf_db (sqlite w) -> backend_write m w = (r, w') -> wf_db (sqlite w').
Proof.
  intros W.
  assert (F : forall w1, same_but_connection w w1 -> wf_db (sqlite w1)).
  { intros w1 (_ & _ & -> & _). exact W. }
  destruct (platform w) eqn:P.
  - destruct m as [rc|rid d|rid]; simpl.
    + destruct (Store.save_payload rc) as [p|e]; [|inversion 1; subst; exact W].
      rewrite (save_web _ _ P).
      destruct (asyncStorage w); inversion 1; subst; exact W.
    + rewrite (update_web _ _ _ P).
      destruct (asyncStorage w) as [| |l]; try (inversion 1; subst; exact W).
      destruct (find _ l) as [e|]; [|inversion 1; subst; exact W].
      destruct (replace_first _ _ l); inversion 1; subst; exact W.
    + rewrite (delete_web _ _ P).
      destruct (asyncStorage w); inversion 1; subst; exact W.
  - pose proof (ensure_frame w) as E.
    destruct m as [rc|rid d|rid]; simpl.
    + destruct (Store.save_payload rc) as [p|e]; [|inversion 1; subst; exact W].
      rewrite (save_mobile _ _ P).
      destruct (ensureDatabaseConnection w) as [[[]|e] w1]; inversion 1; subst;
        simpl in E; [|exact (F _ E)].
      apply wf_mobile_saved, (F _ E).
    + rewrite (update_mobile _ _ _ P).
      destruct (ensureDatabaseConnection w) as [[[]|e] w1]; simpl in E;
        [|inversion 1; subst; exact (F _ E)].
      destruct (Js.parseInt rid) as [n|]; [|inversion 1; subst; exact (F _ E)].
      destruct (find _ _) as [row|] eqn:Fd; inversion 1; subst; [|exact (F _ E)].
      apply (wf_mobile_updated _ _ _ _ _ Fd), (F _ E).
    + rewrite (delete_mobile _ _ P).
      destruct (ensureDatabaseConnection w) as [[[]|e] w1]; simpl in E;
        inversion 1; subst; [|exact (F _ E)].
      destruct (Js.parseInt rid) as [n|]; [|exact (F _ E)].
      apply wf_delete_receipt, (F _ E).
Qed.

End Tables.

(** ** What a save leaves in storage *)

Section Saving.

Import Database Model.

Lemma stored_frame (w w' : World) :
  platform w' = platform w -> asyncStorage w' = asyncStorage w ->
  sqlite w' = sqlite w -> stored w' = stored w.
Proof. unfold stored. intros -> -> ->. reflexivity. Qed.

Lemma receipt_of_row_old (d : SqlDb) (n first : Z) (l : list ReceiptItem)
    (rows : list ReceiptRow) (c1 c2 : Z) (r : ReceiptRow) :
  row_id r < n ->
  receipt_of_row (mkDb rows (items_tbl d ++ item_rows n first l) c1 c2) r =
  receipt_of_row d r.
Proof.
  intros H. unfold receipt_of_row, select_items. simpl.
  rewrite filter_app, select_new_items.
  replace (n =? row_id r) with false by (symmetry; apply Z.eqb_neq; lia).
  rewrite app_nil_r. reflexivity.
Qed.

(** A save succeeds whenever the backend can be reached, whatever the
    payload, and adds one record after those already stored. *)
Lemma save_stored (d : ReceiptData) (w : World) :
  available w -> wf_db (sqlite w) ->
  exists w',
    saveReceiptToDatabase d w = (Ok tt, w') /\
    stored w' = (stored w ++ [saved_record w d])%list.
Proof.
  intros A W. destruct (platform w) eqn:P.
  - rewrite (save_web _ _ P). unfold available in A. rewrite P in A.
    unfold stored, saved_record. rewrite P.
    destruct (asyncStorage w) as [| |l]; [|congruence|];
      eexists; (split; [reflexivity|]); simpl; rewrite P; reflexivity.
  - destruct (ensure_available _ P A) as [w1 E].
    rewrite (save_mobile _ _ P), E. eexists. split; [reflexivity|].
    destruct (ensure_ok _ _ E) as [_ (P1 & B1 & D1 & N1 & T1 & _)].
    unfold stored, saved_record. simpl. rewrite P1, P.
    unfold mobile_saved, insert_receipt. rewrite insert_items_eq. simpl.
    rewrite D1, N1, T1. destruct W as [R I].
    rewrite map_app. f_equal.
    + apply map_ext_in. intros r Hr. apply receipt_of_row_old.
      rewrite Forall_forall in R. apply R, Hr.
    + simpl. unfold receipt_of_row at 1, select_items. simpl.
      rewrite filter_app, select_new_items, Z.eqb_refl.
      rewrite (filter_none _ (items_tbl (sqlite w))).
      * simpl. rewrite item_rows_written. reflexivity.
      * eapply Forall_impl; [|exact I]. simpl. intros i [_ H].
        apply Z.eqb_neq. lia.
Qed.

End Saving.

(** ** A listing shows what is stored *)

Section Listing.

Import Database Model.

Lemma insert_desc_perm (r : ReceiptRow) (l : list ReceiptRow) :
  Permutation (insert_desc r l) (r :: l).
Proof.
  induction l as [|x t IH]; simpl; [reflexivity|].
  destruct (created_at x <=? created_at r); [reflexivity|].
  rewrite IH. apply perm_swap.
Qed.

Lemma select_receipts_desc_perm (d : SqlDb) :
  Permutation (select_receipts_desc d) (receipts_tbl d).
Proof.
  unfold select_receipts_desc.
  induction (receipts_tbl d) as [|r t IH]; simpl; [reflexivity|].
  rewrite insert_desc_perm. constructor. exact IH.
Qed.

(** With the backend in reach, the listing is the stored receipts, up to
    their order. *)
Lemma listing_permutes_stored (w w' : World) (l : list Receipt) :
  available w ->
  getAllReceiptsFromDatabase w = (Ok l, w') -> Permutation l (stored w).
Proof.
  intros A. unfold stored. destruct (platform w) eqn:P.
  - rewrite (getAll_web _ P). unfold available in A. rewrite P in A.
    destruct (asyncStorage w); inversion 1; subst; reflexivity.
  - destruct (ensure_available _ P A) as [w1 E].
    rewrite (getAll_mobile _ P), E. inversion 1; subst.
    destruct (ensure_ok _ _ E) as [_ (_ & _ & -> & _)].
    apply Permutation_map, select_receipts_desc_perm.
Qed.

(** After a write that succeeded the backend is in reach. *)
Lemma write_available (m : Mutation) (w w' : World) :
  backend_write m w = (Ok tt, w') -> available w'.
Proof.
  intros B. pose proof (write_settles _ _ _ B) as S.
  unfold available, settled in *.
  destruct (platform w') eqn:P'; [|left; exact S].
  destruct (platform w) eqn:P.
  - destruct m as [r|rid d|rid]; simpl in B.
    + destruct (Store.save_payload r) as [p|e]; [|discriminate].
      rewrite (save_web _ _ P) in B.
      destruct (asyncStorage w); inversion B; subst; simpl; discriminate.
    + rewrite (update_web _ _ _ P) in B.
      destruct (asyncStorage w) as [| |l] eqn:Bl; try discriminate.
      destruct (find _ l) as [e|]; [|discriminate].
      destruct (replace_first _ _ l); inversion B; subst; simpl; congruence.
    + rewrite (delete_web _ _ P) in B.
      destruct (asyncStorage w); inversion B; subst; simpl; discriminate.
  - exfalso. pose proof (ensure_frame w) as (Pf & _).
    destruct m as [r|rid d|rid]; simpl in B.
    + destruct (Store.save_payload r) as [p|e]; [|discriminate].
      rewrite (save_mobile _ _ P) in B.
      destruct (ensureDatabaseConnection w) as [[[]|e] w1]; inversion B; subst.
      simpl in *. congruence.
    + rewrite (update_mobile _ _ _ P) in B.
      destruct (ensureDatabaseConnection w) as [[[]|e] w1]; [|discriminate].
      destruct (Js.parseInt rid); [|discriminate].
      destruct (find _ _); inversion B; subst. simpl in *. congruence.
    + rewrite (delete_mobile _ _ P) in B.
      destruct (ensureDatabaseConnection w) as [[[]|e] w1]; inversion B; subst.
      destruct (Js.parseInt rid); simpl in *; congruence.
Qed.

(** [addReceipt] on a draft whose payload can be built: with the backend
    in reach the call resolves, one record is added to storage, and the
    store lists what is stored. *)
Lemma add_stored (r : Receipt) (p : ReceiptData) (s : Store.State) (w : World) :
  Store.save_payload r = Ok p -> available w -> wf_db (sqlite w) ->
  exists s' w',
    Store.addReceipt r (s, w) = (Ok tt, (s', w')) /\
    stored w' = (stored w ++ [saved_record w p])%list /\
    Permutation (Store.receipts s') (stored w').
Proof.
  intros Pl A W. destruct (save_stored p w A W) as (w1 & Sv & St).
  assert (B : backend_write (Add r) w = (Ok tt, w1)) by (simpl; rewrite Pl; exact Sv).
  pose proof (getAll_settled _ (write_settles _ _ _ B)) as G.
  destruct (getAll_total w1) as (l & w2 & R). rewrite R in G. simpl in G. subst w2.
  exists (Store.mkState l (Store.chatMessages s) false None), w1.
  split; [|split].
  - change (Store.addReceipt r) with (run (Add r)). rewrite run_eq, B, R. reflexivity.
  - exact St.
  - simpl. exact (listing_permutes_stored _ _ _ (write_available _ _ _ B) R).
Qed.

End Listing.

(** ** C3, amended: the store applies the rule of the aliases *)

Section AliasesInStore.

Import Database Model.

(** [getTotalSpending] adds up one amount for each receipt. *)
Lemma total_spending_sum (l : list Receipt) (acc : Q) :
  fold_left (fun total r => (total + Store.effective_total r)%Q) l acc =
  fold_left Qplus (map Store.effective_total l) acc.
Proof.
  revert acc. induction l as [|r t IH]; intros acc; simpl; [reflexivity|]. apply IH.
Qed.

(** C3, amended.  On the document backend the two reads give the stored
    records as they are stored.  The rule of the aliases (current name,
    else legacy name, else default) is applied by the store.
    [getTotalSpending] adds up, receipt by receipt, the amount the rule
    gives for the total.  [addReceipt], with the backend in reach, stores
    a record whose merchant name and tax are what the rule gives for the
    draft, and so is its total when one of the two names of the draft has
    a truthy value. *)
Theorem aliases_resolved_by_store (w : World) (l : list Receipt) :
  platform w = Web -> asyncStorage w = Stored l ->
  getAllReceiptsFromDatabase w = (Ok l, w) /\
  (forall rid,
     getReceiptById rid w = (Ok (find (fun r => String.eqb (id r) rid) l), w)) /\
  (forall s, exists amounts,
     Forall2 (fun r t => alias_rule Js.truthy_num (totalAmount r) (total r) 0%Q t)
             (Store.receipts s) amounts /\
     Store.getTotalSpending s = fold_left Qplus amounts 0%Q) /\
  (forall r s w0, items r <> None -> available w0 -> wf_db (sqlite w0) ->
     exists s' w' p m x t,
       Store.addReceipt r (s, w0) = (Ok tt, (s', w')) /\
       stored w' = (stored w0 ++ [p])%list /\
       merchantName p = Some m /\ taxAmount p = Some x /\ totalAmount p = Some t /\
       alias_rule Js.truthy_str (merchantName r) (store r) "Unknown Store" m /\
       alias_rule Js.truthy_num (taxAmount r) (tax r) 0%Q x /\
       (Js.truthy Js.truthy_num (Js.or Js.truthy_num (totalAmount r) (total r)) = true ->
        alias_rule Js.truthy_num (totalAmount r) (total r) 0%Q t)).
Proof.
  intros P B. split; [|split; [|split]].
  - rewrite (getAll_web _ P), B. reflexivity.
  - intros rid. rewrite (getById_web _ _ P), B. reflexivity.
  - intros s. exists (map Store.effective_total (Store.receipts s)). split.
    + induction (Store.receipts s) as [|r t IH]; simpl; constructor; [|exact IH].
      apply or_alias_rule.
    + apply total_spending_sum.
  - intros r s w0 It A W.
    destruct (Store.save_payload r) as [p|e] eqn:Pl;
      [|unfold Store.save_payload in Pl; destruct (items r); [discriminate|congruence]].
    destruct (add_stored r p s w0 Pl A W) as (s' & w' & Ad & St & _).
    exists s', w', (saved_record w0 p),
           (Js.or_lit Js.truthy_str (Js.or Js.truthy_str (merchantName r) (store r))
              "Unknown Store"),
           (Js.or_lit Js.truthy_num (Js.or Js.truthy_num (taxAmount r) (tax r)) 0%Q),
           (Js.or_lit Js.truthy_num (Store.derived_total r) 0%Q).
    split; [exact Ad|]. split; [exact St|].
    unfold Store.save_payload in Pl. destruct (items r) as [its|]; [|discriminate].
    injection Pl as Ep.
    assert (F : merchantName (saved_record w0 p) =
                  Some (Js.or_lit Js.truthy_str
                          (Js.or Js.truthy_str (merchantName r) (store r)) "Unknown Store") /\
                taxAmount (saved_record w0 p) =
                  Some (Js.or_lit Js.truthy_num
                          (Js.or Js.truthy_num (taxAmount r) (tax r)) 0%Q) /\
                totalAmount (saved_record w0 p) =
                  Some (Js.or_lit Js.truthy_num (Store.derived_total r) 0%Q)).
    { rewrite <- Ep. unfold saved_record.
      destruct (platform w0); cbn [merchantName taxAmount totalAmount web_record
        d_merchantName d_taxAmount d_totalAmount d_total];
        rewrite or_lit_default, !or_lit_repeat,
          ?(or_lit_again _ (or_lit_truthy_or_zero _)); auto. }
    destruct F as (Fm & Fx & Ft).
    split; [exact Fm|]. split; [exact Fx|]. split; [exact Ft|].
    split; [apply or_alias_rule|]. split; [apply or_alias_rule|].
    intros T. rewrite (derived_total_given _ T). apply or_alias_rule.
Qed.

Lemma aliases_resolved_by_store_witness :
  getAllReceiptsFromDatabase Examples.legacy_web =
    (Ok [Examples.legacy], Examples.legacy_web) /\
  Store.getTotalSpending Examples.loaded = (0 + 12)%Q /\
  exists s' w' p,
    Store.addReceipt Examples.legacy (Store.initial, Examples.web0) = (Ok tt, (s', w')) /\
    stored w' = [p] /\ merchantName p = Some "Corner Shop" /\
    taxAmount p = Some 1%Q /\ totalAmount p = Some 12%Q.
Proof.
  pose proof (aliases_resolved_by_store Examples.legacy_web [Examples.legacy]
                eq_refl eq_refl) as (R & _ & T & Ad).
  split; [exact R|]. split.
  - destruct (T Examples.loaded) as (amounts & F & E). rewrite E.
    inversion F as [|r t rs ts (_ & L & _) F']; subst. inversion F'; subst.
    rewrite (L eq_refl _ eq_refl eq_refl). reflexivity.
  - destruct (Ad Examples.legacy Store.initial Examples.web0)
      as (s' & w' & p & m & x & t & H & St & Hm & Hx & Ht & Rm & Rx & Rt).
    + discriminate.
    + simpl. discriminate.
    + exact wf_empty.
    + exists s', w', p. split; [exact H|]. split; [exact St|].
      destruct Rm as (_ & Lm & _). destruct Rx as (_ & Lx & _).
      destruct (Rt eq_refl) as (_ & Lt & _).
      rewrite Hm, Hx, Ht.
      rewrite (Lm eq_refl _ eq_refl eq_refl), (Lx eq_refl _ eq_refl eq_refl),
        (Lt eq_refl _ eq_refl eq_refl).
      auto.
Defined.

End AliasesInStore.

(** ** C4: where a write is validated *)

Section Validation.

Import Database Model.

Lemma written_items_length (first : Z) (l : list ReceiptItem) :
  length (written_items first l) = length l.
Proof.
  revert first. induction l as [|x t IH]; intros first; simpl;
    [|rewrite IH]; reflexivity.
Qed.

(** C4 as stated fails on [addReceipt]: a draft with an empty merchant name
    and no item is written, no exception is thrown, and storage then
    holds a receipt with no item. *)
Lemma empty_receipt_is_saved :
  exists s' w' p,
    Store.addReceipt Examples.blank (Store.initial, Examples.web0) = (Ok tt, (s', w')) /\
    saveReceiptToDatabase (as_data Examples.blank) Examples.web0 = (Ok tt, w') /\
    stored w' = [p] /\ Store.receipts s' = [p] /\ Store.error s' = None /\
    items p = Some [] /\ merchantName p = Some "Unknown Store".
Proof. do 3 eexists. vm_compute. repeat split; reflexivity. Qed.

(** C4, amended.  The checks are those of the edit screen: when the
    merchant name is blank, or no item has a name that is not blank and a
    positive price, [handleSave] shows an error and returns without
    calling the store, so nothing is written and nothing changes.  The
    adapter checks nothing: whenever its backend can be reached
    [saveReceiptToDatabase] succeeds and stores one more record, with
    ['Unknown Store'] for an empty merchant name and with as many items as
    it was given, also when there are none; and so does [addReceipt] for
    every draft that has an array of items. *)
Theorem validation_by_edit_screen :
  (forall (receipt : Receipt) (s : Store.State) (w : World),
     Js.truthy_str (EditScreen.store_name receipt) = false \/
     (exists l, items receipt = Some l /\ filter EditScreen.valid_item l = []) ->
     exists msg,
       EditScreen.handleSave receipt (s, w) = (Ok (AlertError msg), (s, w))) /\
  (forall (d : ReceiptData) (w : World),
     available w -> wf_db (sqlite w) ->
     exists w',
       saveReceiptToDatabase d w = (Ok tt, w') /\
       stored w' = (stored w ++ [saved_record w d])%list /\
       merchantName (saved_record w d) =
         Some (Js.or_lit Js.truthy_str (d_merchantName d) "Unknown Store") /\
       option_map (@length _) (items (saved_record w d)) =
         Some (length (match d_items d with Some l => l | None => [] end))) /\
  (forall (r : Receipt) (l : list ReceiptItem) (s : Store.State) (w : World),
     items r = Some l -> available w -> wf_db (sqlite w) ->
     exists s' w' p,
       Store.addReceipt r (s, w) = (Ok tt, (s', w')) /\
       stored w' = (stored w ++ [p])%list /\
       option_map (@length _) (items p) = Some (length l)).
Proof.
  split; [|split].
  - intros receipt s w H. unfold EditScreen.handleSave.
    destruct (Js.truthy_str (EditScreen.store_name receipt)) eqn:N; simpl.
    + destruct H as [H | (l & -> & ->)]; [discriminate|].
      eexists; reflexivity.
    + eexists; reflexivity.
  - intros d w A W. destruct (save_stored d w A W) as (w' & S & St).
    exists w'. split; [exact S|]. split; [exact St|].
    unfold saved_record. destruct (platform w); simpl; split; try reflexivity.
    f_equal. apply written_items_length.
  - intros r l s w Il A W.
    assert (Pl : exists p, Store.save_payload r = Ok p /\
                   exists l', d_items p = Some l' /\ length l' = length l).
    { unfold Store.save_payload. rewrite Il. eexists. split; [reflexivity|].
      eexists. split; [reflexivity|]. apply length_map. }
    destruct Pl as (p & Pl & l' & Il' & Ll).
    destruct (add_stored r p s w Pl A W) as (s' & w' & Ad & St & _).
    exists s', w', (saved_record w p). split; [exact Ad|]. split; [exact St|].
    unfold saved_record. destruct (platform w); simpl; rewrite Il'; simpl;
      rewrite ?written_items_length; congruence.
Qed.

Lemma validation_by_edit_screen_witness :
  (exists msg,
     EditScreen.handleSave Examples.unnamed_item (Store.initial, Examples.legacy_web) =
     (Ok (AlertError msg), (Store.initial, Examples.legacy_web))) /\
  (exists w',
     saveReceiptToDatabase (as_data Examples.blank) Examples.mobile0 = (Ok tt, w') /\
     stored w' = [saved_record Examples.mobile0 (as_data Examples.blank)]).
Proof.
  split.
  - apply (proj1 validation_by_edit_screen).
    right. exists [mkItem "j" "  " 1 11 None]. split; reflexivity.
  - destruct (proj1 (proj2 validation_by_edit_screen) (as_data Examples.blank)
                Examples.mobile0)
      as (w' & S & St & _).
    + right. simpl. lia.
    + exact wf_empty.
    + exists w'. split; [exact S|exact St].
Defined.

End Validation.

(** ** C5: an extraction without items *)

Section Ingestion.

Import Database Model.

(** Without an item of its own the extraction has one item, of quantity
    1.  Its price is the total, but for an answer that does not parse:
    there the price is 0, whatever is read for the total. *)
Lemma extraction_without_items (today : string) (resp : Vision.Response) :
  no_item_no_scraped_total today resp ->
  exists nm P T,
    Vision.e_items (Vision.extractReceiptData today resp) =
      [Vision.mkExtractedItem nm P 1%Q "other"] /\
    Vision.e_totalAmount (Vision.extractReceiptData today resp) = T /\
    (Js.truthy_num P = true \/ P = 0%Q) /\
    (T = P \/ (P = 0%Q /\ Js.truthy_num T = false)).
Proof.
  destruct resp as [|raw|text]; simpl; intros H.
  - do 3 eexists. repeat split; [right; reflexivity|left; reflexivity].
  - unfold Vision.process_parsed. rewrite H. simpl.
    do 3 eexists. split; [reflexivity|]. split; [reflexivity|].
    split; [apply or_lit_truthy_or_zero|].
    left. apply or_lit_again, or_lit_truthy_or_zero.
  - do 3 eexists. split; [reflexivity|]. split; [reflexivity|].
    split; [right; reflexivity|]. right. split; [reflexivity|exact H].
Qed.

(** C5 fails when the answer does not parse and a total is read off its
    text: the [catch] of [JSON.parse] puts the amount in the total of the
    fallback record and leaves the price of its item at 0, where the
    [try] prices the item it makes up at the total.  The receipt that is
    stored has total 12 and one item of price 0. *)
Lemma scraped_total_not_item_price :
  exists alert s' w' p item,
    ScanScreen.handleImageProcessing "file:///r.jpg" Examples.scraped
      (Store.initial, Examples.web0) = (Ok alert, (s', w')) /\
    stored w' = [p] /\ Store.receipts s' = [p] /\
    items p = Some [item] /\ totalAmount p = Some 12%Q /\
    i_price item = 0%Q /\ ~ (i_price item == 12)%Q.
Proof.
  do 5 eexists. vm_compute. repeat split; try reflexivity. discriminate.
Qed.

End Ingestion.

(** ** C6: an id that names no record *)

Section NotFound.

Import Database Model.

Lemma find_nothing {A : Type} (p : A -> bool) (l : list A) :
  (forall x, In x l -> p x = true -> False) -> find p l = None.
Proof.
  intros H. destruct (find p l) as [x|] eqn:F; [|reflexivity].
  apply find_some in F. destruct F as [I T]. destruct (H x I T).
Qed.

Lemma unresolved_web (w : World) (rid : string) (l : list Receipt) :
  platform w = Web -> ~ resolves w rid -> asyncStorage w = Stored l ->
  find (fun r => String.eqb (id r) rid) l = None.
Proof.
  intros P N B. apply find_nothing. intros r I E. apply N.
  unfold resolves. rewrite P. exists l, r.
  apply String.eqb_eq in E. auto.
Qed.

Lemma unresolved_mobile (w : World) (rid : string) (n : Z) :
  platform w = Mobile -> ~ resolves w rid -> Js.parseInt rid = Some n ->
  find (fun r => row_id r =? n) (receipts_tbl (sqlite w)) = None.
Proof.
  intros P N E. apply find_nothing. intros r I T. apply N.
  unfold resolves. rewrite P. exists n, r.
  apply Z.eqb_eq in T. auto.
Qed.

(** C6.  For an id that names no stored record, [getReceiptById] returns
    [null] and throws nothing, and [updateReceiptInDatabase] throws
    ['Receipt not found']; neither changes what is stored. *)
Theorem missing_id (w : World) (rid : string) (d : ReceiptData) :
  ~ resolves w rid ->
  (exists w1, getReceiptById rid w = (Ok None, w1) /\ same_storage w w1) /\
  (exists w2, updateReceiptInDatabase rid d w = (Throw "Receipt not found", w2) /\
              same_storage w w2).
Proof.
  intros N. destruct (platform w) eqn:P.
  - rewrite (getById_web _ _ P), (update_web _ _ _ P).
    destruct (asyncStorage w) as [| |l] eqn:B;
      try rewrite (unresolved_web _ _ _ P N B);
      split; exists w; split; try reflexivity; split; reflexivity.
  - rewrite (getById_mobile _ _ P), (update_mobile _ _ _ P).
    pose proof (ensure_frame w) as (_ & Fb & Fd & _).
    destruct (ensureDatabaseConnection w) as [[[]|e] w1]; simpl in Fb, Fd.
    + unfold select_receipt. destruct (Js.parseInt rid) as [n|] eqn:E.
      * rewrite Fd, (unresolved_mobile _ _ _ P N E).
        split; exists w1; split; try reflexivity; split; assumption.
      * split; exists w1; split; try reflexivity; split; assumption.
    + split; exists w1; split; try reflexivity; split; assumption.
Qed.

Lemma missing_id_witness :
  (exists w1, getReceiptById "8" Examples.legacy_web = (Ok None, w1) /\
              same_storage Examples.legacy_web w1) /\
  (exists w2, updateReceiptInDatabase "8" (as_data Examples.cafe) Examples.legacy_web =
                (Throw "Receipt not found", w2) /\
              same_storage Examples.legacy_web w2).
Proof.
  apply missing_id.
  intros (l & r & B & I & E). simpl in B. injection B as <-.
  destruct I as [<- | []]. discriminate E.
Defined.

End NotFound.

(** ** C7: an update replaces the items *)

Section ReplaceItems.

Import Database Model.

Lemma find_replace_first (p : Receipt -> bool) (f : Receipt -> Receipt)
    (l l' : list Receipt) :
  (forall x, p x = true -> p (f x) = true) ->
  replace_first p f l = Some l' -> find p l' = option_map f (find p l).
Proof.
  intros Hp. revert l'. induction l as [|r t IH]; intros l'; simpl; [discriminate|].
  destruct (p r) eqn:E.
  - intros [= <-]. simpl. rewrite (Hp _ E). reflexivity.
  - destruct (replace_first p f t) as [t'|]; [|discriminate].
    intros [= <-]. simpl. rewrite E. apply IH. reflexivity.
Qed.

Lemma find_updated_row (n : Z) (f : ReceiptRow -> ReceiptRow) (rows : list ReceiptRow) :
  (forall r, row_id (f r) = row_id r) ->
  find (fun r => row_id r =? n) (map (fun r => if row_id r =? n then f r else r) rows) =
  option_map f (find (fun r => row_id r =? n) rows).
Proof.
  intros Hf. induction rows as [|r t IH]; simpl; [reflexivity|].
  destruct (row_id r =? n) eqn:E.
  - rewrite Hf, E. reflexivity.
  - rewrite E. exact IH.
Qed.

(** C7 as stated fails on the relational backend: the items come back under
    new ids and with the defaults of the [INSERT], here a category. *)
Lemma replaced_items_differ :
  exists w' r l,
    updateReceiptInDatabase "1" (Examples.only_items Examples.tea) Examples.mobile1 =
      (Ok tt, w') /\
    getReceiptById "1" w' = (Ok (Some r), w') /\
    items r = Some l /\ l <> Examples.tea /\
    l = [mkItem "2" "Tea" 2 3 (Some "Other")].
Proof.
  do 3 eexists. vm_compute. repeat split; try reflexivity. discriminate.
Qed.

(** C7, amended.  For an id that [getReceiptById] finds, an update with
    the items [I2] succeeds, and [getReceiptById] then gives a receipt
    whose items are those of [I2] and nothing else, in the same order: on
    the document backend [I2] itself, on the relational backend the items
    of [I2] with the defaults of the [INSERT] and ids from the counter of
    the table. *)
Theorem update_replaces_items (w w1 : World) (rid : string) (e : Receipt)
    (I2 : list ReceiptItem) (d : ReceiptData) :
  getReceiptById rid w = (Ok (Some e), w1) ->
  d_items d = Some I2 ->
  exists w' r,
    updateReceiptInDatabase rid d w = (Ok tt, w') /\
    getReceiptById rid w' = (Ok (Some r), w') /\
    items r = Some match platform w with
                   | Web => I2
                   | Mobile => written_items (next_item_id (sqlite w)) I2
                   end.
Proof.
  intros G D. destruct (platform w) eqn:P.
  - rewrite (getById_web _ _ P) in G. rewrite (update_web _ _ _ P).
    destruct (asyncStorage w) as [| |l] eqn:B; try discriminate.
    destruct (find _ l) as [e0|] eqn:F; [|discriminate].
    destruct (replace_first_find (fun r => String.eqb (id r) rid) (web_updated w e0 d) l)
      as [l' R]; [congruence|].
    rewrite R. eexists _, (web_updated w e0 d e0). split; [reflexivity|].
    rewrite getById_web by exact P. simpl.
    rewrite (find_replace_first (fun r => String.eqb (id r) rid) (web_updated w e0 d)
               l l' (fun x H => H) R), F. simpl.
    split; [reflexivity|]. unfold upd_items. rewrite D. reflexivity.
  - rewrite (getById_mobile _ _ P) in G. rewrite (update_mobile _ _ _ P).
    destruct (ensureDatabaseConnection w) as [[[]|er] w0] eqn:E; [|discriminate].
    destruct (ensure_ok _ _ E) as [S0 (P0 & _ & D0 & _)].
    unfold select_receipt in G.
    destruct (Js.parseInt rid) as [n|] eqn:I; [|discriminate].
    destruct (find _ _) as [row|] eqn:F; [|discriminate].
    set (e0 := receipt_of_row (sqlite w0) row).
    set (w' := set_sqlite (mobile_updated w0 e0 d n) w0).
    assert (P' : platform w' = Mobile) by (simpl; congruence).
    assert (S' : settled w') by (apply (settled_frame w0); auto).
    exists w'. eexists. split; [reflexivity|].
    rewrite (getById_mobile _ _ P'), (ensure_settled _ S'), I.
    unfold select_receipt, w'. cbn [sqlite set_sqlite].
    unfold mobile_updated at 2. rewrite insert_items_eq. cbn [receipts_tbl delete_items
      update_receipt].
    rewrite find_updated_row by reflexivity. rewrite F. cbn [option_map].
    split; [reflexivity|].
    unfold receipt_of_row, select_items. cbn [items row_id].
    unfold mobile_updated. rewrite insert_items_eq.
    cbn [items_tbl delete_items update_receipt next_item_id].
    assert (Rn : row_id row = n).
    { apply find_some in F. destruct F as [_ F]. apply Z.eqb_eq, F. }
    rewrite Rn, filter_app, select_new_items, Z.eqb_refl.
    rewrite filter_none.
    + simpl. rewrite item_rows_written. unfold upd_items. rewrite D, D0. reflexivity.
    + rewrite Forall_forall. intros i Hi. apply filter_In in Hi.
      destruct Hi as [_ Hi]. apply negb_true_iff. exact Hi.
Qed.

Lemma update_replaces_items_witness :
  exists w' r,
    updateReceiptInDatabase "7" (Examples.only_items Examples.tea) Examples.legacy_web =
      (Ok tt, w') /\
    getReceiptById "7" w' = (Ok (Some r), w') /\
    items r = Some Examples.tea.
Proof.
  exact (update_replaces_items Examples.legacy_web Examples.legacy_web "7"
           Examples.legacy Examples.tea (Examples.only_items Examples.tea)
           eq_refl eq_refl).
Defined.

End ReplaceItems.

(** ** C8: the total derived from the items *)

Section DerivedTotal.

Import Database Model.






End DerivedTotal.

(** ** C9: insights over no receipt *)

Section EmptyInsights.

Import Database Model.

(** C9.  [getReceiptInsights] throws nothing.  Over an empty listing it
    gives total spending 0, average spending 0 and no top category; over a
    listing that is not empty the average is the total divided by the
    number of receipts.  The average is a finite number in every case:
    nothing is divided by zero, which would give [NaN] or an infinity. *)
Theorem insights_of_empty_listing (w w' : World) (receipts : list Receipt) :
  getAllReceiptsFromDatabase w = (Ok receipts, w') ->
  exists ins,
    getReceiptInsights w = (Ok ins, w') /\
    (receipts = [] ->
     compute_insights receipts = Ok ins /\
     totalSpending ins = 0%Q /\ averageSpending ins = Js.Finite 0 /\
     topCategories ins = [] /\ totalReceipts ins = O) /\
    (receipts <> [] ->
     forall x, compute_insights receipts = Ok x ->
       ins = x /\
       averageSpending x =
         Js.Finite (totalSpending x / inject_Z (Z.of_nat (length receipts)))%Q) /\
    (exists a, averageSpending ins = Js.Finite a).
Proof.
  intros G. unfold getReceiptInsights, try_catch, bind. rewrite G.
  destruct receipts as [|r t].
  - exists zero_insights. split; [reflexivity|]. split; [|split; [congruence|]].
    + intros _. repeat split.
    + exists 0%Q. reflexivity.
  - assert (A : forall x, compute_insights (r :: t) = Ok x ->
                  averageSpending x =
                  Js.Finite (totalSpending x / inject_Z (Z.of_nat (length (r :: t))))%Q).
    { intros x C. unfold compute_insights in C.
      destruct (breakdown (r :: t) []) as [m|]; [|discriminate].
      destruct (category_entries (r :: t) (Js.entries m)) as [en|]; [|discriminate].
      injection C as <-. reflexivity. }
    destruct (compute_insights (r :: t)) as [x|e] eqn:C.
    + exists x. split; [reflexivity|]. split; [discriminate|]. split.
      * intros _ y [= <-]. split; [reflexivity|]. apply A. reflexivity.
      * eexists. apply A. reflexivity.
    + exists zero_insights. split; [reflexivity|]. split; [discriminate|].
      split; [intros _ y; discriminate|]. exists 0%Q. reflexivity.
Qed.

Lemma insights_of_empty_listing_witness :
  exists ins,
    getReceiptInsights Examples.web0 = (Ok ins, Examples.web0) /\
    totalSpending ins = 0%Q /\ averageSpending ins = Js.Finite 0 /\
    topCategories ins = [].
Proof.
  destruct (insights_of_empty_listing Examples.web0 Examples.web0 [] eq_refl)
    as (ins & H & E & _).
  exists ins. split; [exact H|].
  destruct (E eq_refl) as (_ & T & A & C & _). auto.
Defined.

End EmptyInsights.

(** ** C10: the reads keep their failures to themselves *)

Section SwallowedFailures.

Import Database Model.

(** C10.  When the body of [getAllReceiptsFromDatabase] throws, the call
    returns the empty list, and [loadReceipts] then puts the empty list in
    the place of the list in memory and records no error; when the body of
    [getReceiptById] throws, the call returns [null].  In no case does
    [loadReceipts] end with an error. *)
Theorem read_failures_swallowed (s : Store.State) (w : World) (rid : string) :
  (forall e w1,
     getAllReceipts_try w = (Throw e, w1) ->
     getAllReceiptsFromDatabase w = (Ok [], w1) /\
     Store.loadReceipts (s, w) =
       (Ok tt, (Store.mkState [] (Store.chatMessages s) false None, w1))) /\
  (forall e w1,
     getReceiptById_try rid w = (Throw e, w1) ->
     getReceiptById rid w = (Ok None, w1)) /\
  (exists l w',
     Store.loadReceipts (s, w) =
       (Ok tt, (Store.mkState l (Store.chatMessages s) false None, w'))).
Proof.
  split; [|split].
  - intros e w1 H.
    assert (G : getAllReceiptsFromDatabase w = (Ok [], w1)).
    { unfold getAllReceiptsFromDatabase, try_catch. rewrite H. reflexivity. }
    split; [exact G|]. apply loadReceipts_eq, G.
  - intros e w1 H. unfold getReceiptById, try_catch. rewrite H. reflexivity.
  - destruct (getAll_total w) as (l & w' & G).
    exists l, w'. apply loadReceipts_eq, G.
Qed.

Lemma read_failures_swallowed_witness :
  (getAllReceiptsFromDatabase Examples.corrupt_web = (Ok [], Examples.corrupt_web) /\
   Store.loadReceipts (Examples.loaded, Examples.corrupt_web) =
     (Ok tt, (Store.initial, Examples.corrupt_web))) /\
  getReceiptById "1" Examples.unreachable =
    (Ok None, set_connection false O Examples.unreachable).
Proof.
  pose proof (read_failures_swallowed Examples.loaded Examples.corrupt_web "1")
    as (A & _ & _).
  pose proof (read_failures_swallowed Examples.loaded Examples.unreachable "1")
    as (_ & B & _).
  split.
  - exact (A "SyntaxError: JSON Parse error" Examples.corrupt_web eq_refl).
  - exact (B "Failed to establish database connection after retries"
             (set_connection false O Examples.unreachable) eq_refl).
Defined.

(** The receipt that cannot be reached is there: with the database open
    the same call finds it. *)
Lemma unreachable_receipt_exists :
  exists r w', getReceiptById "1" Examples.mobile1 = (Ok (Some r), w').
Proof. do 2 eexists. vm_compute. reflexivity. Qed.

End SwallowedFailures.

(** ** The end-to-end scenario of the specification *)

Section Scenario.

Import Database Model.

(** From an empty store: the draft of the cafe is added with no total;
    the store then holds one receipt, total spending is 4.5, all of it
    under ["Other"]; once the receipt is deleted, total spending is 0.
    The same on both backends. *)
Lemma scenario_web :
  let '(_, (s1, w1)) := Store.addReceipt Examples.cafe (Store.initial, Examples.web0) in
  let '(_, (s2, _)) := Store.deleteReceipt "1000.25" (s1, w1) in
  Store.getTotalSpending s1 = 4.5%Q /\
  Store.getCategorySpending s1 = [("Other", Js.Num 4.5%Q)] /\
  Store.getTotalSpending s2 = 0%Q.
Proof. vm_compute. repeat split. Qed.

Lemma scenario_mobile :
  let '(_, (s1, w1)) := Store.addReceipt Examples.cafe (Store.initial, Examples.mobile0) in
  let '(_, (s2, w2)) := Store.deleteReceipt "1" (s1, w1) in
  Store.getTotalSpending s1 = 4.5%Q /\
  Store.getCategorySpending s1 = [("Other", Js.Num 4.5%Q)] /\
  Store.getTotalSpending s2 = 0%Q /\
  items_tbl (sqlite w2) = [].
Proof. vm_compute. repeat split. Qed.

End Scenario.

(** * Further properties of the code *)

(** ** Identifiers: [toString] and [parseInt] *)

Section Identifiers.

Import Database Model.

Lemma read_digit_step (c : ascii) (k a : Z) (r : string) :
  Js.dec_val c = Some k ->
  Js.read_digits Js.dec_val 10 (Some a) (String c r) =
  Js.read_digits Js.dec_val 10 (Some (a * 10 + k)) r.
Proof. intros H. cbn [Js.read_digits]. rewrite H. reflexivity. Qed.

Lemma read_after_positive (d : Decimal.uint) (p : positive) :
  Js.read_digits Js.dec_val 10 (Some (Z.pos p)) (NilEmpty.string_of_uint d) =
  Some (Z.pos (Pos.of_uint_acc d p)).
Proof.
  revert p.
  induction d; intros p; cbn [NilEmpty.string_of_uint Pos.of_uint_acc];
    [reflexivity
    |erewrite read_digit_step by reflexivity; rewrite <- IHd; do 2 f_equal;
     match goal with
     | |- context [Js.digit_val ?c] =>
         let v := eval vm_compute in (Js.digit_val c) in
         change (Js.digit_val c) with v
     end; lia ..].
Qed.

Lemma read_after_zero (d : Decimal.uint) :
  Js.read_digits Js.dec_val 10 (Some 0) (NilEmpty.string_of_uint d) =
  Some (Z.of_N (Pos.of_uint d)).
Proof.
  induction d; cbn [NilEmpty.string_of_uint Pos.of_uint];
    [reflexivity
    |erewrite read_digit_step by reflexivity;
     first [exact IHd | apply read_after_positive] ..].
Qed.

Lemma read_unsigned (d : Decimal.uint) :
  d <> Decimal.Nil ->
  Js.read_digits Js.dec_val 10 None (NilEmpty.string_of_uint d) =
  Some (Z.of_N (Pos.of_uint d)).
Proof.
  destruct d; intros H; try congruence;
    cbn [NilEmpty.string_of_uint Pos.of_uint Js.read_digits];
    [apply read_after_zero | apply (read_after_positive d) ..].
Qed.

Lemma parseInt_unsigned (d : Decimal.uint) :
  d <> Decimal.Nil ->
  Js.parseInt (NilEmpty.string_of_uint d) = Some (Z.of_N (Pos.of_uint d)).
Proof.
  intros H. rewrite <- (read_unsigned d H).
  destruct d as [|d|d|d|d|d|d|d|d|d|d]; try congruence;
    [destruct d|..];
    cbn [NilEmpty.string_of_uint]; unfold Js.parseInt;
    match goal with
    | |- context [Js.trimStart (String ?c ?r)] =>
        change (Js.trimStart (String c r)) with (String c r)
    end;
    cbv beta iota zeta;
    match goal with
    | |- option_map _ ?x = _ => destruct x as [v|]; [|reflexivity]
    end; cbn [option_map]; rewrite Z.mul_1_l; reflexivity.
Qed.

Lemma parseInt_negative (d : Decimal.uint) :
  d <> Decimal.Nil ->
  Js.parseInt (String "-" (NilEmpty.string_of_uint d)) =
  Some (- Z.of_N (Pos.of_uint d)).
Proof.
  intros H.
  assert (E : Js.parseInt (String "-" (NilEmpty.string_of_uint d)) =
              option_map (Z.mul (-1))
                (Js.read_digits Js.dec_val 10 None (NilEmpty.string_of_uint d))).
  { destruct d as [|d|d|d|d|d|d|d|d|d|d]; try congruence;
      [destruct d|..];
      cbn [NilEmpty.string_of_uint]; unfold Js.parseInt;
      match goal with
      | |- context [Js.trimStart (String ?c ?r)] =>
          change (Js.trimStart (String c r)) with (String c r)
      end;
      cbv beta iota zeta; reflexivity. }
  rewrite E, (read_unsigned d H). cbn [option_map]. f_equal; lia.
Qed.

(** [parseInt(n.toString())] is [n], for every integer [n]: an id the
    relational backend gives out is read back as the id of its row. *)
Lemma parseInt_toString (n : Z) : Js.parseInt (Js.int_toString n) = Some n.
Proof.
  unfold Js.int_toString. destruct n as [|p|p]; [reflexivity| |]; simpl;
    unfold NilZero.string_of_uint;
    pose proof (Unsigned.to_uint_nonnil p) as H;
    destruct (Pos.to_uint p) eqn:E; try congruence; rewrite <- E in *.
  all: first [rewrite (parseInt_unsigned _ H) | rewrite (parseInt_negative _ H)];
    rewrite Unsigned.of_to; reflexivity.
Qed.

Lemma int_toString_inj (n m : Z) : Js.int_toString n = Js.int_toString m -> n = m.
Proof.
  intros H. apply (f_equal Js.parseInt) in H.
  rewrite !parseInt_toString in H. congruence.
Qed.

End Identifiers.

(** ** Integrity of the tables *)

Section Integrity.

Import Database Model.

Lemma distinct_keys_after_filter {Row K : Type} (key : Row -> K) (keep : Row -> bool) :
  forall rows, NoDup (map key rows) -> NoDup (map key (filter keep rows)).
Proof.
  intros rows. induction rows as [|row rest IH]; intros Distinct; [exact Distinct|].
  apply NoDup_cons_iff in Distinct. destruct Distinct as [Fresh Rest].
  cbn [filter]. destruct (keep row); [|exact (IH Rest)].
  cbn [map]. apply NoDup_cons; [|exact (IH Rest)].
  rewrite in_map_iff. intros (other & Same & Kept).
  apply filter_In in Kept. apply Fresh. rewrite <- Same.
  apply in_map. exact (proj1 Kept).
Qed.

Lemma item_rows_ids (rid first : Z) (l : list ReceiptItem) :
  NoDup (map it_id (item_rows rid first l)).
Proof.
  revert first. induction l as [|x t IH]; intros first; simpl; constructor.
  - intros I. apply in_map_iff in I. destruct I as (i & E & Ii).
    pose proof (item_rows_of rid (first + 1) t) as F.
    rewrite Forall_forall in F. specialize (F i Ii). simpl in E. lia.
  - apply IH.
Qed.

Lemma integrity_empty : integrity Examples.empty_db.
Proof. repeat split; constructor. Qed.

Lemma integrity_insert_items (rid : Z) (l : list ReceiptItem) (d : SqlDb) :
  (exists r, In r (receipts_tbl d) /\ row_id r = rid) ->
  integrity d -> integrity (insert_items rid l d).
Proof.
  intros (r & Ir & Er) (W & Nr & Ni & Fk).
  assert (Lt : rid < next_receipt_id d).
  { destruct W as [R _]. rewrite Forall_forall in R. subst rid. apply R, Ir. }
  split; [apply wf_insert_items; assumption|].
  rewrite insert_items_eq. simpl. split; [exact Nr|]. split.
  - rewrite map_app. apply NoDup_app; [exact Ni|apply item_rows_ids|].
    intros a Ia Ib. apply in_map_iff in Ia, Ib.
    destruct Ia as (i & <- & Ii). destruct Ib as (j & E & Ij).
    destruct W as [_ I]. rewrite Forall_forall in I. specialize (I i Ii).
    pose proof (item_rows_of rid (next_item_id d) l) as F.
    rewrite Forall_forall in F. specialize (F j Ij). simpl in F. lia.
  - apply Forall_app. split; [exact Fk|].
    eapply Forall_impl; [|apply item_rows_of]. simpl.
    intros i [E _]. exists r. split; [exact Ir|congruence].
Qed.

Lemma integrity_mobile_saved (w : World) (d : ReceiptData) :
  integrity (sqlite w) -> integrity (mobile_saved w d).
Proof.
  intros (W & Nr & Ni & Fk). unfold mobile_saved, insert_receipt.
  apply integrity_insert_items.
  - eexists. split; [apply in_or_app; right; left; reflexivity|reflexivity].
  - split; [|split; [|split]]; simpl.
    + match goal with
      | |- wf_db (mkDb (_ ++ [mkRow ?n ?m ?dt ?tot ?tx ?img ?cat ?t ?t]) _ _ _) =>
          exact (proj1 (wf_insert_receipt t m dt tot tx img cat (sqlite w) W))
      end.
    + rewrite map_app. apply NoDup_app; [exact Nr|repeat constructor; simpl; tauto|].
      intros a Ia [<- | []]. apply in_map_iff in Ia. destruct Ia as (r & E & Ir).
      destruct W as [R _]. rewrite Forall_forall in R. specialize (R r Ir).
      simpl in E. lia.
    + exact Ni.
    + eapply Forall_impl; [|exact Fk]. simpl. intros i (r & Ir & E).
      exists r. split; [apply in_or_app; left; exact Ir|exact E].
Qed.

Lemma integrity_delete_items (n : Z) (d : SqlDb) :
  integrity d -> integrity (delete_items n d).
Proof.
  intros (W & Nr & Ni & Fk). split; [apply wf_delete_items, W|]. simpl.
  split; [exact Nr|]. split; [apply distinct_keys_after_filter, Ni|].
  rewrite Forall_forall in *. intros i Ii. apply filter_In in Ii. apply Fk, Ii.
Qed.

Lemma integrity_update_receipt (t : Z) (m dt : string) (tot tx : Q)
    (img cat : option string) (n : Z) (d : SqlDb) :
  integrity d -> integrity (update_receipt t m dt tot tx img cat n d).
Proof.
  intros (W & Nr & Ni & Fk). split; [apply wf_update_receipt, W|]. simpl.
  assert (Ids : forall rows,
             map row_id
               (map (fun r => if row_id r =? n
                              then mkRow (row_id r) m dt tot tx img cat (created_at r) t
                              else r) rows) = map row_id rows).
  { intros rows. rewrite map_map. apply map_ext. intros r.
    destruct (row_id r =? n); reflexivity. }
  split; [rewrite Ids; exact Nr|]. split; [exact Ni|].
  eapply Forall_impl; [|exact Fk]. simpl. intros i (r & Ir & E).
  eexists. split; [apply in_map, Ir|].
  simpl. destruct (row_id r =? n); exact E.
Qed.

Lemma integrity_delete_receipt (n : Z) (d : SqlDb) :
  integrity d -> integrity (delete_receipt n d).
Proof.
  intros (W & Nr & Ni & Fk). split; [apply wf_delete_receipt, W|]. simpl.
  split; [apply distinct_keys_after_filter, Nr|]. split; [apply distinct_keys_after_filter, Ni|].
  rewrite Forall_forall in *. intros i Ii. apply filter_In in Ii.
  destruct Ii as [Ii Hn]. destruct (Fk i Ii) as (r & Ir & E).
  exists r. split; [|exact E]. apply filter_In. split; [exact Ir|].
  rewrite E. exact Hn.
Qed.

Lemma integrity_mobile_updated (w : World) (e : Receipt) (d : ReceiptData) (n : Z)
    (row : ReceiptRow) :
  find (fun r => row_id r =? n) (receipts_tbl (sqlite w)) = Some row ->
  integrity (sqlite w) -> integrity (mobile_updated w e d n).
Proof.
  intros F I. unfold mobile_updated.
  apply integrity_insert_items;
    [|apply integrity_delete_items, integrity_update_receipt, I].
  apply find_some in F. destruct F as [Ir E]. apply Z.eqb_eq in E.
  simpl. eexists. split; [apply in_map, Ir|].
  simpl. rewrite (proj2 (Z.eqb_eq _ _) E). exact E.
Qed.

(** Whatever the payload and whether it succeeds or throws, a call of
    the adapter leaves the tables with unique ids, below the counters,
    and without an item whose receipt is missing. *)
Theorem write_keeps_integrity (m : Mutation) (w w' : World) (r : Result unit) :
  integrity (sqlite w) -> backend_write m w = (r, w') -> integrity (sqlite w').
Proof.
  intros W.
  assert (F : forall w1, same_but_connection w w1 -> integrity (sqlite w1)).
  { intros w1 (_ & _ & -> & _). exact W. }
  destruct (platform w) eqn:P.
  - destruct m as [rc|rid d|rid]; simpl.
    + destruct (Store.save_payload rc) as [p|e]; [|inversion 1; subst; exact W].
      rewrite (save_web _ _ P).
      destruct (asyncStorage w); inversion 1; subst; exact W.
    + rewrite (update_web _ _ _ P).
      destruct (asyncStorage w) as [| |l]; try (inversion 1; subst; exact W).
      destruct (find _ l) as [e|]; [|inversion 1; subst; exact W].
      destruct (replace_first _ _ l); inversion 1; subst; exact W.
    + rewrite (delete_web _ _ P).
      destruct (asyncStorage w); inversion 1; subst; exact W.
  - pose proof (ensure_frame w) as E.
    destruct m as [rc|rid d|rid]; simpl.
    + destruct (Store.save_payload rc) as [p|e]; [|inversion 1; subst; exact W].
      rewrite (save_mobile _ _ P).
      destruct (ensureDatabaseConnection w) as [[[]|e] w1]; inversion 1; subst;
        simpl in E; [|exact (F _ E)].
      apply integrity_mobile_saved, (F _ E).
    + rewrite (update_mobile _ _ _ P).
      destruct (ensureDatabaseConnection w) as [[[]|e] w1]; simpl in E;
        [|inversion 1; subst; exact (F _ E)].
      destruct (Js.parseInt rid) as [n|]; [|inversion 1; subst; exact (F _ E)].
      destruct (find _ _) as [row|] eqn:Fd; inversion 1; subst; [|exact (F _ E)].
      apply (integrity_mobile_updated _ _ _ _ _ Fd), (F _ E).
    + rewrite (delete_mobile _ _ P).
      destruct (ensureDatabaseConnection w) as [[[]|e] w1]; simpl in E;
        inversion 1; subst; [|exact (F _ E)].
      destruct (Js.parseInt rid) as [n|]; [|exact (F _ E)].
      apply integrity_delete_receipt, (F _ E).
Qed.

Lemma write_keeps_integrity_witness :
  integrity (sqlite (snd (backend_write (Add Examples.cafe) Examples.mobile0))).
Proof.
  exact (write_keeps_integrity (Add Examples.cafe) Examples.mobile0 _ _
           integrity_empty eq_refl).
Defined.

End Integrity.

(** ** Round trips: save, list, fetch by id *)

Section RoundTrips.

Import Database Model.

Lemma find_app {A : Type} (p : A -> bool) (l l' : list A) :
  find p (l ++ l') = match find p l with Some x => Some x | None => find p l' end.
Proof.
  induction l as [|x t IH]; simpl; [reflexivity|].
  destruct (p x); [reflexivity|exact IH].
Qed.

Lemma find_unique {A B : Type} (f : A -> B) (p : A -> bool) (l : list A) (x : A) :
  NoDup (map f l) -> In x l -> p x = true ->
  (forall y, p y = true -> f y = f x) -> find p l = Some x.
Proof.
  intros N I Px Same. induction l as [|y t IH]; [destruct I|].
  simpl in *. inversion N as [|? ? Hy Nt]; subst.
  destruct (p y) eqn:Py.
  - destruct I as [-> | I]; [reflexivity|].
    exfalso. apply Hy. rewrite (Same y Py). apply in_map, I.
  - destruct I as [-> | I]; [congruence|]. exact (IH Nt I).
Qed.

(** A save, then a fetch by the id the new record has got, gives the new
    record back: with the defaults of the save in place of what the
    payload leaves out.  On the document backend the id must not be that
    of a record already stored. *)
Theorem save_then_get_by_id (d : ReceiptData) (w : World) :
  available w -> wf_db (sqlite w) ->
  (platform w = Web -> forall r, In r (stored w) -> id r <> fresh_id w) ->
  exists w',
    saveReceiptToDatabase d w = (Ok tt, w') /\
    getReceiptById (id (saved_record w d)) w' = (Ok (Some (saved_record w d)), w').
Proof.
  intros A W Fr. destruct (save_stored d w A W) as (w' & Sv & St).
  exists w'. split; [exact Sv|].
  destruct (platform w) eqn:P.
  - specialize (Fr eq_refl). rewrite (save_web _ _ P) in Sv.
    assert (P' : platform w' = Web).
    { destruct (asyncStorage w); inversion Sv; subst; exact P. }
    assert (B : asyncStorage w' = Stored (stored w ++ [saved_record w d])).
    { rewrite <- St. unfold stored. rewrite P'.
      destruct (asyncStorage w); inversion Sv; subst; reflexivity. }
    rewrite (getById_web _ _ P'), B, find_app.
    rewrite find_nothing.
    + assert (Id : id (saved_record w d) = fresh_id w)
        by (unfold saved_record; rewrite P; reflexivity).
      simpl. rewrite Id, String.eqb_refl. reflexivity.
    + intros r I E. apply String.eqb_eq in E. apply (Fr r I).
      rewrite E. unfold saved_record. rewrite P. reflexivity.
  - destruct (ensure_available _ P A) as [w1 E].
    rewrite (save_mobile _ _ P), E in Sv. injection Sv as Hw.
    destruct (ensure_ok _ _ E) as [S1 (P1 & B1 & D1 & N1 & T1 & _)].
    assert (P' : platform w' = Mobile) by (rewrite <- Hw; simpl; congruence).
    assert (S' : settled w') by (rewrite <- Hw; apply (settled_frame w1); auto).
    rewrite (getById_mobile _ _ P'), (ensure_settled _ S').
    unfold saved_record at 1. rewrite P. cbn [id]. rewrite parseInt_toString.
    unfold select_receipt.
    assert (Rows : receipts_tbl (sqlite w') =
                   (receipts_tbl (sqlite w) ++
                    [mkRow (next_receipt_id (sqlite w))
                       (Js.or_lit Js.truthy_str (d_merchantName d) "Unknown Store")
                       (Js.or_lit Js.truthy_str (d_date d) (today w))
                       (Js.or_lit Js.truthy_num
                          (Js.or Js.truthy_num (d_totalAmount d) (d_total d)) 0%Q)
                       (Js.or_lit Js.truthy_num (d_taxAmount d) 0%Q)
                       (column_of_image (image_or_null (d_imageUri d)))
                       (Some (Js.or_lit Js.truthy_str (d_category d) "Other"))
                       (now w) (now w)])%list).
    { rewrite <- Hw. cbn [sqlite set_sqlite]. unfold mobile_saved, insert_receipt.
      rewrite insert_items_eq. cbn [receipts_tbl]. rewrite D1, N1, T1. reflexivity. }
    rewrite Rows, find_app, find_nothing.
    + simpl find. rewrite Z.eqb_refl. cbn [option_map].
      unfold stored in St. rewrite P', P, Rows, map_app in St.
      apply app_inj_tail in St. destruct St as [_ St]. rewrite St. reflexivity.
    + intros r I Eq. apply Z.eqb_eq in Eq. destruct W as [R _].
      rewrite Forall_forall in R. specialize (R r I). lia.
Qed.

Lemma save_then_get_by_id_witness :
  exists w',
    saveReceiptToDatabase (as_data Examples.cafe) Examples.mobile1 = (Ok tt, w') /\
    getReceiptById "2" w' =
      (Ok (Some (saved_record Examples.mobile1 (as_data Examples.cafe))), w').
Proof.
  apply (save_then_get_by_id (as_data Examples.cafe) Examples.mobile1).
  - left. reflexivity.
  - exact (write_keeps_wf (Add Examples.cafe) Examples.mobile0 _ _ wf_empty eq_refl).
  - discriminate.
Defined.

Lemma save_settles (d : ReceiptData) (w w' : World) :
  saveReceiptToDatabase d w = (Ok tt, w') -> settled w' /\ available w'.
Proof.
  intros Sv. unfold settled, available. destruct (platform w) eqn:P.
  - rewrite (save_web _ _ P) in Sv.
    destruct (asyncStorage w); inversion Sv; subst; simpl; rewrite P;
      split; try exact I; discriminate.
  - rewrite (save_mobile _ _ P) in Sv.
    destruct (ensureDatabaseConnection w) as [[[]|e] w1] eqn:E; [|discriminate].
    destruct (ensure_ok _ _ E) as [S1 (P1 & _)].
    injection Sv as <-. unfold settled in S1. simpl. rewrite P1, P in *. auto.
Qed.

(** A save adds exactly one record to the listing: what is listed after
    it is the new record together with what was listed before. *)
Theorem save_adds_one_to_listing (d : ReceiptData) (w w0 : World) (l0 : list Receipt) :
  available w -> wf_db (sqlite w) ->
  getAllReceiptsFromDatabase w = (Ok l0, w0) ->
  exists w' l',
    saveReceiptToDatabase d w = (Ok tt, w') /\
    getAllReceiptsFromDatabase w' = (Ok l', w') /\
    Permutation l' (saved_record w d :: l0).
Proof.
  intros A W G0. destruct (save_stored d w A W) as (w' & Sv & St).
  destruct (save_settles _ _ _ Sv) as [S' A'].
  pose proof (getAll_settled _ S') as G.
  destruct (getAll_total w') as (l' & w2 & R). rewrite R in G. simpl in G. subst w2.
  exists w', l'. split; [exact Sv|]. split; [exact R|].
  rewrite (listing_permutes_stored _ _ _ A' R), St.
  rewrite (listing_permutes_stored _ _ _ A G0).
  symmetry. apply Permutation_cons_append.
Qed.

Lemma save_adds_one_to_listing_witness :
  exists w' l',
    saveReceiptToDatabase (as_data Examples.cafe) Examples.legacy_web = (Ok tt, w') /\
    getAllReceiptsFromDatabase w' = (Ok l', w') /\
    Permutation l'
      [saved_record Examples.legacy_web (as_data Examples.cafe); Examples.legacy].
Proof.
  apply (save_adds_one_to_listing (as_data Examples.cafe) Examples.legacy_web
           Examples.legacy_web [Examples.legacy]).
  - discriminate.
  - exact wf_empty.
  - reflexivity.
Defined.

(** Every receipt of the listing is found again under its own id,
    provided no two stored receipts share an id. *)
Theorem listed_receipt_found_by_id (w w1 : World) (l : list Receipt) (r : Receipt) :
  available w -> NoDup (map id (stored w)) ->
  getAllReceiptsFromDatabase w = (Ok l, w1) -> In r l ->
  fst (getReceiptById (id r) w) = Ok (Some r).
Proof.
  intros A N G I. destruct (platform w) eqn:P.
  - rewrite (getAll_web _ P) in G. rewrite (getById_web _ _ P).
    unfold stored in N. rewrite P in N. simpl.
    destruct (asyncStorage w) as [| |l1]; inversion G; subst; try destruct I.
    f_equal. apply (find_unique id); auto.
    + apply String.eqb_refl.
    + intros y E. apply String.eqb_eq, E.
  - destruct (ensure_available _ P A) as [w2 E].
    rewrite (getAll_mobile _ P), E in G. rewrite (getById_mobile _ _ P), E.
    destruct (ensure_ok _ _ E) as [_ (_ & _ & D & _)].
    injection G as <- <-. rewrite D in *.
    apply in_map_iff in I. destruct I as (row & <- & Ir).
    apply (Permutation_in _ (select_receipts_desc_perm (sqlite w))) in Ir.
    simpl. rewrite parseInt_toString. unfold select_receipt.
    unfold stored in N. rewrite P, map_map in N. simpl in N.
    rewrite (find_unique (fun r => Js.int_toString (row_id r)) _ _ row N Ir).
    + reflexivity.
    + apply Z.eqb_refl.
    + intros y Ey. apply Z.eqb_eq in Ey. rewrite Ey. reflexivity.
Qed.

Lemma listed_receipt_found_by_id_witness :
  exists r,
    id r = "1" /\
    fst (getReceiptById (id r) (Examples.after_two_saves Examples.mobile0)) =
    Ok (Some r).
Proof.
  let l := eval vm_compute in
    (fst (getAllReceiptsFromDatabase (Examples.after_two_saves Examples.mobile0))) in
  match l with Ok [_; ?r] => exists r end.
  split; [reflexivity|].
  refine (listed_receipt_found_by_id (Examples.after_two_saves Examples.mobile0)
            _ _ _ _ _ eq_refl _).
  - left. reflexivity.
  - vm_compute. repeat constructor; simpl; intuition discriminate.
  - right. left. reflexivity.
Defined.

End RoundTrips.

(** ** Deleting *)

Section Deleting.

Import Database Model.

Lemma filter_twice {A : Type} (p q : A -> bool) (l : list A) :
  (forall x, p x = true -> q x = true) ->
  filter p (filter q l) = filter p l.
Proof.
  intros H. induction l as [|x t IH]; simpl; [reflexivity|].
  destruct (q x) eqn:Q; simpl.
  - rewrite IH. reflexivity.
  - destruct (p x) eqn:Px; [rewrite (H _ Px) in Q; discriminate|exact IH].
Qed.

(** The items of a receipt other than [n] after the rows of [n] are gone. *)
Lemma receipt_of_row_after_delete (n : Z) (d : SqlDb) (rows : list ReceiptRow)
    (c1 c2 : Z) (r : ReceiptRow) :
  row_id r <> n ->
  receipt_of_row
    (mkDb rows (filter (fun i => negb (receipt_id i =? n)) (items_tbl d)) c1 c2) r =
  receipt_of_row d r.
Proof.
  intros H. unfold receipt_of_row, select_items. simpl.
  rewrite filter_twice; [reflexivity|].
  intros i E. apply Z.eqb_eq in E. apply negb_true_iff, Z.eqb_neq. lia.
Qed.

(** After a delete that succeeded, a fetch by the same id gives [null],
    and on the relational backend no item of the receipt is left. *)
Theorem delete_then_get (rid : string) (w w' : World) :
  deleteReceiptFromDatabase rid w = (Ok tt, w') ->
  getReceiptById rid w' = (Ok None, w') /\
  (platform w = Mobile ->
   forall n, Js.parseInt rid = Some n -> select_items (sqlite w') n = []).
Proof.
  intros Dl. destruct (platform w) eqn:P.
  - rewrite (delete_web _ _ P) in Dl. split; [|discriminate].
    assert (P' : platform w' = Web)
      by (destruct (asyncStorage w); inversion Dl; subst; exact P).
    rewrite (getById_web _ _ P').
    destruct (asyncStorage w); inversion Dl; subst; simpl; try reflexivity.
    rewrite find_nothing; [reflexivity|].
    intros r I E. apply filter_In in I. destruct I as [_ I].
    rewrite E in I. discriminate.
  - rewrite (delete_mobile _ _ P) in Dl.
    destruct (ensureDatabaseConnection w) as [[[]|e] w1] eqn:E; [|discriminate].
    destruct (ensure_ok _ _ E) as [S1 (P1 & _)].
    injection Dl as Hw.
    assert (P' : platform w' = Mobile)
      by (rewrite <- Hw; destruct (Js.parseInt rid); simpl; congruence).
    assert (S' : settled w')
      by (rewrite <- Hw; destruct (Js.parseInt rid);
          [apply (settled_frame w1)|]; auto).
    rewrite (getById_mobile _ _ P'), (ensure_settled _ S'). unfold select_receipt.
    destruct (Js.parseInt rid) as [n|] eqn:I.
    + rewrite <- Hw. simpl. split.
      * rewrite find_nothing; [reflexivity|].
        intros r Ir Er. apply filter_In in Ir. destruct Ir as [_ Ir].
        rewrite Er in Ir. discriminate.
      * intros _ m [= <-]. unfold select_items. simpl. apply filter_none.
        rewrite Forall_forall. intros i Ii. apply filter_In in Ii.
        destruct Ii as [_ Ii]. apply negb_true_iff, Ii.
    + split; [reflexivity|discriminate].
Qed.

Lemma delete_then_get_witness :
  getReceiptById "1"
    (snd (deleteReceiptFromDatabase "1" Examples.mobile1)) =
    (Ok None, snd (deleteReceiptFromDatabase "1" Examples.mobile1)) /\
  select_items (sqlite (snd (deleteReceiptFromDatabase "1" Examples.mobile1))) 1 = [].
Proof.
  pose proof (delete_then_get "1" Examples.mobile1 _ eq_refl) as [G I].
  split; [exact G|]. exact (I eq_refl 1 eq_refl).
Defined.

(** With the backend in reach a delete always succeeds.  It removes the
    receipts the id names and leaves every other stored receipt as it
    was, items included; for an id that names nothing, storage is as
    before and nothing is thrown. *)
Theorem delete_removes_only_its_target (rid : string) (w : World) :
  available w ->
  exists w',
    deleteReceiptFromDatabase rid w = (Ok tt, w') /\
    stored w' = filter (fun r => negb (addressed w rid r)) (stored w) /\
    (~ resolves w rid -> stored w' = stored w).
Proof.
  intros A. destruct (platform w) eqn:P.
  - rewrite (delete_web _ _ P). unfold available in A. rewrite P in A.
    unfold stored, addressed, resolves. rewrite P.
    destruct (asyncStorage w) as [| |l] eqn:B; [|congruence|];
      eexists; (split; [reflexivity|]); simpl; rewrite P; split; try reflexivity.
    intros N. apply filter_all. rewrite Forall_forall. intros r I.
    apply negb_true_iff. destruct (String.eqb (id r) rid) eqn:E; [|reflexivity].
    exfalso. apply N. exists l, r. apply String.eqb_eq in E. auto.
  - destruct (ensure_available _ P A) as [w1 E].
    rewrite (delete_mobile _ _ P), E.
    destruct (ensure_ok _ _ E) as [_ (P1 & B1 & D1 & _)].
    eexists. split; [reflexivity|].
    unfold stored, addressed, resolves. rewrite P.
    destruct (Js.parseInt rid) as [n|] eqn:I; simpl; rewrite P1, P, ?D1.
    + assert (K : map (receipt_of_row (delete_receipt n (sqlite w)))
                    (filter (fun r => negb (row_id r =? n)) (receipts_tbl (sqlite w))) =
                  filter (fun r => negb
                            match Js.parseInt (id r) with
                            | Some m => n =? m
                            | None => false
                            end)
                         (map (receipt_of_row (sqlite w)) (receipts_tbl (sqlite w)))).
      { rewrite filter_map_swap. simpl.
        rewrite (filter_ext (fun a => negb
                   match Js.parseInt (Js.int_toString (row_id a)) with
                   | Some m => n =? m
                   | None => false
                   end) (fun r => negb (row_id r =? n))).
        - apply map_ext_in. intros r Ir. apply filter_In in Ir.
          destruct Ir as [_ Ir]. apply negb_true_iff, Z.eqb_neq in Ir.
          apply receipt_of_row_after_delete, Ir.
        - intros r. rewrite parseInt_toString, Z.eqb_sym. reflexivity. }
      split; [exact K|]. intros N. rewrite K. apply filter_all.
      rewrite Forall_forall. intros r Ir. apply in_map_iff in Ir.
      destruct Ir as (row & <- & Irow). simpl. rewrite parseInt_toString.
      apply negb_true_iff, Z.eqb_neq. intros Hn. apply N. exists n, row. auto.
    + split; [|reflexivity]. symmetry. apply filter_all.
      rewrite Forall_forall. reflexivity.
Qed.

Lemma delete_removes_only_its_target_witness :
  exists w',
    deleteReceiptFromDatabase "8" Examples.legacy_web = (Ok tt, w') /\
    stored w' = [Examples.legacy].
Proof.
  destruct (delete_removes_only_its_target "8" Examples.legacy_web)
    as (w' & D & _ & S).
  - discriminate.
  - exists w'. split; [exact D|]. apply S.
    intros (l & r & B & I & E). simpl in B. injection B as <-.
    destruct I as [<- | []]. discriminate E.
Defined.

End Deleting.

(** ** Updating *)

Section Updating.

Import Database Model.

Lemma find_replace_other (p q : Receipt -> bool) (f : Receipt -> Receipt)
    (l l' : list Receipt) :
  (forall x, q (f x) = q x) -> (forall x, p x = true -> q x = false) ->
  replace_first p f l = Some l' -> find q l' = find q l.
Proof.
  intros Hf Hp. revert l'. induction l as [|r t IH]; intros l'; simpl; [discriminate|].
  destruct (p r) eqn:E.
  - intros [= <-]. simpl. rewrite Hf, (Hp _ E). reflexivity.
  - destruct (replace_first p f t) as [t'|]; [|discriminate].
    intros [= <-]. simpl. rewrite (IH t' eq_refl). reflexivity.
Qed.

Lemma find_other_row (n m : Z) (f : ReceiptRow -> ReceiptRow) (rows : list ReceiptRow) :
  n <> m -> (forall r, row_id (f r) = row_id r) ->
  find (fun r => row_id r =? m) (map (fun r => if row_id r =? n then f r else r) rows) =
  find (fun r => row_id r =? m) rows.
Proof.
  intros H Hf. induction rows as [|r t IH]; simpl; [reflexivity|].
  destruct (row_id r =? n) eqn:E.
  - apply Z.eqb_eq in E. rewrite Hf.
    replace (row_id r =? m) with false by (symmetry; apply Z.eqb_neq; lia).
    exact IH.
  - destruct (row_id r =? m); [reflexivity|exact IH].
Qed.

(** An update that succeeded changes the receipt its id names and no
    other: a fetch by an id that names another record gives what it gave
    before. *)
Theorem update_keeps_others (rid rid' : string) (d : ReceiptData) (w w' : World) :
  updateReceiptInDatabase rid d w = (Ok tt, w') ->
  ~ same_target w rid rid' ->
  fst (getReceiptById rid' w') = fst (getReceiptById rid' w).
Proof.
  intros U N. unfold same_target in N. destruct (platform w) eqn:P.
  - rewrite (update_web _ _ _ P) in U.
    destruct (asyncStorage w) as [| |l] eqn:B; try discriminate.
    destruct (find _ l) as [e|] eqn:F; [|discriminate].
    destruct (replace_first _ _ l) as [l'|] eqn:R; injection U as <-;
      [|reflexivity].
    rewrite !getById_web by exact P. simpl. rewrite B. f_equal.
    apply (find_replace_other (fun r => String.eqb (id r) rid)
             (fun r => String.eqb (id r) rid') (web_updated w e d) l l');
      [reflexivity| |exact R].
    intros x E. apply String.eqb_eq in E. apply String.eqb_neq. congruence.
  - rewrite (update_mobile _ _ _ P) in U. rewrite (getById_mobile _ _ P).
    destruct (ensureDatabaseConnection w) as [[[]|er] w1] eqn:E; [|discriminate].
    destruct (ensure_ok _ _ E) as [S1 (P1 & _)].
    destruct (Js.parseInt rid) as [n|] eqn:I; [|discriminate].
    destruct (find _ _) as [row|] eqn:F; [|discriminate].
    injection U as Hw.
    assert (P' : platform w' = Mobile) by (rewrite <- Hw; simpl; congruence).
    assert (S' : settled w') by (rewrite <- Hw; apply (settled_frame w1); auto).
    rewrite (getById_mobile _ _ P'), (ensure_settled _ S').
    cbn [fst]. f_equal. unfold select_receipt.
    destruct (Js.parseInt rid') as [m|]; [|reflexivity].
    assert (Hm : n <> m) by congruence.
    rewrite <- Hw. cbn [sqlite set_sqlite]. unfold mobile_updated at 2.
    rewrite insert_items_eq. cbn [receipts_tbl delete_items update_receipt].
    rewrite (find_other_row n m) by (auto; reflexivity).
    destruct (find (fun r => row_id r =? m) (receipts_tbl (sqlite w1))) as [r|] eqn:Fm;
      [|reflexivity].
    cbn [option_map]. f_equal.
    assert (Rm : row_id r = m).
    { apply find_some in Fm. destruct Fm as [_ Fm]. apply Z.eqb_eq, Fm. }
    unfold mobile_updated. rewrite insert_items_eq.
    unfold receipt_of_row, select_items.
    cbn [items_tbl delete_items update_receipt]. rewrite Rm.
    rewrite filter_app, select_new_items.
    replace (n =? m) with false by (symmetry; apply Z.eqb_neq; exact Hm).
    rewrite app_nil_r, filter_twice; [reflexivity|].
    intros i Ei. apply Z.eqb_eq in Ei. apply negb_true_iff, Z.eqb_neq. lia.
Qed.

Lemma update_keeps_others_witness :
  fst (getReceiptById "2"
         (snd (updateReceiptInDatabase "1" (Examples.only_items Examples.tea)
                 (Examples.after_two_saves Examples.mobile0)))) =
  fst (getReceiptById "2" (Examples.after_two_saves Examples.mobile0)).
Proof.
  apply (update_keeps_others "1" "2" (Examples.only_items Examples.tea)
           (Examples.after_two_saves Examples.mobile0) _ eq_refl).
  discriminate.
Defined.

(** The record a fetch gives after an update of a record that a fetch
    found. *)
Lemma update_then_get (w w1 : World) (rid : string) (e : Receipt) (d : ReceiptData) :
  getReceiptById rid w = (Ok (Some e), w1) ->
  exists w',
    updateReceiptInDatabase rid d w = (Ok tt, w') /\
    getReceiptById rid w' = (Ok (Some (updated_record w e d)), w').
Proof.
  intros G. unfold updated_record. destruct (platform w) eqn:P.
  - rewrite (getById_web _ _ P) in G. rewrite (update_web _ _ _ P).
    destruct (asyncStorage w) as [| |l] eqn:B; try discriminate.
    destruct (find _ l) as [e0|] eqn:F; [|discriminate].
    injection G as -> _.
    destruct (replace_first_find (fun r => String.eqb (id r) rid) (web_updated w e d) l)
      as [l' R]; [congruence|].
    rewrite R. eexists. split; [reflexivity|].
    rewrite getById_web by exact P. simpl.
    rewrite (find_replace_first (fun r => String.eqb (id r) rid) (web_updated w e d)
               l l' (fun x H => H) R), F. reflexivity.
  - rewrite (getById_mobile _ _ P) in G. rewrite (update_mobile _ _ _ P).
    destruct (ensureDatabaseConnection w) as [[[]|er] w0] eqn:E; [|discriminate].
    destruct (ensure_ok _ _ E) as [S0 (P0 & _ & D0 & N0 & T0 & _)].
    unfold select_receipt in G.
    destruct (Js.parseInt rid) as [n|] eqn:I; [|discriminate].
    destruct (find _ _) as [row|] eqn:F; [|discriminate].
    cbn [option_map] in G. injection G as <- _.
    set (e0 := receipt_of_row (sqlite w0) row).
    set (w' := set_sqlite (mobile_updated w0 e0 d n) w0).
    assert (P' : platform w' = Mobile) by (simpl; congruence).
    assert (S' : settled w') by (apply (settled_frame w0); auto).
    exists w'. split; [reflexivity|].
    rewrite (getById_mobile _ _ P'), (ensure_settled _ S'), I.
    unfold select_receipt, w'. cbn [sqlite set_sqlite].
    unfold mobile_updated at 2. rewrite insert_items_eq.
    cbn [receipts_tbl delete_items update_receipt].
    rewrite find_updated_row by reflexivity. rewrite F. cbn [option_map].
    assert (Rn : row_id row = n).
    { apply find_some in F. destruct F as [_ F]. apply Z.eqb_eq, F. }
    do 2 f_equal.
    unfold receipt_of_row at 1, select_items.
    cbn [row_id merchant_name row_date total_amount tax_amount image_uri
         row_category created_at updated_at].
    unfold mobile_updated. rewrite insert_items_eq.
    cbn [items_tbl delete_items update_receipt next_item_id].
    rewrite Rn, filter_app, select_new_items, Z.eqb_refl.
    rewrite filter_none.
    + simpl app. rewrite item_rows_written.
      unfold upd_date. rewrite N0, T0, D0. subst e0. simpl. rewrite Rn. reflexivity.
    + rewrite Forall_forall. intros i Hi. apply filter_In in Hi.
      destruct Hi as [_ Hi]. apply negb_true_iff. exact Hi.
Qed.

(** An update keeps the identity of the record and what the payload
    leaves out: the id and the creation time stay, the time of the update
    becomes the current time, and a field that is absent from the payload
    keeps the value the record had, whenever that value is truthy. *)
Theorem update_keeps_what_is_omitted (w w1 : World) (rid : string) (e : Receipt)
    (d : ReceiptData) :
  getReceiptById rid w = (Ok (Some e), w1) ->
  exists w' r,
    updateReceiptInDatabase rid d w = (Ok tt, w') /\
    getReceiptById rid w' = (Ok (Some r), w') /\
    id r = id e /\ createdAt r = createdAt e /\ updatedAt r = Some (now w) /\
    (d_merchantName d = None ->
     forall m, merchantName e = Some m -> Js.truthy_str m = true ->
               merchantName r = Some m) /\
    (d_date d = None ->
     forall m, date e = Some m -> Js.truthy_str m = true -> date r = Some m) /\
    (d_category d = None ->
     forall m, category e = Some m -> Js.truthy_str m = true ->
               category r = Some m) /\
    (d_totalAmount d = None -> d_total d = None ->
     forall t, totalAmount e = Some t -> Js.truthy_num t = true ->
               totalAmount r = Some t) /\
    (d_taxAmount d = None -> d_tax d = None ->
     forall t, taxAmount e = Some t -> Js.truthy_num t = true ->
               taxAmount r = Some t).
Proof.
  intros G. destruct (update_then_get w w1 rid e d G) as (w' & U & G').
  exists w', (updated_record w e d). split; [exact U|]. split; [exact G'|].
  unfold updated_record.
  destruct (platform w); cbn [id createdAt updatedAt merchantName date category
    totalAmount taxAmount web_updated];
    (split; [reflexivity|]); (split; [reflexivity|]); (split; [reflexivity|]);
    unfold upd_merchantName, upd_date, upd_category, upd_totalAmount, upd_taxAmount;
    repeat split; intros;
    repeat match goal with H : _ = None |- _ => rewrite H end;
    repeat match goal with H : _ = Some _ |- _ => rewrite H end;
    unfold Js.or, Js.or_lit;
    repeat match goal with H : _ = true |- _ => rewrite H end; reflexivity.
Qed.

Lemma update_keeps_what_is_omitted_witness :
  exists w' r,
    updateReceiptInDatabase "1" (Examples.only_items Examples.tea) Examples.mobile1 =
      (Ok tt, w') /\
    getReceiptById "1" w' = (Ok (Some r), w') /\
    id r = "1" /\ merchantName r = Some "Cafe X" /\ totalAmount r = Some 4.5%Q.
Proof.
  destruct (update_keeps_what_is_omitted Examples.mobile1 Examples.mobile1 "1"
              (Database.receipt_of_row (sqlite Examples.mobile1)
                 (mkRow 1 "Cafe X" "2024-01-01" 4.5 0 None (Some "Other") 1000 1000))
              (Examples.only_items Examples.tea) eq_refl)
    as (w' & r & U & G & I & _ & _ & M & _ & _ & T & _).
  exists w', r. split; [exact U|]. split; [exact G|]. split; [exact I|].
  split; [exact (M eq_refl _ eq_refl eq_refl)|exact (T eq_refl eq_refl _ eq_refl eq_refl)].
Defined.

End Updating.

(** ** The store when a write fails, and the calls that only read *)

Section FailuresAndReads.

Import Database Model.

(** When the write of a mutating call throws, the store throws the same
    error, keeps the list it had, records the message of the call in
    [error] and is no longer loading. *)
Theorem failed_mutation_keeps_list (m : Mutation) (s : Store.State) (w w1 : World)
    (e : string) :
  backend_write m w = (Throw e, w1) ->
  run m (s, w) =
  (Throw e,
   (Store.mkState (Store.receipts s) (Store.chatMessages s) false
      (Some (failure_message m)), w1)).
Proof. intros B. rewrite run_eq, B. reflexivity. Qed.

Lemma failed_mutation_keeps_list_witness :
  run (Update "8" (Examples.only_items Examples.tea))
      (Examples.loaded, Examples.legacy_web) =
  (Throw "Receipt not found",
   (Store.mkState [Examples.legacy] [] false (Some "Failed to update receipt"),
    Examples.legacy_web)).
Proof.
  exact (failed_mutation_keeps_list (Update "8" (Examples.only_items Examples.tea))
           Examples.loaded Examples.legacy_web Examples.legacy_web
           "Receipt not found" eq_refl).
Defined.

(** The calls that read change nothing of what is stored, whether they
    find the backend or not. *)
Theorem reads_leave_storage (w : World) (rid : string) (n : Z) :
  same_storage w (snd (getAllReceiptsFromDatabase w)) /\
  same_storage w (snd (getReceiptById rid w)) /\
  same_storage w (snd (getReceiptInsights w)) /\
  same_storage w (snd (getReceiptItems n w)).
Proof.
  assert (All : same_storage w (snd (getAllReceiptsFromDatabase w))).
  { destruct (platform w) eqn:P.
    - rewrite (getAll_web _ P). split; reflexivity.
    - rewrite (getAll_mobile _ P). pose proof (ensure_frame w) as (_ & B & D & _).
      destruct (ensureDatabaseConnection w) as [[[]|e] w1]; split; assumption. }
  assert (One : forall x, same_storage w (snd (getReceiptById x w))).
  { intros x. destruct (platform w) eqn:P.
    - rewrite (getById_web _ _ P). split; reflexivity.
    - rewrite (getById_mobile _ _ P). pose proof (ensure_frame w) as (_ & B & D & _).
      destruct (ensureDatabaseConnection w) as [[[]|e] w1]; split; assumption. }
  split; [exact All|]. split; [apply One|]. split.
  - unfold getReceiptInsights, try_catch, bind.
    destruct (getAllReceiptsFromDatabase w) as [[l|e] w1]; simpl in *; [|exact All].
    destruct (compute_insights l); exact All.
  - unfold getReceiptItems, try_catch, bind. specialize (One (Js.int_toString n)).
    destruct (getReceiptById (Js.int_toString n) w) as [[r|e] w1]; exact One.
Qed.

(** On the relational backend [getReceiptItems] of a number gives the
    rows of [receipt_items] that belong to the receipt with that id, and
    nothing when there is no such receipt. *)
Theorem getReceiptItems_mobile (n : Z) (w : World) :
  platform w = Mobile -> available w ->
  fst (getReceiptItems n w) =
  Ok (if existsb (fun r => row_id r =? n) (receipts_tbl (sqlite w))
      then map item_of_row (select_items (sqlite w) n)
      else []).
Proof.
  intros P A. destruct (ensure_available _ P A) as [w1 E].
  destruct (ensure_ok _ _ E) as [_ (_ & _ & D & _)].
  unfold getReceiptItems, try_catch, bind.
  rewrite (getById_mobile _ _ P), E, parseInt_toString, D. unfold select_receipt.
  destruct (find _ _) as [row|] eqn:F; simpl.
  - pose proof (find_some _ _ F) as [I Eq].
    replace (existsb _ _) with true
      by (symmetry; apply existsb_exists; exists row; auto).
    apply Z.eqb_eq in Eq. rewrite Eq. reflexivity.
  - replace (existsb _ _) with false; [reflexivity|].
    symmetry. apply not_true_is_false. intros Ex. apply existsb_exists in Ex.
    destruct Ex as (row & I & Eq). apply (find_none _ _ F) in I. congruence.
Qed.

Lemma getReceiptItems_mobile_witness :
  fst (getReceiptItems 1 Examples.mobile1) =
  Ok [mkItem "1" "Latte" 1 4.5 (Some "Other")].
Proof.
  exact (getReceiptItems_mobile 1 Examples.mobile1 eq_refl (or_introl eq_refl)).
Defined.

End FailuresAndReads.

(** ** Opening the database *)

Section Opening.

Import Database Model.

(** With no handle, [ensureDatabaseConnection] tries twice: it succeeds
    when at most one attempt fails, and it throws, after exactly two
    attempts and still without a handle, when both fail. *)
Theorem connection_retries_once (w : World) :
  platform w = Mobile -> mobileDb w = false ->
  ((open_failures w <= 1)%nat ->
   ensureDatabaseConnection w = (Ok tt, set_connection true O w)) /\
  ((2 <= open_failures w)%nat ->
   ensureDatabaseConnection w =
   (Throw "Failed to establish database connection after retries",
    set_connection false (open_failures w - 2) w)).
Proof.
  destruct w as [p b h n d t td i]. simpl. intros -> ->.
  split; intros H.
  - destruct n as [|[|n]]; [reflexivity..|lia].
  - destruct n as [|[|n]]; [lia..|].
    unfold set_connection. simpl. rewrite Nat.sub_0_r. reflexivity.
Qed.

Lemma connection_retries_once_witness :
  ensureDatabaseConnection Examples.mobile0 =
    (Ok tt, set_connection true O Examples.mobile0) /\
  ensureDatabaseConnection Examples.unreachable =
    (Throw "Failed to establish database connection after retries",
     set_connection false 0 Examples.unreachable).
Proof.
  split.
  - apply (proj1 (connection_retries_once Examples.mobile0 eq_refl eq_refl)).
    simpl. lia.
  - apply (proj2 (connection_retries_once Examples.unreachable eq_refl eq_refl)).
    simpl. lia.
Defined.

Lemma initDatabase_eq (w : World) :
  initDatabase w =
  match platform w with
  | Web => (Ok tt, w)
  | Mobile =>
      if mobileDb w then (Ok tt, w)
      else match open_failures w with
           | O => (Ok tt, set_connection true O w)
           | S n => (Throw "Failed to initialize SQLite database",
                     set_connection false n w)
           end
  end.
Proof.
  unfold initDatabase. rewrite rethrow_id.
  destruct w as [p b h n d t td i]. destruct p; [reflexivity|].
  destruct h; [reflexivity|]. destruct n; reflexivity.
Qed.

(** [initializeDatabase] throws nothing and ends not loading.  It opens
    the database with one attempt only: on the phone, without a handle and
    with a first attempt that fails, it records
    ['Failed to initialize database'] and leaves the list as it was; in
    every other case it records no error and the list is the listing of
    the backend. *)
Theorem initializeDatabase_outcome (s : Store.State) (w : World) :
  exists s' w',
    Store.initializeDatabase (s, w) = (Ok tt, (s', w')) /\
    Store.isLoading s' = false /\
    Store.chatMessages s' = Store.chatMessages s /\
    (platform w = Mobile -> mobileDb w = false -> (1 <= open_failures w)%nat ->
     Store.error s' = Some "Failed to initialize database" /\
     Store.receipts s' = Store.receipts s /\
     w' = set_connection false (open_failures w - 1) w) /\
    (platform w = Web \/ mobileDb w = true \/ open_failures w = O ->
     Store.error s' = None /\
     getAllReceiptsFromDatabase w' = (Ok (Store.receipts s'), w')).
Proof.
  unfold Store.initializeDatabase, finally, try_catch, bind at 1 2,
    Store.set_loading_no_error, modify, Store.call.
  rewrite initDatabase_eq.
  assert (Load : forall w0, settled w0 ->
            exists l,
              Store.loadReceipts
                (Store.mkState (Store.receipts s) (Store.chatMessages s) true None, w0) =
                (Ok tt, (Store.mkState l (Store.chatMessages s) false None, w0)) /\
              getAllReceiptsFromDatabase w0 = (Ok l, w0)).
  { intros w0 S0. pose proof (getAll_settled _ S0) as G.
    destruct (getAll_total w0) as (l & w2 & R). rewrite R in G. simpl in G. subst w2.
    exists l. split; [|exact R].
    exact (loadReceipts_eq
             (Store.mkState (Store.receipts s) (Store.chatMessages s) true None)
             w0 l w0 R). }
  destruct (platform w) eqn:P.
  - destruct (Load w) as (l & L & G); [unfold settled; rewrite P; exact I|].
    rewrite L. do 2 eexists. split; [reflexivity|]. simpl.
    repeat split; auto; discriminate.
  - destruct (mobileDb w) eqn:H.
    + destruct (Load w) as (l & L & G); [unfold settled; rewrite P; exact H|].
      rewrite L. do 2 eexists. split; [reflexivity|]. simpl.
      repeat split; auto; discriminate.
    + destruct (open_failures w) as [|n] eqn:Fl.
      * destruct (Load (set_connection true 0%nat w)) as (l & L & G);
          [unfold settled; simpl; rewrite P; reflexivity|].
        rewrite L. do 2 eexists. split; [reflexivity|]. simpl.
        repeat split; auto; lia.
      * do 2 eexists. split; [reflexivity|]. simpl.
        split; [reflexivity|]. split; [reflexivity|]. split.
        -- intros _ _ _. rewrite Nat.sub_0_r. auto.
        -- intros [X | [X | X]]; discriminate.
Qed.

Lemma initializeDatabase_outcome_witness :
  exists s' w',
    Store.initializeDatabase (Examples.loaded, Examples.mobile0) = (Ok tt, (s', w')) /\
    Store.error s' = Some "Failed to initialize database" /\
    Store.receipts s' = [Examples.legacy].
Proof.
  destruct (initializeDatabase_outcome Examples.loaded Examples.mobile0)
    as (s' & w' & I & _ & _ & F & _).
  exists s', w'. split; [exact I|].
  destruct F as (E & R & _); [reflexivity|reflexivity|simpl; lia|]. auto.
Defined.

End Opening.

(** ** The item that stands for the missing ones *)

Section Coercion.

Import Database Model.

(** When no answer came, or the parsed answer has no item left after the
    filter, or the answer does not parse and no total other than zero is
    read off its text, scanning stores one more receipt, with exactly one
    item, of quantity 1, whose price is the receipt's total; the store
    lists it. *)
Theorem zero_items_coerced (uri : string) (resp : Vision.Response)
    (s : Store.State) (w : World) :
  no_item_no_scraped_total (today w) resp -> available w -> wf_db (sqlite w) ->
  exists alert s' w' p item,
    ScanScreen.handleImageProcessing uri resp (s, w) = (Ok alert, (s', w')) /\
    stored w' = (stored w ++ [p])%list /\ In p (Store.receipts s') /\
    items p = Some [item] /\
    totalAmount p = Some (i_price item) /\ i_quantity item = 1%Q.
Proof.
  intros N A W.
  destruct (extraction_without_items (today w) resp N)
    as (nm & P & T & Ei & Et & HP & HT).
  set (r := ScanScreen.processReceiptImage w uri resp).
  assert (Pl : exists p,
             Store.save_payload r = Ok p /\
             d_items p = Some [mkItem (Js.int_toString (now w) ++ "-0") nm 1%Q P (Some "other")] /\
             d_totalAmount p = Some P /\ d_total p = None).
  { unfold r, ScanScreen.processReceiptImage, Store.save_payload. simpl.
    rewrite Ei, Et. simpl. eexists. split; [reflexivity|]. simpl.
    repeat split. f_equal.
    unfold Store.derived_total. simpl.
    destruct HT as [-> | [-> Tf]].
    - destruct HP as [HP | ->]; [|reflexivity].
      unfold Js.or, Js.truthy, Js.or_lit. rewrite !HP. simpl. rewrite HP. reflexivity.
    - unfold Js.or, Js.truthy. rewrite !Tf. reflexivity. }
  destruct Pl as (p & Pl & Pi & Pt & Po).
  destruct (add_stored r p s w Pl A W) as (s' & w' & Ad & St & Pm).
  assert (K : exists item,
             items (saved_record w p) = Some [item] /\
             totalAmount (saved_record w p) = Some (i_price item) /\
             i_quantity item = 1%Q).
  { unfold saved_record.
    destruct (platform w); simpl; rewrite Pi, Pt, Po; simpl;
      (destruct HP as [HP | ->]; [rewrite !HP; simpl; rewrite ?HP|]);
      eexists; repeat split. }
  destruct K as (item & Ki & Kt & Kq).
  eexists _, s', w', (saved_record w p), item.
  split; [|split; [exact St|split; [|auto]]].
  - unfold ScanScreen.handleImageProcessing, try_catch, bind. simpl snd.
    fold r. rewrite Ad. reflexivity.
  - eapply Permutation_in; [symmetry; exact Pm|].
    rewrite St. apply in_or_app. right. left. reflexivity.
Qed.

Lemma zero_items_coerced_witness :
  exists alert s' w' p item,
    ScanScreen.handleImageProcessing "file:///r.jpg" Examples.nameless
      (Store.initial, Examples.mobile0) = (Ok alert, (s', w')) /\
    stored w' = [p] /\ items p = Some [item] /\
    totalAmount p = Some (i_price item) /\ i_quantity item = 1%Q.
Proof.
  destruct (zero_items_coerced "file:///r.jpg" Examples.nameless Store.initial
              Examples.mobile0)
    as (alert & s' & w' & p & item & H & St & _ & Hi & Ht & Hq).
  - reflexivity.
  - right. simpl. lia.
  - exact wf_empty.
  - exists alert, s', w', p, item. auto.
Defined.

End Coercion.

(** ** Totals by category *)

Section Categories.

Import Database Model.

Lemma own_none (k : string) (o : Js.Obj) :
  Js.own k o = None <-> ~ In k (map fst o).
Proof.
  induction o as [|[k0 v0] t IH]; simpl; [intuition|].
  destruct (String.eqb k0 k) eqn:E.
  - apply String.eqb_eq in E. subst. split; [discriminate|]. intros H. elim H. auto.
  - apply String.eqb_neq in E. rewrite IH. intuition.
Qed.

Lemma own_some (k : string) (v : Js.amount) (o : Js.Obj) :
  Js.own k o = Some v -> In (k, v) o.
Proof.
  induction o as [|[k0 v0] t IH]; simpl; [discriminate|].
  destruct (String.eqb k0 k) eqn:E; [|auto].
  apply String.eqb_eq in E. intros [= ->]. subst. auto.
Qed.

Lemma set_keys (k : string) (v : Js.amount) (o : Js.Obj) (k' : string) :
  In k' (map fst (Js.set k v o)) <-> k' = k \/ In k' (map fst o).
Proof.
  induction o as [|[k0 v0] t IH]; simpl; [intuition|].
  destruct (String.eqb k0 k) eqn:E; simpl.
  - apply String.eqb_eq in E. subst. intuition.
  - rewrite IH. intuition.
Qed.

Lemma set_NoDup (k : string) (v : Js.amount) (o : Js.Obj) :
  NoDup (map fst o) -> NoDup (map fst (Js.set k v o)).
Proof.
  induction o as [|[k0 v0] t IH]; simpl; intros N.
  - repeat constructor. intros [].
  - inversion N as [|? ? Hk Nt]; subst.
    destruct (String.eqb k0 k) eqn:E; simpl.
    + constructor; assumption.
    + constructor; [|exact (IH Nt)].
      rewrite set_keys. intros [-> | I]; [|exact (Hk I)].
      rewrite String.eqb_refl in E. discriminate.
Qed.

(** After [o[k] = v] the property [k] has the value [v] and the others
    are as they were. *)
Lemma set_in (k : string) (v : Js.amount) (o : Js.Obj) (k' : string) (v' : Js.amount) :
  NoDup (map fst o) -> In (k', v') (Js.set k v o) ->
  (k' = k /\ v' = v) \/ (k' <> k /\ In (k', v') o).
Proof.
  induction o as [|[k0 v0] t IH]; simpl; intros N.
  - intros [[= <- <-]|[]]. auto.
  - inversion N as [|? ? Hk Nt]; subst.
    destruct (String.eqb k0 k) eqn:E.
    + apply String.eqb_eq in E. subst k0. intros [[= <- <-]|I]; [auto|].
      right. split; [|auto]. intros ->. apply Hk.
      change k with (fst (k, v')). apply in_map, I.
    + apply String.eqb_neq in E. intros [[= <- <-]|I]; [auto|].
      destruct (IH Nt I) as [H|[H1 H2]]; auto.
Qed.

Lemma proto_inherited : Js.inherited "__proto__" = true.
Proof. reflexivity. Qed.

(** What one step of the accumulation does to the object. *)
Lemma accumulate_cases (k : string) (p : Q) (o : Js.Obj) :
  accumulated o ->
  (k = "__proto__" /\ Js.accumulate k p o = o) \/
  (k <> "__proto__" /\
   exists v, Js.accumulate k p o = Js.set k v o /\
             (v = Js.Text <-> Js.inherited k = true)).
Proof.
  intros [N A]. unfold Js.accumulate.
  destruct (Js.own k o) as [[v|]|] eqn:O.
  - destruct (A _ _ (own_some _ _ _ O)) as [Hp Ht].
    right. split; [exact Hp|]. eexists. split; [reflexivity|].
    split; [discriminate|]. intros H. apply Ht in H. discriminate.
  - destruct (A _ _ (own_some _ _ _ O)) as [Hp Ht].
    right. split; [exact Hp|]. exists Js.Text. split; [reflexivity|]. exact Ht.
  - destruct (Js.inherited k) eqn:I.
    + destruct (String.eqb k "__proto__") eqn:E.
      * left. apply String.eqb_eq in E. auto.
      * apply String.eqb_neq in E. right. split; [exact E|].
        exists Js.Text. split; [reflexivity|]. tauto.
    + right. split; [intros ->; rewrite proto_inherited in I; discriminate|].
      eexists. split; [reflexivity|]. split; discriminate.
Qed.

Lemma accumulate_accumulated (k : string) (p : Q) (o : Js.Obj) :
  accumulated o -> accumulated (Js.accumulate k p o).
Proof.
  intros H. destruct (accumulate_cases k p o H) as [[_ ->]|(Hp & v & -> & Hv)]; [exact H|].
  destruct H as [N A]. split; [apply set_NoDup, N|].
  intros k' v' I. destruct (set_in _ _ _ _ _ N I) as [[-> ->]|[_ I']]; [auto|].
  exact (A _ _ I').
Qed.

Lemma accumulate_keys (k : string) (p : Q) (o : Js.Obj) (k' : string) :
  accumulated o ->
  In k' (map fst (Js.accumulate k p o)) <->
  (k' = k /\ k <> "__proto__") \/ In k' (map fst o).
Proof.
  intros H. destruct (accumulate_cases k p o H) as [[-> ->]|(Hp & v & -> & _)].
  - intuition.
  - rewrite set_keys. intuition.
Qed.

Lemma accumulated_empty : accumulated [].
Proof. split; [constructor|intros k v []]. Qed.

(** The inner [forEach]: the items of one receipt. *)
Lemma fold_items_facts (l : list ReceiptItem) (m : Js.Obj) :
  let m' := fold_left
              (fun m item => Js.accumulate (item_category item) (i_price item) m) l m in
  accumulated m ->
  accumulated m' /\
  (forall k, In k (map fst m') <->
             In k (map fst m) \/ (In k (map item_category l) /\ k <> "__proto__")).
Proof.
  revert m. induction l as [|x t IH]; intros m; cbn [fold_left map]; intros A.
  - split; [exact A|]. simpl. intuition.
  - destruct (IH _ (accumulate_accumulated (item_category x) (i_price x) m A)) as (A' & K).
    split; [exact A'|].
    intros k. rewrite K, (accumulate_keys _ _ _ _ A). simpl. intuition; subst; auto.
Qed.

Lemma breakdown_facts (receipts : list Receipt) (m m' : Js.Obj) :
  breakdown receipts m = Ok m' -> accumulated m ->
  accumulated m' /\
  (forall k, In k (map fst m') <->
             In k (map fst m) \/
             (In k (map item_category (all_items receipts)) /\ k <> "__proto__")) /\
  Forall (fun r => items r <> None) receipts.
Proof.
  revert m. induction receipts as [|r t IH]; intros m; cbn [breakdown].
  - intros [= <-] A. split; [exact A|]. split; [simpl; intuition|constructor].
  - unfold items_of. destruct (items r) as [l|] eqn:Il; [|discriminate].
    intros B A. destruct (fold_items_facts l m A) as (A0 & K0).
    destruct (IH _ B A0) as (A' & K & F).
    split; [exact A'|]. split.
    + intros k. unfold all_items. cbn [flat_map]. rewrite Il. fold (all_items t).
      rewrite K, K0, map_app, in_app_iff. intuition.
    + constructor; [congruence|exact F].
Qed.

(** The breakdown by category has one property for each category of an
    item, but never one named [__proto__]; its value is a string, not a
    number, exactly for the categories that are named as a method of
    [Object.prototype]. *)
Theorem breakdown_keys (receipts : list Receipt) (ins : Insights) :
  compute_insights receipts = Ok ins ->
  NoDup (map fst (categoryBreakdown ins)) /\
  (forall k, In k (map fst (categoryBreakdown ins)) <->
             In k (map item_category (all_items receipts)) /\ k <> "__proto__") /\
  (forall k v, In (k, v) (categoryBreakdown ins) ->
               (v = Js.Text <-> Js.inherited k = true)).
Proof.
  unfold compute_insights.
  destruct (breakdown receipts []) as [m|] eqn:B; [|discriminate].
  destruct (category_entries receipts (Js.entries m)) as [en|]; [|discriminate].
  intros [= <-]. simpl.
  destruct (breakdown_facts _ _ _ B accumulated_empty) as ([N A] & K & _).
  split; [exact N|]. split.
  - intros k. rewrite K. simpl. intuition.
  - intros k v I. apply (A _ _ I).
Qed.

Lemma breakdown_keys_witness :
  exists ins,
    compute_insights [Examples.builtin_names] = Ok ins /\
    map fst (categoryBreakdown ins) = ["toString"; "Food"] /\
    NoDup (map fst (categoryBreakdown ins)).
Proof.
  eexists. split; [reflexivity|]. split; [reflexivity|].
  exact (proj1 (breakdown_keys [Examples.builtin_names] _ eq_refl)).
Defined.

Lemma insert_index_perm (e : Z * (string * Js.amount)) (l : list (Z * (string * Js.amount))) :
  Permutation (Js.insert_index e l) (e :: l).
Proof.
  induction l as [|x t IH]; simpl; [reflexivity|].
  destruct (fst e <=? fst x); [reflexivity|].
  rewrite IH. apply perm_swap.
Qed.

(** [Object.entries] gives every property once. *)
Lemma entries_perm (o : Js.Obj) : Permutation (Js.entries o) o.
Proof.
  unfold Js.entries.
  transitivity
    (map snd (Js.indexed o) ++
     filter (fun e => match Js.array_index (fst e) with Some _ => false | None => true end) o)%list.
  - apply Permutation_app_tail, Permutation_map.
    induction (Js.indexed o) as [|x t IH]; simpl; [reflexivity|].
    rewrite insert_index_perm. constructor. exact IH.
  - induction o as [|e t IH]; simpl; [reflexivity|].
    destruct (Js.array_index (fst e)); simpl.
    + constructor. exact IH.
    + rewrite <- Permutation_middle. constructor. exact IH.
Qed.

Lemma positive_minus (x y : Q) :
  Js.positive (Js.minus (Js.Num y) (Js.Num x)) = true <-> (x < y)%Q.
Proof.
  destruct x as [a b], y as [c d]. unfold Js.positive, Js.minus, Qlt. simpl.
  rewrite Z.ltb_lt. lia.
Qed.

Lemma insert_by_total_perm (x : CategoryTotal) (l : list CategoryTotal) :
  Permutation (insert_by_total x l) (x :: l).
Proof.
  induction l as [|y t IH]; simpl; [reflexivity|].
  destruct (Js.positive (by_total x y)); [|reflexivity].
  rewrite IH. apply perm_swap.
Qed.

Lemma sort_by_total_perm (l : list CategoryTotal) : Permutation (sort_by_total l) l.
Proof.
  unfold sort_by_total. induction l as [|x t IH]; simpl; [reflexivity|].
  rewrite insert_by_total_perm. constructor. exact IH.
Qed.

Lemma insert_by_total_sorted (x : CategoryTotal) (l : list CategoryTotal) :
  numeric x -> Forall numeric l ->
  StronglySorted larger_or_same l -> StronglySorted larger_or_same (insert_by_total x l).
Proof.
  intros [tx Hx] Nl. induction 1 as [|y t St IH Hy]; simpl.
  - constructor; constructor.
  - inversion Nl as [|? ? [ty Ty] Nt]; subst.
    unfold by_total. rewrite Hx, Ty.
    destruct (Js.positive (Js.minus (Js.Num ty) (Js.Num tx))) eqn:C.
    + apply positive_minus in C. constructor; [exact (IH Nt)|].
      eapply Permutation_Forall; [symmetry; apply insert_by_total_perm|].
      constructor; [|exact Hy].
      exists ty, tx. repeat split; auto. apply Qlt_le_weak, C.
    + assert (L : (ty <= tx)%Q).
      { apply Qnot_lt_le. intros H. apply positive_minus in H. congruence. }
      constructor; [constructor; assumption|].
      constructor; [exists tx, ty; auto|].
      eapply Forall_impl; [|exact Hy]. intros z (a & b & Ha & Hb & Hab).
      exists tx, b. repeat split; auto.
      rewrite Ty in Ha. injection Ha as <-. eapply Qle_trans; eassumption.
Qed.

Lemma sort_by_total_sorted (l : list CategoryTotal) :
  Forall numeric l -> StronglySorted larger_or_same (sort_by_total l).
Proof.
  unfold sort_by_total. induction 1 as [|x t Hx Ht IH]; simpl; [constructor|].
  apply insert_by_total_sorted; [exact Hx| |exact IH].
  eapply Permutation_Forall; [symmetry; apply sort_by_total_perm|exact Ht].
Qed.

Lemma count_category_eq (c : string) (receipts : list Receipt) (acc n : nat) :
  count_category c receipts acc = Ok n ->
  n = (acc + length (filter (fun item => String.eqb (item_category item) c)
                       (all_items receipts)))%nat.
Proof.
  revert acc. induction receipts as [|r t IH]; intros acc; cbn [count_category].
  - intros [= <-]. simpl. lia.
  - unfold items_of. destruct (items r) as [l|] eqn:Il; [|discriminate].
    intros H. apply IH in H. unfold all_items in *. cbn [flat_map]. rewrite Il.
    rewrite filter_app, length_app. lia.
Qed.

Lemma category_entries_facts (receipts : list Receipt) (m : list (string * Js.amount))
    (en : list CategoryTotal) :
  category_entries receipts m = Ok en ->
  map (fun e => (ct_category e, ct_total e)) en = m /\
  map ct_count en =
  map (fun kv => length (filter (fun item => String.eqb (item_category item) (fst kv))
                           (all_items receipts))) m.
Proof.
  revert en. induction m as [|[c v] t IH]; intros en; cbn [category_entries].
  - intros [= <-]. split; reflexivity.
  - destruct (count_category c receipts 0) as [n|] eqn:C; [|discriminate].
    destruct (category_entries receipts t) as [rest|]; [|discriminate].
    intros [= <-]. destruct (IH rest eq_refl) as [A B].
    apply count_category_eq in C. simpl. rewrite A, B, C. split; reflexivity.
Qed.

Lemma list_sum_perm (l l' : list nat) : Permutation l l' -> list_sum l = list_sum l'.
Proof. induction 1; simpl; lia. Qed.

Lemma indicator_sum (c : string) (K : list string) :
  NoDup K -> In c K ->
  list_sum (map (fun k => if String.eqb c k then 1%nat else 0%nat) K) = 1%nat.
Proof.
  induction K as [|k t IH]; intros N I; [destruct I|].
  inversion N as [|? ? Hk Nt]; subst. simpl.
  destruct (String.eqb c k) eqn:E.
  - apply String.eqb_eq in E. subst k.
    replace (list_sum _) with 0%nat; [reflexivity|].
    clear -Hk. induction t as [|y t IH]; simpl; [reflexivity|].
    destruct (String.eqb c y) eqn:E.
    + apply String.eqb_eq in E. subst. exfalso. apply Hk. left. reflexivity.
    + apply IH. intros H. apply Hk. right. exact H.
  - apply String.eqb_neq in E. destruct I as [-> | I]; [congruence|]. exact (IH Nt I).
Qed.

Lemma counts_cover (K : list string) (l : list ReceiptItem) :
  NoDup K -> (forall item, In item l -> In (item_category item) K) ->
  list_sum (map (fun k => length (filter (fun item => String.eqb (item_category item) k) l)) K)
  = length l.
Proof.
  intros N. induction l as [|x t IH]; intros H.
  - simpl. clear. induction K as [|k K IHK]; simpl; [reflexivity|exact IHK].
  - assert (E : forall K0,
               list_sum (map (fun k => length (filter
                   (fun item => String.eqb (item_category item) k) (x :: t))) K0) =
               (list_sum (map (fun k => if String.eqb (item_category x) k
                                        then 1%nat else 0%nat) K0) +
                list_sum (map (fun k => length (filter
                   (fun item => String.eqb (item_category item) k) t)) K0))%nat).
    { induction K0 as [|k K0 IHK]; simpl; [reflexivity|].
      simpl in IHK. rewrite IHK.
      destruct (String.eqb (item_category x) k); simpl; lia. }
    rewrite E, indicator_sum, IH; simpl; auto.
    + intros item I. apply H. right. exact I.
    + apply H. left. reflexivity.
Qed.

(** When no category is a name that objects inherit, [topCategories]
    ranks the categories of the breakdown: it holds each of them once,
    with its amount, largest amount first, and the item counts of its
    entries add up to the number of items of all receipts. *)
Theorem top_categories_ranked (receipts : list Receipt) (ins : Insights) :
  ordinary_categories receipts ->
  compute_insights receipts = Ok ins ->
  StronglySorted larger_or_same (topCategories ins) /\
  Permutation (map (fun e => (ct_category e, ct_total e)) (topCategories ins))
              (categoryBreakdown ins) /\
  list_sum (map ct_count (topCategories ins)) = length (all_items receipts).
Proof.
  intros Ord. unfold compute_insights.
  destruct (breakdown receipts []) as [m|] eqn:B; [|discriminate].
  destruct (category_entries receipts (Js.entries m)) as [en|] eqn:C; [|discriminate].
  intros [= <-]. simpl.
  destruct (category_entries_facts _ _ _ C) as [Pairs Counts].
  destruct (breakdown_facts _ _ _ B accumulated_empty) as ([N A] & K & _).
  pose proof (entries_perm m) as Pm.
  unfold ordinary_categories in Ord. rewrite Forall_forall in Ord.
  assert (Nu : Forall numeric en).
  { apply Forall_forall. intros e Ie.
    assert (I : In (ct_category e, ct_total e) m).
    { eapply Permutation_in; [exact Pm|]. rewrite <- Pairs.
      apply (in_map (fun e => (ct_category e, ct_total e))), Ie. }
    destruct (A _ _ I) as [_ Ht].
    assert (Ik : In (ct_category e) (map fst m))
      by (change (ct_category e) with (fst (ct_category e, ct_total e)); apply in_map, I).
    apply K in Ik. destruct Ik as [[]|[Ik _]].
    apply in_map_iff in Ik. destruct Ik as (item & Ec & Ii).
    specialize (Ord _ Ii). rewrite Ec in Ord.
    unfold numeric. destruct (ct_total e) as [q|]; [exists q; reflexivity|].
    destruct Ht as [Ht _]. rewrite Ht in Ord; [discriminate|reflexivity]. }
  split; [apply sort_by_total_sorted, Nu|]. split.
  - rewrite <- Pm, <- Pairs. apply Permutation_map, sort_by_total_perm.
  - rewrite (list_sum_perm _ (map ct_count en))
      by (apply Permutation_map, sort_by_total_perm).
    rewrite Counts.
    rewrite <- (map_map fst
      (fun k => length (filter (fun item => String.eqb (item_category item) k)
                          (all_items receipts)))).
    apply counts_cover.
    + eapply Permutation_NoDup; [apply Permutation_map; symmetry; exact Pm|exact N].
    + intros item I.
      eapply Permutation_in; [apply Permutation_map; symmetry; exact Pm|].
      apply K. right. split; [apply in_map, I|].
      intros E. specialize (Ord _ I). rewrite E, proto_inherited in Ord. discriminate.
Qed.

Lemma top_categories_ranked_witness :
  exists ins,
    compute_insights [Examples.untotalled; Examples.legacy] = Ok ins /\
    list_sum (map ct_count (topCategories ins)) = 3%nat.
Proof.
  eexists. split; [reflexivity|].
  refine (proj2 (proj2 (top_categories_ranked
                          [Examples.untotalled; Examples.legacy] _ _ eq_refl))).
  repeat constructor.
Defined.

End Categories.

(** ** What the extraction hands over *)

Section Extraction.

Import Database Model.

Lemma or_lit_truthy {A : Type} (t : A -> bool) (x : option A) (d : A) :
  t d = true -> t (Js.or_lit t x d) = true.
Proof.
  intros H. unfold Js.or_lit. destruct x as [v|]; [|exact H].
  destruct (t v) eqn:E; [exact E|exact H].
Qed.

Lemma trim_truthy (s : string) :
  String.eqb (Js.trim s) "" = false -> Js.truthy_str (Js.trim s) = true.
Proof. destruct (Js.trim s); [discriminate|reflexivity]. Qed.

Lemma clean_items_usable (l : list (option Vision.RawItem)) :
  Forall (fun i => Js.truthy_str (Vision.e_name i) = true /\
                   Js.truthy_num (Vision.e_quantity i) = true /\
                   Js.truthy_str (Vision.e_category i) = true)
         (Vision.clean_items l).
Proof.
  unfold Vision.clean_items. induction l as [|x t IH]; simpl; [constructor|].
  destruct (Vision.valid_item x) eqn:V; [|exact IH].
  simpl. apply Forall_app. split; [|exact IH].
  unfold Vision.valid_item in V. unfold Vision.clean_item.
  destruct x as [i|]; [|discriminate].
  destruct (Vision.raw_name i) as [n|]; [|discriminate].
  apply andb_true_iff in V. destruct V as [_ V]. apply negb_true_iff in V.
  repeat constructor; simpl.
  - apply trim_truthy, V.
  - apply or_lit_truthy. reflexivity.
  - apply or_lit_truthy. reflexivity.
Qed.

Lemma extraction_usable_items (today : string) (resp : Vision.Response) :
  Js.truthy_str (Vision.e_merchantName (Vision.extractReceiptData today resp)) = true /\
  Vision.e_items (Vision.extractReceiptData today resp) <> [].
Proof.
  destruct resp as [|raw|text]; simpl.
  - split; [reflexivity|discriminate].
  - unfold Vision.process_parsed. simpl.
    split; [apply or_lit_truthy; reflexivity|].
    destruct (Vision.clean_items _); discriminate.
  - unfold Vision.process_unparsed. simpl. split; [|discriminate].
    destruct (Vision.find_line "merchant" _) as [line|]; [|reflexivity].
    destruct (Js.truthy_str (Vision.scrape_merchant line)) eqn:T; [exact T|reflexivity].
Qed.

(** Whatever the response, the extraction gives a merchant name that is
    not empty and at least one item, and each of its items has a name
    that is not empty, a quantity other than zero and a category. *)
Theorem extraction_always_usable (today : string) (resp : Vision.Response) :
  let data := Vision.extractReceiptData today resp in
  Js.truthy_str (Vision.e_merchantName data) = true /\
  Vision.e_items data <> [] /\
  Forall (fun i => Js.truthy_str (Vision.e_name i) = true /\
                   Js.truthy_num (Vision.e_quantity i) = true /\
                   Js.truthy_str (Vision.e_category i) = true)
         (Vision.e_items data).
Proof.
  destruct resp as [|raw|text]; simpl.
  - split; [reflexivity|]. split; [discriminate|]. repeat constructor.
  - unfold Vision.process_parsed. simpl.
    split; [apply or_lit_truthy; reflexivity|].
    pose proof (clean_items_usable
                  (match Vision.raw_items raw with Some l => l | None => [] end)) as U.
    destruct (Vision.clean_items _) as [|i t].
    + split; [discriminate|]. repeat constructor.
    + split; [discriminate|exact U].
  - unfold Vision.process_unparsed. simpl.
    split; [|split; [discriminate|repeat constructor]].
    destruct (Vision.find_line "merchant" _) as [line|]; [|reflexivity].
    destruct (Js.truthy_str (Vision.scrape_merchant line)) eqn:T; [exact T|reflexivity].
Qed.

Lemma amounts_nonnegative (st : Vision.Scan) (s : string) :
  match st with
  | Vision.Outside => True
  | Vision.Inside n _ _ => 0 <= n
  end ->
  Forall (fun q => (0 <= q)%Q) (Vision.amounts st s).
Proof.
  assert (D : forall c, Js.is_digit c = true -> 0 <= Js.digit_val c).
  { intros c H. unfold Js.is_digit, Js.digit_val in *.
    apply andb_true_iff in H. destruct H as [H _]. apply Nat.leb_le in H. lia. }
  assert (Q0 : forall n d, 0 <= n -> (0 <= n # d)%Q).
  { intros n d H. unfold Qle. simpl. lia. }
  revert st. induction s as [|c r IH]; intros st H; simpl.
  - destruct st; constructor; auto.
  - destruct st as [|n d [|]].
    + destruct (Js.is_digit c) eqn:Dc; apply IH; simpl; auto.
    + destruct (Js.is_digit c) eqn:Dc.
      * apply IH. simpl. specialize (D c Dc). lia.
      * constructor; [auto|]. apply IH. exact I.
    + destruct (Js.is_digit c) eqn:Dc.
      * apply IH. simpl. specialize (D c Dc). lia.
      * destruct (Ascii.eqb c "."); [apply IH; exact H|].
        constructor; [auto|]. apply IH. exact I.
Qed.

(** The total read off a response that does not parse is never negative,
    and the fallback total is 0. *)
Theorem scraped_total_nonnegative (today text : string) :
  (0 <= Vision.e_totalAmount (Vision.extractReceiptData today (Vision.Unparsed text)))%Q /\
  Vision.e_totalAmount (Vision.extractReceiptData today Vision.NoResponse) = 0%Q.
Proof.
  split; [|reflexivity]. simpl. unfold Vision.process_unparsed. simpl.
  destruct (Vision.find_line "total" _) as [line|]; [|discriminate].
  pose proof (amounts_nonnegative Vision.Outside line I) as F.
  destruct (rev (Vision.amounts Vision.Outside line)) as [|q t] eqn:R; [discriminate|].
  rewrite Forall_forall in F. apply F. apply in_rev. rewrite R. left. reflexivity.
Qed.

End Extraction.

(** ** The screens, end to end *)

Section Screens.

Import Database Model.

Lemma number_items_length (t : Z) (k : nat) (l : list Vision.ExtractedItem) :
  length (ScanScreen.number_items t k l) = length l.
Proof.
  revert k. induction l as [|x r IH]; intros k; simpl; [|rewrite IH]; reflexivity.
Qed.

(** Whatever the response, with the backend in reach a scan stores one
    more receipt and shows no error; the receipt has a merchant name, at
    least one item and the image that was captured, and the store lists
    it. *)
Theorem scan_always_stores (uri : string) (resp : Vision.Response)
    (s : Store.State) (w : World) :
  available w -> wf_db (sqlite w) ->
  exists title s' w' p l,
    ScanScreen.handleImageProcessing uri resp (s, w) = (Ok (AlertInfo title), (s', w')) /\
    stored w' = (stored w ++ [p])%list /\ In p (Store.receipts s') /\
    Store.error s' = None /\
    merchantName p = Some (Vision.e_merchantName (Vision.extractReceiptData (today w) resp)) /\
    items p = Some l /\ l <> [] /\
    (Js.truthy_str uri = true -> imageUri p = ImgUri uri).
Proof.
  intros A W.
  set (r := ScanScreen.processReceiptImage w uri resp).
  destruct (extraction_usable_items (today w) resp) as (Tm & Ne).
  assert (Pl : exists p l,
             Store.save_payload r = Ok p /\ d_items p = Some l /\ l <> [] /\
             d_merchantName p =
               Some (Vision.e_merchantName (Vision.extractReceiptData (today w) resp)) /\
             d_imageUri p = ImgUri uri).
  { unfold r, ScanScreen.processReceiptImage, Store.save_payload. simpl.
    do 2 eexists. split; [reflexivity|]. simpl. split; [reflexivity|]. split.
    - intros H. apply (f_equal (@length _)) in H.
      rewrite length_map, number_items_length in H.
      destruct (Vision.e_items _); [congruence|discriminate].
    - split; [|reflexivity]. f_equal. unfold Js.or, Js.or_lit. rewrite Tm, Tm. reflexivity. }
  destruct Pl as (p & l & Pl & Il & Nl & Mp & Ip).
  destruct (add_stored r p s w Pl A W) as (s' & w' & Ad & St & Pm).
  assert (Er : Store.error s' = None).
  { change (Store.addReceipt r) with (run (Add r)) in Ad. rewrite run_eq in Ad.
    destruct (backend_write (Add r) w) as [[[]|e] w1]; [|discriminate].
    destruct (getAllReceiptsFromDatabase w1) as [[l1|e] w2]; [|discriminate].
    injection Ad as <- _. reflexivity. }
  assert (K : exists l', items (saved_record w p) = Some l' /\ l' <> [] /\
               merchantName (saved_record w p) = d_merchantName p /\
               (Js.truthy_str uri = true -> imageUri (saved_record w p) = ImgUri uri)).
  { unfold saved_record. destruct (platform w); simpl; rewrite Il, Mp, Ip; simpl;
      unfold Js.or_lit; rewrite Tm; eexists; (split; [reflexivity|]);
      (split; [|split; [reflexivity|intros ->; reflexivity]]); try exact Nl.
    intros H. apply (f_equal (@length _)) in H.
    rewrite written_items_length in H. destruct l; [congruence|discriminate]. }
  destruct K as (l' & Ki & Kn & Km & Ku).
  eexists _, s', w', (saved_record w p), l'.
  split; [|split; [exact St|split; [|split; [exact Er|split; [|auto]]]]].
  - unfold ScanScreen.handleImageProcessing, try_catch, bind. simpl snd.
    fold r. rewrite Ad. reflexivity.
  - eapply Permutation_in; [symmetry; exact Pm|].
    rewrite St. apply in_or_app. right. left. reflexivity.
  - rewrite Km. exact Mp.
Qed.

Lemma scan_always_stores_witness :
  exists title s' w' p l,
    ScanScreen.handleImageProcessing "file:///r.jpg" Examples.scraped
      (Store.initial, Examples.mobile0) = (Ok (AlertInfo title), (s', w')) /\
    stored w' = [p] /\ items p = Some l /\ l <> [].
Proof.
  destruct (scan_always_stores "file:///r.jpg" Examples.scraped Store.initial
              Examples.mobile0)
    as (title & s' & w' & p & l & H & St & _ & _ & _ & Il & Nl & _).
  - right. simpl. lia.
  - exact wf_empty.
  - exists title, s', w', p, l. auto.
Defined.

(** When the receipt under edit has a store name, at least one valid item
    and an id the backend finds, [handleSave] reports success, and what is
    stored for the id afterwards has the valid items and no other: the
    items with a blank name or a price that is not positive are dropped
    before the write. *)
Theorem handleSave_persists_valid_items (receipt e : Receipt) (l : list ReceiptItem)
    (s : Store.State) (w w1 : World) :
  Js.truthy_str (EditScreen.store_name receipt) = true ->
  items receipt = Some l -> filter EditScreen.valid_item l <> [] ->
  getReceiptById (id receipt) w = (Ok (Some e), w1) ->
  exists s' w' r,
    EditScreen.handleSave receipt (s, w) = (Ok (AlertInfo "Success"), (s', w')) /\
    getReceiptById (id receipt) w' = (Ok (Some r), w') /\
    items r = Some match platform w with
                   | Web => filter EditScreen.valid_item l
                   | Mobile =>
                       written_items (next_item_id (sqlite w))
                         (filter EditScreen.valid_item l)
                   end /\
    getAllReceiptsFromDatabase w' = (Ok (Store.receipts s'), w') /\
    Store.error s' = None.
Proof.
  intros N Il Nv G.
  set (v := filter EditScreen.valid_item l) in *.
  set (d := EditScreen.with_items receipt v).
  destruct (update_then_get w w1 (id receipt) e d G) as (w' & U & G').
  assert (B : backend_write (Update (id receipt) d) w = (Ok tt, w')) by exact U.
  pose proof (getAll_settled _ (write_settles _ _ _ B)) as Gs.
  destruct (getAll_total w') as (l1 & w2 & R). rewrite R in Gs. simpl in Gs. subst w2.
  exists (Store.mkState l1 (Store.chatMessages s) false None), w', (updated_record w e d).
  split; [|split; [exact G'|split; [|split; [exact R|reflexivity]]]].
  - unfold EditScreen.handleSave. rewrite N, Il. simpl negb. cbv iota.
    fold v. destruct v as [|x t] eqn:V; [congruence|].
    unfold try_catch, bind.
    change (Store.updateReceipt (id receipt) (EditScreen.with_items receipt (x :: t)))
      with (run (Update (id receipt) d)).
    cbn [negb]. cbv beta iota. rewrite run_eq, B, R. reflexivity.
  - unfold updated_record. destruct (platform w); reflexivity.
Qed.

Lemma handleSave_persists_valid_items_witness :
  exists s' w' r,
    EditScreen.handleSave Examples.two_valid_one_not (Store.initial, Examples.legacy_web) =
      (Ok (AlertInfo "Success"), (s', w')) /\
    getReceiptById "7" w' = (Ok (Some r), w') /\
    items r = Some [mkItem "j" "Milk" 1 11 None; mkItem "k" "Eggs" 2 3 None].
Proof.
  destruct (handleSave_persists_valid_items Examples.two_valid_one_not Examples.legacy
              Examples.edited_items
              Store.initial Examples.legacy_web Examples.legacy_web
              eq_refl eq_refl)
    as (s' & w' & r & H & G & I & _).
  - discriminate.
  - reflexivity.
  - exists s', w', r. auto.
Defined.

End Screens.

Section ListingOrderWitness.

Import Database Model.

Lemma mobile_listing_newest_first_witness :
  newest_first
    (map (receipt_of_row (sqlite (Examples.after_two_saves Examples.mobile0)))
       (select_receipts_desc (sqlite (Examples.after_two_saves Examples.mobile0)))).
Proof.
  exact (mobile_listing_newest_first (Examples.after_two_saves Examples.mobile0)
           (Examples.after_two_saves Examples.mobile0) _ eq_refl eq_refl).
Defined.

End ListingOrderWitness.
